(** * SignOut: pose-sequence pipeline, verified against its specification

    A shallow embedding of the numeric core of the repository:
    - [streamlit_app.py]: [blend_pose_sequences];
    - [word_to_smplx.py]: the joint layout, the joint-limit table,
      [_apply_anatomical_constraints_to_frame], [_process_hand_pose_data] and
      [render_animation];
    - [app.py]: [transcript_to_words].

    NumPy's float64 scalars are Rocq's primitive binary64 floats, torch's
    float32 tensors are [spec_float] values rounded to binary32, and Python
    exceptions are the [Raise] side of a small error monad. *)

From Stdlib Require Import ZArith Floats Lia Ascii String.
From stdpp Require Import base option list gmap strings.

Local Open Scope Z_scope.

(** ** Python exceptions as an error monad *)

Inductive exn :=
| ValueError (msg : string)
| IndexError
| KeyError (key : string)
| ModelError (code : nat).

Inductive result (A : Type) :=
| Ok (a : A)
| Raise (e : exn).
Arguments Ok {A} a.
Arguments Raise {A} e.

#[global] Instance result_ret : MRet result := fun A a => Ok a.

#[global] Instance result_bind : MBind result := fun A B k r =>
  match r with
  | Ok a => k a
  | Raise e => Raise e
  end.

(** A [for] loop that collects one value per element and stops at the first
    exception. *)
Fixpoint for_each {A B} (f : A -> result B) (l : list A) : result (list B) :=
  match l with
  | [] => Ok []
  | a :: l' => b ← f a; bs ← for_each f l'; Ok (b :: bs)
  end.

(** A [for] loop that threads a value through its body. *)
Fixpoint for_fold {A S} (f : S -> A -> result S) (s : S) (l : list A) : result S :=
  match l with
  | [] => Ok s
  | a :: l' => s' ← f s a; for_fold f s' l'
  end.

(** ** NumPy arrays

    A one-dimensional array is the list of its entries.  A two-dimensional
    array of shape [(N, D)] keeps [D] beside its rows, since an array with no
    row still has a column count that [np.vstack] checks. *)

Abbreviation row := (list float).

Record ndarray := NDArray { ncols : nat; rows : list row }.

Definition nrows (a : ndarray) : nat := length (rows a).

Definition wf_ndarray (a : ndarray) : Prop :=
  Forall (fun r => length r = ncols a) (rows a).

(** [range(n)] for a Python int [n]: empty when [n <= 0]. *)
Definition py_range (n : Z) : list Z := map Z.of_nat (seq 0 (Z.to_nat n)).

(** Index normalisation of [a[j]]: a negative [j] counts from the end, and an
    index outside [-len, len) raises [IndexError]. *)
Definition py_index {A} (l : list A) (j : Z) : result A :=
  let j' := if j <? 0 then j + Z.of_nat (length l) else j in
  if j' <? 0 then Raise IndexError
  else match l !! Z.to_nat j' with
       | Some x => Ok x
       | None => Raise IndexError
       end.

(** A slice bound, clamped into [0, len] the way [slice.indices] does for a
    step of 1; [None] is an omitted bound. *)
Definition py_bound (len : nat) (dflt : Z) (b : option Z) : nat :=
  match b with
  | None => Z.to_nat dflt
  | Some j =>
      let j' := if j <? 0 then j + Z.of_nat len else j in
      Z.to_nat (Z.min (Z.max j' 0) (Z.of_nat len))
  end.

(** [l[start:stop]]. *)
Definition py_slice {A} (start stop : option Z) (l : list A) : list A :=
  let lo := py_bound (length l) 0 start in
  let hi := py_bound (length l) (Z.of_nat (length l)) stop in
  take (hi - lo)%nat (drop lo l).

(** [a[start:stop, :]]: the rows of the slice, the column count kept. *)
Definition slice_rows (start stop : option Z) (a : ndarray) : ndarray :=
  NDArray (ncols a) (py_slice start stop (rows a)).

(** [np.vstack] of two-dimensional arrays: the column counts must agree. *)
Fixpoint np_vstack_from (d : nat) (l : list ndarray) : result (list row) :=
  match l with
  | [] => Ok []
  | a :: l' =>
      if Nat.eqb (ncols a) d
      then rs ← np_vstack_from d l'; Ok (rows a ++ rs)
      else Raise (ValueError "all the input array dimensions except for the concatenation axis must match exactly")
  end.

Definition np_vstack (l : list ndarray) : result ndarray :=
  match l with
  | [] => Raise (ValueError "need at least one array to concatenate")
  | a :: _ => rs ← np_vstack_from (ncols a) l; Ok (NDArray (ncols a) rs)
  end.

(** [np.array] of a non-empty Python list of one-dimensional arrays. *)
Definition np_array (l : list row) : result ndarray :=
  match l with
  | [] => Ok (NDArray 0 [])
  | r :: _ =>
      if forallb (fun r' => Nat.eqb (length r') (length r)) l
      then Ok (NDArray (length r) l)
      else Raise (ValueError "setting an array element with a sequence")
  end.

(** [s * r] for a Python float [s] and a one-dimensional array [r]. *)
Definition np_scale (s : float) (r : row) : row := map (fun x => (s * x)%float) r.

(** [r1 + r2] on one-dimensional arrays, with NumPy's broadcasting of a
    length-1 operand. *)
Definition np_add (r1 r2 : row) : result row :=
  if Nat.eqb (length r1) (length r2) then Ok (zip_with PrimFloat.add r1 r2)
  else match r1, r2 with
       | [x], _ => Ok (map (fun y => (x + y)%float) r2)
       | _, [y] => Ok (map (fun x => (x + y)%float) r1)
       | _, _ => Raise (ValueError "operands could not be broadcast together")
       end.

(** A Python int as a float: the correctly rounded conversion. *)
Definition float_of_Z (z : Z) : float :=
  SF2Prim (binary_normalize prec emax z 0 false).

(** ** streamlit_app.py: [blend_pose_sequences] *)

Module Blend.

(** The interpolation weight [(i + 1) / (n_blend + 1)] of blend index [i]. *)
Definition alpha (n_blend i : Z) : float :=
  (float_of_Z (i + 1) / float_of_Z (n_blend + 1))%float.

(** One pass of the loop body: [(1 - alpha) * seq_a[-n_blend + i, :] + alpha * seq_b[i, :]]. *)
Definition current_blend (seq_a seq_b : ndarray) (n_blend i : Z) : result row :=
  let al := alpha n_blend i in
  ra ← py_index (rows seq_a) (- n_blend + i);
  rb ← py_index (rows seq_b) i;
  np_add (np_scale (1 - al)%float ra) (np_scale al rb).

(** The interpolation the specification states for one parameter. *)
Definition lerp (al a b : float) : float := ((1 - al) * a + al * b)%float.

(** Row [j] of an array, empty when there is none. *)
Definition row_of (a : ndarray) (j : nat) : row := default [] (rows a !! j).

(** The blend window the specification describes: entry [i] interpolates
    row [N1 - k + i] of A and row [i] of B with weight [alpha k i]. *)
Definition blend_window (seq_a seq_b : ndarray) (k : Z) : list row :=
  map (fun i => zip_with (lerp (alpha k i))
                  (row_of seq_a (nrows seq_a - Z.to_nat k + Z.to_nat i))
                  (row_of seq_b (Z.to_nat i)))
      (py_range k).

Definition blend_pose_sequences (seq_a seq_b : ndarray) (n_blend : Z) : result ndarray :=
  if (n_blend =? 0) || (Z.of_nat (nrows seq_a) <? n_blend)
     || (Z.of_nat (nrows seq_b) <? n_blend)
  then np_vstack [seq_a; seq_b]
  else
    blended_part ← for_each (current_blend seq_a seq_b n_blend) (py_range n_blend);
    match blended_part with
    | [] => np_vstack [seq_a; seq_b]
    | _ =>
        blended_part_np ← np_array blended_part;
        np_vstack [slice_rows None (Some (- n_blend)) seq_a;
                   blended_part_np;
                   slice_rows (Some n_blend) None seq_b]
    end.

(** Three frames and two frames of 156 parameters. *)
Definition sample_a : ndarray :=
  NDArray 156 [replicate 156 0%float; replicate 156 2%float; replicate 156 4%float].
Definition sample_b : ndarray :=
  NDArray 156 [replicate 156 10%float; replicate 156 12%float].

End Blend.

(** ** word_to_smplx.py: the joint layout and the joint-limit table *)

Module Constraints.

#[local] Set Warnings "-inexact-float".

(** [np.pi]. *)
Definition np_pi : float := 0x1.921fb54442d18p+1%float.

(** [_get_finger_joint_mapping]: finger, joint type, parameter sub-range; a
    Python dict iterates in insertion order. *)
Definition finger_joint_mapping : list (string * list (string * (nat * nat))) :=
  [ ("thumb",  [("cmc", (0, 3));   ("mcp", (3, 6));   ("ip", (6, 9))]);
    ("index",  [("mcp", (9, 12));  ("pip", (12, 15)); ("dip", (15, 18))]);
    ("middle", [("mcp", (18, 21)); ("pip", (21, 24)); ("dip", (24, 27))]);
    ("ring",   [("mcp", (27, 30)); ("pip", (30, 33)); ("dip", (33, 36))]);
    ("pinky",  [("mcp", (36, 39)); ("pip", (39, 42)); ("dip", (42, 45))]) ]%nat.

(** [_get_hand_joint_limits], in radians. *)
Definition hand_joint_limits : gmap string (float * float) :=
  list_to_map
    [ ("mcp_flexion", (0, 1.57));
      ("mcp_abduction", (-0.35, 0.35));
      ("mcp_twist", (-0.2, 0.2));
      ("pip_flexion", (0, 1.75));
      ("pip_side_flex", (-0.1, 0.1));
      ("pip_twist", (-0.1, 0.1));
      ("dip_flexion", (0, 1.22));
      ("dip_side_flex", (-0.05, 0.05));
      ("dip_twist", (-0.05, 0.05));
      ("thumb_cmc_flexion", (-0.5, 0.9));
      ("thumb_cmc_abduction", (0, 1.22));
      ("thumb_cmc_twist", (-0.5, 0.5));
      ("thumb_mcp_flexion", (-0.2, 0.9));
      ("thumb_mcp_abduction", (-0.1, 0.1));
      ("thumb_mcp_twist", (-0.2, 0.2));
      ("thumb_ip_flexion", (-0.2, 1.4));
      ("thumb_ip_side_flex", (-0.1, 0.1));
      ("thumb_ip_twist", (-0.1, 0.1));
      ("general_clamp", (- np_pi, np_pi)) ]%float.

(** [self.hand_joint_limits[key]]. *)
Definition limit_of (key : string) : result (float * float) :=
  match hand_joint_limits !! key with
  | Some lim => Ok lim
  | None => Raise (KeyError key)
  end.

(** NumPy's clip kernel on floats: a NaN operand is returned as it is,
    otherwise [max] then [min] by comparison. *)
Definition np_max (a b : float) : float :=
  if is_nan a then a else if (b <? a)%float then a else b.

Definition np_min (a b : float) : float :=
  if is_nan a then a else if (a <? b)%float then a else b.

Definition np_clip (x a_min a_max : float) : float :=
  np_min (np_max x a_min) a_max.

(** The three limit names the branch for [(finger_name, joint_type)] uses;
    [None] where no branch matches and the joint is left as it is. *)
Definition limit_keys (finger_name joint_type : string) : option (string * string * string) :=
  if String.eqb finger_name "thumb" then
    if String.eqb joint_type "cmc" then
      Some ("thumb_cmc_flexion", "thumb_cmc_abduction", "thumb_cmc_twist")
    else if String.eqb joint_type "mcp" then
      Some ("thumb_mcp_flexion", "thumb_mcp_abduction", "thumb_mcp_twist")
    else if String.eqb joint_type "ip" then
      Some ("thumb_ip_flexion", "thumb_ip_side_flex", "thumb_ip_twist")
    else None
  else
    if String.eqb joint_type "mcp" then
      Some ("mcp_flexion", "mcp_abduction", "mcp_twist")
    else if String.eqb joint_type "pip" then
      Some ("pip_flexion", "pip_side_flex", "pip_twist")
    else if String.eqb joint_type "dip" then
      Some ("dip_flexion", "dip_side_flex", "dip_twist")
    else None.

(** The limit name of degree of freedom [d] among a joint's three. *)
Definition dof_key (keys : string * string * string) (d : nat) : option string :=
  let '(k0, k1, k2) := keys in [k0; k1; k2] !! d.

(** The closed interval [lim] holds [v]. *)
Definition within (lim : float * float) (v : float) : bool :=
  (lim.1 <=? v)%float && (v <=? lim.2)%float.

(** The limit names of the 45 parameters in index order, read off the joint
    layout, and their intervals. *)
Definition param_keys : list string :=
  concat (map (fun finger : string * list (string * (nat * nat)) =>
    concat (map (fun joint : string * (nat * nat) =>
      match limit_keys finger.1 joint.1 with
      | Some (k0, k1, k2) => [k0; k1; k2]
      | None => []
      end) finger.2)) finger_joint_mapping).

Definition param_limits : list (float * float) :=
  omap (fun key => hand_joint_limits !! key) param_keys.

(** Entry-wise clipping of a frame against [param_limits]. *)
Definition clip_all (frame : row) : row :=
  zip_with (fun x lim => np_clip x lim.1 lim.2) frame param_limits.

(** *** The engine on values

    [joint_params = constrained_pose[start_idx:end_idx]] is a view: entry [d]
    of it is entry [start_idx + d] of [constrained_pose], present when
    [start_idx + d < min end_idx len]. *)
Definition view_index (len start stop d : nat) : result nat :=
  if (start + d <? Nat.min stop len)%nat then Ok (start + d)%nat else Raise IndexError.

(** [joint_params[d] = np.clip(joint_params[d], *self.hand_joint_limits[key])]. *)
Definition clip_param (start stop d : nat) (key : string) (pose : row) : result row :=
  j ← view_index (length pose) start stop d;
  x ← (match pose !! j with Some x => Ok x | None => Raise IndexError end);
  lim ← limit_of key;
  Ok (<[j := np_clip x lim.1 lim.2]> pose).

(** The body of the inner loop for one joint; the closing
    [constrained_pose[start_idx:end_idx] = joint_params] copies the view onto
    itself. *)
Definition constrain_joint (finger_name : string) (pose : row)
    (joint : string * (nat * nat)) : result row :=
  let '(joint_type, (start_idx, end_idx)) := joint in
  match limit_keys finger_name joint_type with
  | Some (k0, k1, k2) =>
      pose ← clip_param start_idx end_idx 0 k0 pose;
      pose ← clip_param start_idx end_idx 1 k1 pose;
      clip_param start_idx end_idx 2 k2 pose
  | None => Ok pose
  end.

Definition constrain_finger (pose : row)
    (finger : string * list (string * (nat * nat))) : result row :=
  for_fold (constrain_joint finger.1) pose finger.2.

Definition _apply_anatomical_constraints_to_frame (hand_pose_frame_np : row) : result row :=
  let constrained_pose := hand_pose_frame_np in
  for_fold constrain_finger constrained_pose finger_joint_mapping.

(** A frame every value of which is out of range, and a frame of NaNs. *)
Definition wide_frame : row := replicate 45 5%float.
Definition nan_frame : row := replicate 45 nan.

End Constraints.

(** *** The engine on a store of arrays

    The same function with NumPy's sharing made explicit: an array is a
    contiguous window on a buffer of the store, [np.copy] allocates a buffer,
    a basic slice is a window on the same buffer, and item assignment writes
    through to it. *)

Module Store.
Import Constraints.

Abbreviation heap := (gmap nat (list float)).

Record arr := Arr { buf : nat; off : nat; len : nat }.

(** A computation on the store; the store outlives an exception. *)
Definition St (A : Type) : Type := heap -> result A * heap.

#[global] Instance st_ret : MRet St := fun A a h => (Ok a, h).

#[global] Instance st_bind : MBind St := fun A B k m h =>
  match m h with
  | (Ok a, h') => k a h'
  | (Raise e, h') => (Raise e, h')
  end.

Definition st_lift {A} (r : result A) : St A := fun h => (r, h).

(** The entries an array shows. *)
Definition contents (h : heap) (a : arr) : list float :=
  take (len a) (drop (off a) (default [] (h !! buf a))).

(** [np.copy(a)]: a new buffer holding the entries [a] shows. *)
Definition np_copy (a : arr) : St arr := fun h =>
  let p := fresh (dom h) in
  (Ok (Arr p 0 (length (contents h a))), <[p := contents h a]> h).

(** [a[start:stop]] for non-negative bounds. *)
Definition view (a : arr) (start stop : nat) : arr :=
  Arr (buf a) (off a + start) (Nat.min stop (len a) - start).

(** [a[d]]. *)
Definition get (a : arr) (d : nat) : St float := fun h =>
  match contents h a !! d with
  | Some x => (Ok x, h)
  | None => (Raise IndexError, h)
  end.

(** [a[d] = v]. *)
Definition set (a : arr) (d : nat) (v : float) : St unit := fun h =>
  if (d <? len a)%nat
  then (Ok tt, alter (fun b => <[(off a + d)%nat := v]> b) (buf a) h)
  else (Raise IndexError, h).

(** Entry-wise copy of [c] into the window [dst]. *)
Fixpoint write_all (dst : arr) (d : nat) (c : list float) (h : heap) : heap :=
  match c with
  | [] => h
  | v :: c' =>
      write_all dst (S d) c' (alter (fun b => <[(off dst + d)%nat := v]> b) (buf dst) h)
  end.

(** [dst[:] = src] for one-dimensional arrays: entry by entry when the
    lengths agree, a single source entry broadcast to every entry of [dst]. *)
Definition assign (dst src : arr) : St unit := fun h =>
  if (len src =? len dst)%nat
  then (Ok tt, write_all dst 0 (contents h src) h)
  else match contents h src with
       | [x] => (Ok tt, write_all dst 0 (replicate (len dst) x) h)
       | _ => (Raise (ValueError "could not broadcast input array"), h)
       end.

Definition clip_param (joint_params : arr) (d : nat) (key : string) : St unit :=
  x ← get joint_params d;
  lim ← st_lift (limit_of key);
  set joint_params d (np_clip x lim.1 lim.2).

Definition constrain_joint (finger_name : string) (constrained_pose : arr)
    (joint : string * (nat * nat)) : St unit :=
  let '(joint_type, (start_idx, end_idx)) := joint in
  let joint_params := view constrained_pose start_idx end_idx in
  _ ← match limit_keys finger_name joint_type with
      | Some (k0, k1, k2) =>
          _ ← clip_param joint_params 0 k0;
          _ ← clip_param joint_params 1 k1;
          clip_param joint_params 2 k2
      | None => mret tt
      end;
  assign (view constrained_pose start_idx end_idx) joint_params.

Fixpoint st_for {A} (f : A -> St unit) (l : list A) : St unit :=
  match l with
  | [] => mret tt
  | a :: l' => _ ← f a; st_for f l'
  end.

Definition _apply_anatomical_constraints_to_frame (hand_pose_frame_np : arr) : St arr :=
  constrained_pose ← np_copy hand_pose_frame_np;
  _ ← st_for (fun finger => st_for (constrain_joint finger.1 constrained_pose) finger.2)
        finger_joint_mapping;
  mret constrained_pose.

(** [m], run on the store [h] extended with a buffer [p] that holds [pose],
    does to that buffer what [f] does to [pose], raises when [f] raises, and
    touches nothing else. *)
Definition simulates (h : heap) (p : nat) (n : nat) (m : St unit)
    (f : row -> result row) : Prop :=
  forall pose, length pose = n ->
    match f pose with
    | Ok q => m (<[p := pose]> h) = (Ok tt, <[p := q]> h) /\ length q = n
    | Raise e => exists q, m (<[p := pose]> h) = (Raise e, <[p := q]> h) /\ length q = n
    end.

(** The array the call returns when the store is [h] and the input is [a]. *)
Definition fresh_array (h : heap) (a : arr) : arr :=
  Arr (fresh (dom h)) 0 (length (contents h a)).

End Store.

(** ** word_to_smplx.py: [_process_hand_pose_data] *)

Module Smoother.
Import Constraints.

Section WithFilter.

(** [scipy.ndimage.gaussian_filter1d(column, sigma=sigma, mode='nearest')],
    a collaborator outside the repository. *)
Variable gaussian_filter1d : row -> float -> result row.

(** [a[:, i]]. *)
Definition get_col (a : ndarray) (i : nat) : row :=
  map (fun r => default 0%float (r !! i)) (rows a).

(** [a[:, i] = c]: one value per row, or a single value for every row. *)
Definition set_col (a : ndarray) (i : nat) (c : row) : result ndarray :=
  if Nat.eqb (length c) (nrows a)
  then Ok (NDArray (ncols a) (zip_with (fun r x => <[i := x]> r) (rows a) c))
  else match c with
       | [x] => Ok (NDArray (ncols a) (map (fun r => <[i := x]> r) (rows a)))
       | _ => Raise (ValueError "could not broadcast input array")
       end.

(** Step 1, the temporal smoother: every column filtered along the frame
    axis when there are at least two frames. *)
Definition smooth (hand_pose_np : ndarray) (sigma : float) : result ndarray :=
  let smoothed_hand_pose := hand_pose_np in
  if (1 <? nrows smoothed_hand_pose)%nat
  then for_fold
         (fun sm i => c ← gaussian_filter1d (get_col sm i) sigma; set_col sm i c)
         smoothed_hand_pose (seq 0 (ncols smoothed_hand_pose))
  else Ok smoothed_hand_pose.

(** Step 2: the anatomical constraints, frame by frame, written into an
    array of the same shape. *)
Definition constrain_frames (smoothed_hand_pose : ndarray) : result ndarray :=
  constrained ← for_each
    (fun r =>
       r' ← _apply_anatomical_constraints_to_frame r;
       if Nat.eqb (length r') (ncols smoothed_hand_pose) then Ok r'
       else match r' with
            | [x] => Ok (replicate (ncols smoothed_hand_pose) x)
            | _ => Raise (ValueError "could not broadcast input array")
            end)
    (rows smoothed_hand_pose);
  Ok (NDArray (ncols smoothed_hand_pose) constrained).

Definition _process_hand_pose_data (hand_pose_np : ndarray) (sigma : float) : result ndarray :=
  smoothed_hand_pose ← smooth hand_pose_np sigma;
  constrain_frames smoothed_hand_pose.

End WithFilter.

(** A three-tap correlation with edge-value extension, the shape of the
    filter at the default [sigma = 0.3] (radius 1); it stands for the
    collaborator where a concrete one is needed. *)
Definition correlate3_nearest (w0 w1 w2 : float) (c : row) : row :=
  let at_ (j : Z) :=
    default 0%float (c !! Z.to_nat (Z.min (Z.max j 0) (Z.of_nat (length c) - 1))) in
  map (fun i =>
         let prev := at_ (Z.of_nat i - 1) in
         let here := at_ (Z.of_nat i) in
         let next := at_ (Z.of_nat i + 1) in
         (w0 * prev + w1 * here + w2 * next)%float)
      (seq 0 (length c)).

Definition sample_filter (c : row) (sigma : float) : result row :=
  Ok (correlate3_nearest 0.25 0.5 0.25 c).

(** Two arrays of one shape. *)
Definition same_shape (a b : ndarray) : Prop :=
  wf_ndarray b /\ nrows b = nrows a /\ ncols b = ncols a.

(** Two frames of 45 values. *)
Definition two_frames : ndarray :=
  NDArray 45 [replicate 45 1%float; replicate 45 3%float].

End Smoother.

(** ** word_to_smplx.py: [render_animation] *)

Module Evaluator.
Import Constraints Smoother.

#[local] Set Warnings "-inexact-float".

(** A float32 tensor row. *)
Abbreviation tensor := (list spec_float).

Definition f32_prec : Z := 24.
Definition f32_emax : Z := 128.

(** [torch.tensor(x, dtype=torch.float32)] on one float64 entry: rounding to
    the nearest binary32 value. *)
Definition to_float32 (x : float) : spec_float :=
  match Prim2SF x with
  | S754_finite s m e => binary_round f32_prec f32_emax s m e
  | y => y
  end.

Definition isnan32 (x : spec_float) : bool :=
  match x with S754_nan => true | _ => false end.

Definition isfinite32 (x : spec_float) : bool :=
  match x with S754_nan | S754_infinity _ => false | _ => true end.

(** [torch.nan_to_num]: NaN to zero, an infinity to the largest finite value
    of its sign. *)
Definition nan_to_num (x : spec_float) : spec_float :=
  match x with
  | S754_nan => S754_zero false
  | S754_infinity false => SFmax_float f32_prec f32_emax
  | S754_infinity true => SFopp (SFmax_float f32_prec f32_emax)
  | _ => x
  end.

Definition zeros_like (t : tensor) : tensor := map (fun _ => S754_zero false) t.

(** The sanitisation the specification describes: a non-finite entry becomes
    zero, a finite one stays. *)
Definition zero_nonfinite (x : spec_float) : spec_float :=
  if isfinite32 x then x else S754_zero false.

Definition not_inf32 (x : spec_float) : bool :=
  match x with S754_infinity _ => false | _ => true end.

(** [torch.zeros((1, 10))]. *)
Definition zero_betas : tensor := replicate 10 (S754_zero false).

(** The value of the ['smplx'] entry of a loaded pose record. *)
Inductive smplx_entry :=
| SmplxMissing
| SmplxArray (frames : list row)
| SmplxOther.

Record model_args := ModelArgs {
  body_pose : tensor;
  right_hand_pose : tensor;
  left_hand_pose : tensor;
  global_orient : tensor;
  betas : tensor }.

Inductive event :=
| WarnNaN (i : nat)
| ModelCall (i : nat) (args : model_args)
| ModelFailed (i : nat) (e : exn)
| Rendered (i : nat)
| NoRenderer
| Saved (path : string) (n_frames : nat) (fps : nat).

Section WithCollaborators.

Variable gaussian_filter1d : row -> float -> result row.

(** The parametric body model's output, and a rendered colour image. *)
Variables Output Image : Type.

(** [self.smplx_model(...)]: may raise. *)
Variable smplx_model : model_args -> result Output.

(** [self.renderer and pyrender and trimesh], with the mesh construction and
    [self.renderer.render]: [None] when the capability is absent. *)
Variable renderer : option (Output -> result Image).

(** What [render_animation] hands back. *)
Inductive retval :=
| Frames (frames : list Image)
| RawOutput (output : Output).

(** [np.stack(smplx_data)]. *)
Definition np_stack (l : list row) : result ndarray :=
  match l with
  | [] => Raise (ValueError "need at least one array to stack")
  | r :: _ =>
      if forallb (fun r' => Nat.eqb (length r') (length r)) l
      then Ok (NDArray (length r) l)
      else Raise (ValueError "all input arrays must have the same shape")
  end.

(** [a[:, start:stop]]. *)
Definition slice_cols (start stop : nat) (a : ndarray) : ndarray :=
  NDArray (Nat.min stop (ncols a) - start)
          (map (py_slice (Some (Z.of_nat start)) (Some (Z.of_nat stop))) (rows a)).

Definition torch_tensor (a : ndarray) : list tensor := map (map to_float32) (rows a).

(** [go[0, 0] += np.pi]. *)
Definition rotate_x (go : tensor) : result tensor :=
  match go with
  | [] => Raise IndexError
  | x :: t => Ok (SFadd f32_prec f32_emax x (to_float32 np_pi) :: t)
  end.

(** The NaN check on both hands. *)
Definition sanitize_hands (i : nat) (lhp rhp : tensor) : list event * (tensor * tensor) :=
  if existsb isnan32 lhp || existsb isnan32 rhp
  then ([WarnNaN i], (map nan_to_num lhp, map nan_to_num rhp))
  else ([], (lhp, rhp)).

(** The model call of one frame with its [try]/[except]. *)
Definition evaluate_frame (i : nat) (go bp lhp rhp : tensor) : list event * result Output :=
  let args := ModelArgs bp rhp lhp go zero_betas in
  match smplx_model args with
  | Ok output => ([ModelCall i args], Ok output)
  | Raise e =>
      let neutral := ModelArgs bp (zeros_like rhp) (zeros_like lhp) go zero_betas in
      ([ModelCall i args; ModelFailed i e; ModelCall i neutral], smplx_model neutral)
  end.

Definition row_at (t : list tensor) (i : nat) : result tensor :=
  match t !! i with
  | Some r => Ok r
  | None => Raise IndexError
  end.

(** The body of the frame loop up to the model output. *)
Definition frame_output (global_orient body_pose left_hand_pose right_hand_pose : list tensor)
    (i : nat) : list event * result Output :=
  match (go ← row_at global_orient i; go ← rotate_x go;
         bp ← row_at body_pose i;
         lhp ← row_at left_hand_pose i;
         rhp ← row_at right_hand_pose i;
         Ok (go, bp, lhp, rhp)) with
  | Raise e => ([], Raise e)
  | Ok (go, bp, lhp, rhp) =>
      let '(warn, (lhp, rhp)) := sanitize_hands i lhp rhp in
      let '(evs, out) := evaluate_frame i go bp lhp rhp in
      (warn ++ evs, out)
  end.

(** The frame loop: [inl frames] when it runs to its end, [inr output] on the
    early [return output]. *)
Fixpoint frame_loop (global_orient body_pose left_hand_pose right_hand_pose : list tensor)
    (idx : list nat) (frames : list Image) : list event * result (list Image + Output) :=
  match idx with
  | [] => ([], Ok (inl frames))
  | i :: idx' =>
      let '(evs, out) := frame_output global_orient body_pose left_hand_pose right_hand_pose i in
      match out with
      | Raise e => (evs, Raise e)
      | Ok output =>
          match renderer with
          | Some render =>
              match render output with
              | Raise e => (evs, Raise e)
              | Ok color =>
                  let '(evs', r) :=
                    frame_loop global_orient body_pose left_hand_pose right_hand_pose
                               idx' (frames ++ [color]) in
                  (evs ++ Rendered i :: evs', r)
              end
          | None => (evs ++ [NoRenderer], Ok (inr output))
          end
      end
  end.

(** Everything before the frame loop: the checks on the record, the split of
    the 156 parameters and the processing of both hands. *)
Definition prepare (smplx_data : smplx_entry)
    : result (nat * list tensor * list tensor * list tensor * list tensor) :=
  match smplx_data with
  | SmplxMissing | SmplxOther =>
      Raise (ValueError "'smplx' key missing or has unexpected structure in pose_data.")
  | SmplxArray [] => Raise IndexError
  | SmplxArray frames =>
      smplx_params ← np_stack frames;
      let N := nrows smplx_params in
      let global_orient := torch_tensor (slice_cols 0 3 smplx_params) in
      let body_pose := torch_tensor (slice_cols 3 66 smplx_params) in
      let left_hand_raw_np := slice_cols 66 111 smplx_params in
      let right_hand_raw_np := slice_cols 111 156 smplx_params in
      left_hand_processed_np ← _process_hand_pose_data gaussian_filter1d left_hand_raw_np 0.3;
      right_hand_processed_np ← _process_hand_pose_data gaussian_filter1d right_hand_raw_np 0.3;
      Ok (N, global_orient, body_pose,
          torch_tensor left_hand_processed_np, torch_tensor right_hand_processed_np)
  end.

Definition render_animation (smplx_data : smplx_entry) (save_path : option string) (fps : nat)
    : list event * result retval :=
  match prepare smplx_data with
  | Raise e => ([], Raise e)
  | Ok (N, global_orient, body_pose, left_hand_pose, right_hand_pose) =>
      let '(evs, r) :=
        frame_loop global_orient body_pose left_hand_pose right_hand_pose (seq 0 N) [] in
      match r with
      | Raise e => (evs, Raise e)
      | Ok (inr output) => (evs, Ok (RawOutput output))
      | Ok (inl frames) =>
          match save_path with
          | Some path =>
              if String.eqb path EmptyString then (evs, Ok (Frames frames))
              else (evs ++ [Saved path (length frames) fps], Ok (Frames frames))
          | None => (evs, Ok (Frames frames))
          end
      end
  end.

End WithCollaborators.

Arguments Frames {Output Image} frames.
Arguments RawOutput {Output Image} output.

(** A binary64 value that is zero or has an exponent of at most -52. *)
Definition small64 (y : float) : bool :=
  match Prim2SF y with
  | S754_zero _ => true
  | S754_finite _ _ e => e <=? -52
  | _ => false
  end.

(** The bounds of the table are small and round to finite binary32 values. *)
Definition small_bounds (lim : float * float) : bool :=
  small64 lim.1 && small64 lim.2
  && isfinite32 (to_float32 lim.1) && isfinite32 (to_float32 lim.2).

(** A one-frame sequence whose last right-hand value is NaN; a two-frame
    sequence whose second frame has a NaN global orientation; a body model
    that raises on a NaN global orientation; a renderer. *)
Definition nan_hand_frames : list row := [replicate 155 0.1%float ++ [nan]].

Definition nan_orient_frames : list row :=
  [replicate 156 0.1%float; nan :: replicate 155 0.1%float].

Definition sample_model (a : model_args) : result nat :=
  if existsb isnan32 (global_orient a) then Raise (ModelError 7)
  else Ok (length (body_pose a)).

Definition sample_renderer : option (nat -> result nat) := Some (fun o => Ok o).

End Evaluator.

(** *** The engine at the frame's dtype

    [np.copy] keeps the frame's dtype, and every assignment into the copy
    stores a value of that dtype: the engine is the same code for every
    dtype, with the clip of one entry and its store as the only operation on
    values.  [clip x lo hi] stands for what
    [joint_params[d] = np.clip(joint_params[d], lo, hi)] stores. *)

Module ConstraintsAt.
Import Constraints.

Section Dtype.
Variable V : Type.
Variable clip : V -> float -> float -> V.

Definition clip_param (start stop d : nat) (key : string) (pose : list V)
    : result (list V) :=
  j ← view_index (length pose) start stop d;
  x ← (match pose !! j with Some x => Ok x | None => Raise IndexError end);
  lim ← limit_of key;
  Ok (<[j := clip x lim.1 lim.2]> pose).

Definition constrain_joint (finger_name : string) (pose : list V)
    (joint : string * (nat * nat)) : result (list V) :=
  let '(joint_type, (start_idx, end_idx)) := joint in
  match limit_keys finger_name joint_type with
  | Some (k0, k1, k2) =>
      pose ← clip_param start_idx end_idx 0 k0 pose;
      pose ← clip_param start_idx end_idx 1 k1 pose;
      clip_param start_idx end_idx 2 k2 pose
  | None => Ok pose
  end.

Definition constrain_finger (pose : list V)
    (finger : string * list (string * (nat * nat))) : result (list V) :=
  for_fold (constrain_joint finger.1) pose finger.2.

Definition _apply_anatomical_constraints_to_frame (hand_pose_frame_np : list V)
    : result (list V) :=
  let constrained_pose := hand_pose_frame_np in
  for_fold constrain_finger constrained_pose finger_joint_mapping.

(** Entry-wise clipping of a frame against [param_limits]. *)
Definition clip_all (frame : list V) : list V :=
  zip_with (fun x lim => clip x lim.1 lim.2) frame param_limits.

End Dtype.

End ConstraintsAt.

(** *** The engine on a float32 frame

    On a float32 frame the clip of one entry is computed on float32 values,
    the bounds of the table, Python floats, being taken in the array's type:
    rounded to float32.  (With NumPy's older promotion the comparison is
    made in float64 and the store rounds the result; a bound that is stored
    is the rounded bound there too.) *)

Module Constraints32.
Import Constraints Evaluator.

Definition np_max32 (a b : spec_float) : spec_float :=
  if isnan32 a then a else if SFltb b a then a else b.

Definition np_min32 (a b : spec_float) : spec_float :=
  if isnan32 a then a else if SFltb a b then a else b.

Definition np_clip32 (x : spec_float) (a_min a_max : float) : spec_float :=
  np_min32 (np_max32 x (to_float32 a_min)) (to_float32 a_max).

Definition _apply_anatomical_constraints_to_frame (hand_pose_frame_np : tensor)
    : result tensor :=
  ConstraintsAt._apply_anatomical_constraints_to_frame spec_float np_clip32
    hand_pose_frame_np.

(** Entry-wise clipping of a float32 frame against [param_limits]. *)
Definition clip_all32 (frame : tensor) : tensor :=
  ConstraintsAt.clip_all spec_float np_clip32 frame.

(** The closed interval [lim], its bounds rounded to float32, holds [v]. *)
Definition within32 (lim : float * float) (v : spec_float) : bool :=
  SFleb (to_float32 lim.1) v && SFleb v (to_float32 lim.2).

(** A binary32 value read as the binary64 value it is equal to. *)
Definition widen (x : spec_float) : float := SF2Prim x.

(** A float32 frame every value of which is out of range. *)
Definition wide_frame32 : tensor := replicate 45 (to_float32 5).

End Constraints32.

(** A sequence of three different frames, and a body model that returns its
    arguments. *)
Module Fallback.
Import Evaluator.

#[local] Set Warnings "-inexact-float".



End Fallback.

(** ** app.py: [transcript_to_words] *)

Module Transcript.

(** A Python [str] is modelled as the list of its characters, each an
    8-bit code. *)
Abbreviation pystr := (list ascii).

Definition code (c : ascii) : nat := nat_of_ascii c.

(** The characters [str.split()] separates on: tab, line feed, vertical tab,
    form feed, carriage return, the four separators 28-31 and space. *)
Definition is_space (c : ascii) : bool :=
  let n := code c in
  ((9 <=? n) && (n <=? 13) || (28 <=? n) && (n <=? 32))%nat.

(** [string.punctuation]. *)
Definition is_punctuation (c : ascii) : bool :=
  let n := code c in
  ((33 <=? n) && (n <=? 47) || (58 <=? n) && (n <=? 64)
   || (91 <=? n) && (n <=? 96) || (123 <=? n) && (n <=? 126))%nat.

Definition lower_char (c : ascii) : ascii :=
  let n := code c in
  if ((65 <=? n) && (n <=? 90))%nat then ascii_of_nat (n + 32) else c.

(** [s.lower()]. *)
Definition py_lower (s : pystr) : pystr := map lower_char s.

(** [s.split()]: the maximal runs of non-space characters; [cur] is the run
    being read, last character first. *)
Fixpoint split_from (cur : pystr) (s : pystr) : list pystr :=
  match s with
  | [] => match cur with [] => [] | _ => [reverse cur] end
  | c :: s' =>
      if is_space c
      then match cur with
           | [] => split_from [] s'
           | _ => reverse cur :: split_from [] s'
           end
      else split_from (c :: cur) s'
  end.

Definition py_split (s : pystr) : list pystr := split_from [] s.

Fixpoint lstrip (p : ascii -> bool) (s : pystr) : pystr :=
  match s with
  | [] => []
  | c :: s' => if p c then lstrip p s' else s
  end.

(** [s.strip(chars)]. *)
Definition py_strip (p : ascii -> bool) (s : pystr) : pystr :=
  reverse (lstrip p (reverse (lstrip p s))).

(** One entry of a transcript: a dict with a ['text'] field. *)
Record entry := Entry { text : pystr }.

Section WithDataset.

(** [word_to_pkl], the lower-cased gloss of every dataset file. *)
Variable word_to_pkl : gmap string string.

(** [dataset_words = set(word_to_pkl.keys())]. *)
Definition dataset_words : gset string := dom word_to_pkl.

Definition key_of (w : pystr) : string := string_of_list_ascii w.

(** The body of the inner loop on one token [w]. *)
Definition visit_word (words : list pystr) (w : pystr) : list pystr :=
  let w_clean := py_strip is_punctuation w in
  if bool_decide (key_of w_clean ∈ dataset_words) && negb (bool_decide (w_clean ∈ words))
  then words ++ [w_clean]
  else words.

Definition visit_entry (words : list pystr) (e : entry) : list pystr :=
  foldl visit_word words (py_split (py_lower (text e))).

Definition transcript_to_words (transcript : list entry) : list pystr :=
  foldl visit_entry [] transcript.

(** The tokens of a transcript, lower-cased, split and stripped, in reading
    order. *)
Definition cleaned_tokens (transcript : list entry) : list pystr :=
  concat (map (fun e => map (py_strip is_punctuation) (py_split (py_lower (text e))))
              transcript).

(** A list with every element kept at its first occurrence only. *)
Fixpoint first_occurrences (l : list pystr) : list pystr :=
  match l with
  | [] => []
  | w :: l' => w :: filter (fun v => v <> w) (first_occurrences l')
  end.

(** [word_to_pkl[word]] in [asl_from_youtube]. *)
Definition pkl_of (word : pystr) : result string :=
  match word_to_pkl !! key_of word with
  | Some f => Ok f
  | None => Raise (KeyError (key_of word))
  end.

End WithDataset.

Definition sample_dataset : gmap string string :=
  list_to_map [("hello", "00001.pkl"); ("world", "00002.pkl"); ("april", "00003.pkl")].

Definition sample_transcript : list entry :=
  [ Entry (list_ascii_of_string "  Hello, World!  (hello) aPRIL.. foo");
    Entry (list_ascii_of_string "world--- 'April' hello") ].

End Transcript.

(** ** Further definitions for the constraint engine *)

Module ConstraintsMore.
Import Constraints.

#[local] Set Warnings "-inexact-float".

(** A binary64 value that is an infinity. *)
Definition is_inf64 (v : float) : bool :=
  match Prim2SF v with
  | S754_infinity _ => true
  | _ => false
  end.

(** A frame of 45 values strictly inside their intervals. *)
Definition inner_frame : row := replicate 45 0.01%float.

End ConstraintsMore.

(** ** Further definitions for the smoother *)

Module SmootherMore.
Import Smoother.

(** The state of the column loop of [smooth] after the columns below [s]:
    [b] has the shape of the input [a], its columns below [s] hold the
    filtered columns of [a], and the other ones are still those of [a]. *)
Definition columns_done (gaussian_filter1d : row -> float -> result row)
    (sigma : float) (a : ndarray) (s : nat) (b : ndarray) : Prop :=
  same_shape a b /\
  (forall i, (i < s)%nat -> gaussian_filter1d (get_col a i) sigma = Ok (get_col b i)) /\
  (forall i, (s <= i)%nat -> get_col b i = get_col a i).

End SmootherMore.

(** ** Mirroring a pose

    [mirror_pose] of [word_to_smplx.py], on one float32 pose vector (the
    last axis of the tensor; the ellipsis of the source applies the same to
    every row of a batch). *)

Module Mirror.
Import Evaluator.

(** The scalar [-1] in binary32. *)
Definition minus_one32 : spec_float := S754_finite true 8388608 (-23).

(** [t[..., start::3] *= -1]. *)
Definition negate_from (start : nat) (t : tensor) : tensor :=
  imap (fun i x =>
          if (start <=? i)%nat && ((i - start) mod 3 =? 0)%nat
          then SFmul f32_prec f32_emax x minus_one32
          else x) t.

Definition mirror_pose (pose : tensor) : tensor :=
  let mirrored := pose in
  let mirrored := negate_from 1 mirrored in
  let mirrored := negate_from 2 mirrored in
  mirrored.

(** A value of the binary32 format. *)
Definition valid32 (x : spec_float) : bool := SpecFloat.valid_binary f32_prec f32_emax x.

(** A pose of two joints. *)
Definition sample_pose : tensor :=
  map to_float32 [0.5; 0.25; (-1.5); 0; 2; nan]%float.

End Mirror.

(** ** The video identifier

    [extract_video_id] of [app.py] and [get_youtube_transcript.py]:
    [re.search] with the pattern [(?:v=|\/)([0-9A-Za-z_-]{11}).*]. *)

Module VideoId.
Import Transcript.

(** The class [[0-9A-Za-z_-]]. *)
Definition is_id_char (c : ascii) : bool :=
  let n := code c in
  ((48 <=? n) && (n <=? 57) || (65 <=? n) && (n <=? 90)
   || (97 <=? n) && (n <=? 122) || (n =? 95) || (n =? 45))%nat.

(** The group [([0-9A-Za-z_-]{11})] at the head of [s]; the closing [.*]
    matches whatever follows. *)
Definition group_at (s : pystr) : option pystr :=
  let g := take 11 s in
  if (length g =? 11)%nat && forallb is_id_char g then Some g else None.

(** A match of the pattern that starts at the head of [s]: the alternative
    [v=] is tried first, then [/]. *)
Definition match_at (s : pystr) : option pystr :=
  match s with
  | "v"%char :: "="%char :: rest => group_at rest
  | "/"%char :: rest => group_at rest
  | _ => None
  end.

(** [re.search]: the match at the leftmost position that has one; its
    group 1. *)
Fixpoint re_search (s : pystr) : option pystr :=
  match match_at s with
  | Some g => Some g
  | None =>
      match s with
      | [] => None
      | _ :: s' => re_search s'
      end
  end.

Definition extract_video_id (url : pystr) : result pystr :=
  match re_search url with
  | Some g => Ok g
  | None =>
      if (length url =? 11)%nat then Ok url
      else Raise (ValueError "Invalid YouTube URL or video ID.")
  end.

Definition watch_prefix : pystr := list_ascii_of_string "https://www.youtube.com/watch?v=".
Definition short_prefix : pystr := list_ascii_of_string "https://youtu.be/".
Definition sample_id : pystr := list_ascii_of_string "dQw4w9WgXcQ".

End VideoId.

(** ** The word table

    [word_to_pkl = {v.lower(): k for k, v in gloss_map.items()}] of [app.py],
    [streamlit_app.py] and [word_to_smplx.py]; [gloss_map] is the list of
    the items of the loaded dict, in its order. *)

Module GlossMap.
Import Transcript.

Definition lower_key (gloss : string) : string :=
  key_of (py_lower (list_ascii_of_string gloss)).

Definition invert (gloss_map : list (string * string)) : gmap string string :=
  foldl (fun (m : gmap string string) (kv : string * string) =>
           <[lower_key kv.2 := kv.1]> m) ∅ gloss_map.

Definition sample_gloss_map : list (string * string) :=
  [("00001.pkl", "Hello"); ("00002.pkl", "world"); ("00003.pkl", "HELLO")].

End GlossMap.

(** * Verification *)

(** * Facts about the error monad and the NumPy helpers *)

Lemma for_each_ext {A B} (f : A -> result B) (g : A -> B) (l : list A) :
  (forall a, a ∈ l -> f a = Ok (g a)) -> for_each f l = Ok (map g l).
Proof.
  induction l as [|a l IH]; intros Hf; [done|].
  cbn. rewrite Hf by left. cbn.
  rewrite IH; [done|]. intros b Hb. apply Hf. by right.
Qed.

Lemma elem_of_py_range (n i : Z) : i ∈ py_range n <-> 0 <= i < n.
Proof.
  unfold py_range. rewrite list_elem_of_fmap. split.
  - intros (j & -> & Hj). apply elem_of_seq in Hj. lia.
  - intros Hi. exists (Z.to_nat i). split; [lia|]. apply elem_of_seq. lia.
Qed.

Lemma length_py_range (n : Z) : length (py_range n) = Z.to_nat n.
Proof. unfold py_range. by rewrite length_map, length_seq. Qed.

Lemma py_index_back {A} (l : list A) (k i : Z) (x : A) :
  0 <= i < k -> k <= Z.of_nat (length l) ->
  l !! (length l - Z.to_nat k + Z.to_nat i)%nat = Some x ->
  py_index l (- k + i) = Ok x.
Proof.
  intros Hi Hk Hx. unfold py_index.
  destruct (Z.ltb_spec (- k + i) 0) as [_|]; [|lia].
  destruct (Z.ltb_spec (- k + i + Z.of_nat (length l)) 0) as [|_]; [lia|].
  replace (Z.to_nat (- k + i + Z.of_nat (length l)))
    with (length l - Z.to_nat k + Z.to_nat i)%nat by lia.
  by rewrite Hx.
Qed.

Lemma py_index_front {A} (l : list A) (i : Z) (x : A) :
  0 <= i -> l !! Z.to_nat i = Some x -> py_index l i = Ok x.
Proof.
  intros Hi Hx. unfold py_index.
  rewrite !(proj2 (Z.ltb_ge i 0)) by lia. by rewrite Hx.
Qed.

Lemma py_slice_drop_last {A} (l : list A) (k : Z) :
  0 < k <= Z.of_nat (length l) ->
  py_slice None (Some (- k)) l = take (length l - Z.to_nat k) l.
Proof.
  intros Hk. unfold py_slice, py_bound. cbn.
  destruct (Z.ltb_spec (- k) 0) as [_|]; [|lia].
  rewrite drop_0. f_equal. lia.
Qed.

Lemma py_slice_drop_first {A} (l : list A) (k : Z) :
  0 < k <= Z.of_nat (length l) ->
  py_slice (Some k) None l = drop (Z.to_nat k) l.
Proof.
  intros Hk. unfold py_slice, py_bound.
  destruct (Z.ltb_spec k 0) as [|_]; [lia|].
  replace (Z.to_nat (Z.min (Z.max k 0) (Z.of_nat (length l)))) with (Z.to_nat k) by lia.
  rewrite Nat2Z.id. apply take_ge. rewrite length_drop. lia.
Qed.

Lemma np_add_same_length (r1 r2 : row) :
  length r1 = length r2 -> np_add r1 r2 = Ok (zip_with PrimFloat.add r1 r2).
Proof. intros H. unfold np_add. by rewrite H, Nat.eqb_refl. Qed.

Lemma np_vstack_same_cols (d : nat) (l : list ndarray) :
  Forall (fun a => ncols a = d) l ->
  np_vstack_from d l = Ok (concat (map rows l)).
Proof.
  induction 1 as [|a l Ha _ IH]; [done|].
  cbn. rewrite Ha, Nat.eqb_refl, IH. done.
Qed.

Lemma np_array_uniform (d : nat) (r : row) (l : list row) :
  Forall (fun r' => length r' = d) (r :: l) ->
  np_array (r :: l) = Ok (NDArray d (r :: l)).
Proof.
  intros H. unfold np_array.
  assert (length r = d) as Hr by (by inversion H).
  rewrite (proj2 (forallb_forall _ _)); [by rewrite Hr|].
  intros r' Hr'. apply Nat.eqb_eq. rewrite Hr.
  rewrite Forall_forall in H. apply H. by apply list_elem_of_In.
Qed.

Module BlendFacts.
Import Blend.

Lemma zip_scaled (s t : float) (ra rb : row) :
  zip_with PrimFloat.add (np_scale s ra) (np_scale t rb)
  = zip_with (fun a b => (s * a + t * b)%float) ra rb.
Proof.
  revert rb. induction ra as [|a ra IH]; intros [|b rb]; cbn; [done..|].
  by rewrite <- IH.
Qed.

Section Shapes.
Variables (seq_a seq_b : ndarray) (k : Z) (d : nat).
Hypothesis wf_a : wf_ndarray seq_a.
Hypothesis wf_b : wf_ndarray seq_b.
Hypothesis cols_a : ncols seq_a = d.
Hypothesis cols_b : ncols seq_b = d.

Lemma row_of_length_a (j : nat) :
  (j < nrows seq_a)%nat -> length (row_of seq_a j) = d.
Proof using wf_a cols_a.
  intros Hj. unfold row_of.
  destruct (lookup_lt_is_Some_2 (rows seq_a) j Hj) as [r Hr]. rewrite Hr. cbn.
  rewrite <- cols_a. by apply (Forall_lookup_1 _ _ _ _ wf_a Hr).
Qed.

Lemma row_of_length_b (j : nat) :
  (j < nrows seq_b)%nat -> length (row_of seq_b j) = d.
Proof using wf_b cols_b.
  intros Hj. unfold row_of.
  destruct (lookup_lt_is_Some_2 (rows seq_b) j Hj) as [r Hr]. rewrite Hr. cbn.
  rewrite <- cols_b. by apply (Forall_lookup_1 _ _ _ _ wf_b Hr).
Qed.

Hypothesis k_pos : 0 < k.
Hypothesis k_le_a : k <= Z.of_nat (nrows seq_a).
Hypothesis k_le_b : k <= Z.of_nat (nrows seq_b).

Lemma current_blend_ok (i : Z) :
  0 <= i < k ->
  current_blend seq_a seq_b k i
  = Ok (zip_with (lerp (alpha k i))
          (row_of seq_a (nrows seq_a - Z.to_nat k + Z.to_nat i))
          (row_of seq_b (Z.to_nat i))).
Proof using All.
  intros Hi. unfold current_blend, nrows in *.
  assert (nrows seq_a - Z.to_nat k + Z.to_nat i < nrows seq_a)%nat as Ha
    by (unfold nrows; lia).
  assert (Z.to_nat i < nrows seq_b)%nat as Hb by (unfold nrows; lia).
  pose proof (row_of_length_a _ Ha) as La. pose proof (row_of_length_b _ Hb) as Lb.
  unfold row_of, nrows in *.
  destruct (lookup_lt_is_Some_2 (rows seq_a) _ Ha) as [ra Hra].
  destruct (lookup_lt_is_Some_2 (rows seq_b) _ Hb) as [rb Hrb].
  rewrite Hra, Hrb in *. cbn in La, Lb |- *.
  rewrite (py_index_back _ k i ra) by (done || lia). cbn.
  rewrite (py_index_front _ i rb) by (done || lia). cbn.
  rewrite np_add_same_length by (unfold np_scale; rewrite !length_map; congruence).
  by rewrite zip_scaled.
Qed.

Lemma blend_window_rows : Forall (fun r => length r = d) (blend_window seq_a seq_b k).
Proof using All.
  unfold blend_window. apply Forall_forall. intros r Hr.
  apply list_elem_of_fmap in Hr as (i & -> & Hi). apply elem_of_py_range in Hi.
  rewrite length_zip_with, row_of_length_a, row_of_length_b by (unfold nrows in *; lia).
  lia.
Qed.

Lemma length_blend_window : length (blend_window seq_a seq_b k) = Z.to_nat k.
Proof. unfold blend_window. by rewrite length_map, length_py_range. Qed.

(** With a blend width the two sequences can afford, the result is what is
    left of A, the blend window, and what is left of B. *)
Lemma blend_pose_sequences_blended :
  blend_pose_sequences seq_a seq_b k
  = Ok (NDArray d (take (nrows seq_a - Z.to_nat k) (rows seq_a)
                   ++ blend_window seq_a seq_b k
                   ++ drop (Z.to_nat k) (rows seq_b))).
Proof using All.
  unfold blend_pose_sequences.
  rewrite (proj2 (Z.eqb_neq k 0)) by lia.
  rewrite (proj2 (Z.ltb_ge _ k)) by lia.
  rewrite (proj2 (Z.ltb_ge _ k)) by lia. cbn [orb].
  rewrite (for_each_ext _ (fun i => zip_with (lerp (alpha k i))
          (row_of seq_a (nrows seq_a - Z.to_nat k + Z.to_nat i))
          (row_of seq_b (Z.to_nat i))))
    by (intros i Hi; apply current_blend_ok; by apply elem_of_py_range).
  change (map _ (py_range k)) with (blend_window seq_a seq_b k). cbn [mbind result_bind].
  pose proof blend_window_rows as Hrows. pose proof length_blend_window as Hlen.
  destruct (blend_window seq_a seq_b k) as [|r l] eqn:Hw; [cbn in Hlen; lia|].
  rewrite (np_array_uniform d) by done. cbn [mbind result_bind].
  unfold np_vstack, slice_rows. cbn [ncols].
  rewrite py_slice_drop_last, py_slice_drop_first by (unfold nrows in *; lia).
  rewrite np_vstack_same_cols
    by (repeat first [apply Forall_cons_2 | apply Forall_nil_2]; cbn; congruence).
  cbn. by rewrite cols_a, app_nil_r.
Qed.

End Shapes.

(** Without a usable blend width the result is the plain concatenation. *)
Lemma blend_pose_sequences_plain (seq_a seq_b : ndarray) (k : Z) :
  ncols seq_a = ncols seq_b ->
  k <= 0 \/ Z.of_nat (nrows seq_a) < k \/ Z.of_nat (nrows seq_b) < k ->
  blend_pose_sequences seq_a seq_b k
  = Ok (NDArray (ncols seq_a) (rows seq_a ++ rows seq_b)).
Proof.
  intros Hd Hk.
  assert (np_vstack [seq_a; seq_b] = Ok (NDArray (ncols seq_a) (rows seq_a ++ rows seq_b))) as Hv.
  { unfold np_vstack. rewrite np_vstack_same_cols
      by (repeat first [apply Forall_cons_2 | apply Forall_nil_2]; cbn; congruence).
    cbn. by rewrite app_nil_r. }
  unfold blend_pose_sequences.
  destruct (_ || _ || _) eqn:Hc; [done|].
  apply orb_false_iff in Hc as [Hc Hb]. apply orb_false_iff in Hc as [H0 Ha].
  apply Z.eqb_neq in H0. apply Z.ltb_ge in Ha, Hb.
  assert (k < 0) as Hneg by lia.
  unfold py_range. replace (Z.to_nat k) with 0%nat by lia. cbn. exact Hv.
Qed.

End BlendFacts.

Module BlendClaims.
Import Blend BlendFacts.


Lemma wf_sample_a : wf_ndarray sample_a.
Proof. repeat first [apply Forall_cons_2 | apply Forall_nil_2]; reflexivity. Defined.

Lemma wf_sample_b : wf_ndarray sample_b.
Proof. repeat first [apply Forall_cons_2 | apply Forall_nil_2]; reflexivity. Defined.

(** C1, as stated, fails: blending three frames with two frames over a
    width of 2 leaves 3 frames, not 3 + 2. *)
Lemma blend_length_counterexample :
  wf_ndarray sample_a /\ wf_ndarray sample_b /\
  (1 <= nrows sample_a)%nat /\ (1 <= nrows sample_b)%nat /\
  0 < 2 <= Z.min (Z.of_nat (nrows sample_a)) (Z.of_nat (nrows sample_b)) /\
  exists r, blend_pose_sequences sample_a sample_b 2 = Ok r /\
            nrows r <> (nrows sample_a + nrows sample_b)%nat.
Proof.
  split; [apply wf_sample_a|]. split; [apply wf_sample_b|].
  cbn. repeat split; try lia.
  eexists. split; [vm_compute; reflexivity|]. cbn. lia.
Qed.

(** C1 (amended): for sequences of the same frame width and a blend width
    [0 <= k <= min(N1, N2)], the blend returns a sequence of [N1 + N2 - k]
    frames: [N1 + N2] when blending is disabled ([k = 0]), and [k] frames
    fewer otherwise, the window of [k] frames standing for [2k] of them. *)
Theorem blend_length (seq_a seq_b : ndarray) (k : Z) :
  wf_ndarray seq_a -> wf_ndarray seq_b -> ncols seq_a = ncols seq_b ->
  0 <= k <= Z.min (Z.of_nat (nrows seq_a)) (Z.of_nat (nrows seq_b)) ->
  exists r, blend_pose_sequences seq_a seq_b k = Ok r /\
            nrows r = (nrows seq_a + nrows seq_b - Z.to_nat k)%nat.
Proof.
  intros Ha Hb Hd Hk. destruct (Z.eq_dec k 0) as [->|Hk0].
  - rewrite blend_pose_sequences_plain by (done || lia).
    eexists. split; [done|]. unfold nrows. cbn. rewrite length_app. lia.
  - rewrite (blend_pose_sequences_blended seq_a seq_b k (ncols seq_a)) by (done || lia).
    eexists. split; [done|]. unfold nrows. cbn.
    rewrite !length_app, length_take, length_drop, length_blend_window.
    unfold nrows in *. lia.
Qed.

Lemma blend_length_witness :
  exists r, blend_pose_sequences sample_a sample_b 2 = Ok r /\
            nrows r = (nrows sample_a + nrows sample_b - Z.to_nat 2)%nat.
Proof.
  apply (blend_length sample_a sample_b 2 wf_sample_a wf_sample_b eq_refl).
  cbn. lia.
Defined.

(** C6: with [0 < k] and both sequences at least [k] frames long, the frame
    at blend index [i] of the result (row [N1 - k + i]) holds, for every
    parameter [j], [(1 - alpha) * A[N1-k+i][j] + alpha * B[i][j]] with
    [alpha = (i + 1) / (k + 1)]; with [k = 0] or a sequence shorter than [k]
    the result is the plain concatenation of A and B. *)
Theorem blend_interpolates (seq_a seq_b : ndarray) (k : Z) :
  wf_ndarray seq_a -> wf_ndarray seq_b -> ncols seq_a = ncols seq_b ->
  (0 < k -> k <= Z.of_nat (nrows seq_a) -> k <= Z.of_nat (nrows seq_b) ->
   exists r, blend_pose_sequences seq_a seq_b k = Ok r /\
     forall (i : Z) (j : nat), 0 <= i < k -> (j < ncols seq_a)%nat ->
       let al := (float_of_Z (i + 1) / float_of_Z (k + 1))%float in
       let n := (nrows seq_a - Z.to_nat k + Z.to_nat i)%nat in
       exists a b : float,
         row_of seq_a n !! j = Some a /\
         row_of seq_b (Z.to_nat i) !! j = Some b /\
         row_of r n !! j = Some ((1 - al) * a + al * b)%float)
  /\
  (k = 0 \/ Z.of_nat (nrows seq_a) < k \/ Z.of_nat (nrows seq_b) < k ->
   blend_pose_sequences seq_a seq_b k
   = Ok (NDArray (ncols seq_a) (rows seq_a ++ rows seq_b))).
Proof.
  intros Ha Hb Hd. split.
  - intros Hk Hka Hkb.
    rewrite (blend_pose_sequences_blended seq_a seq_b k (ncols seq_a)) by (done || lia).
    eexists. split; [done|]. intros i j Hi Hj al n.
    assert (n < nrows seq_a)%nat as Hn by (subst n; lia).
    assert (Z.to_nat i < nrows seq_b)%nat as Hib by lia.
    pose proof (row_of_length_a seq_a (ncols seq_a) Ha eq_refl n Hn) as La.
    pose proof (row_of_length_b seq_b (ncols seq_a) Hb (eq_sym Hd) _ Hib) as Lb.
    destruct (lookup_lt_is_Some_2 (row_of seq_a n) j) as [a Hja]; [lia|].
    destruct (lookup_lt_is_Some_2 (row_of seq_b (Z.to_nat i)) j) as [b Hjb]; [lia|].
    exists a, b. split; [done|]. split; [done|].
    unfold row_of at 1. cbn [rows].
    rewrite lookup_app_r by (rewrite length_take; unfold nrows in *; lia).
    rewrite length_take.
    replace (n - Nat.min (nrows seq_a - Z.to_nat k) (length (rows seq_a)))%nat
      with (Z.to_nat i) by (subst n; unfold nrows in *; lia).
    rewrite lookup_app_l by (rewrite length_blend_window; lia).
    unfold blend_window. rewrite list_lookup_fmap.
    assert (py_range k !! Z.to_nat i = Some i) as ->.
    { unfold py_range. rewrite list_lookup_fmap, lookup_seq_lt by lia. cbn. f_equal. lia. }
    cbn. fold n. rewrite lookup_zip_with, Hja. cbn. rewrite Hjb. cbn. done.
  - intros Hk. apply blend_pose_sequences_plain; [done|lia].
Qed.

Lemma blend_interpolates_witness :
  exists r, blend_pose_sequences sample_a sample_b 2 = Ok r /\
    exists a b : float,
      row_of sample_a 1 !! 0%nat = Some a /\
      row_of sample_b 0 !! 0%nat = Some b /\
      row_of r 1 !! 0%nat
      = Some ((1 - float_of_Z 1 / float_of_Z 3) * a + float_of_Z 1 / float_of_Z 3 * b)%float.
Proof.
  destruct (blend_interpolates sample_a sample_b 2 wf_sample_a wf_sample_b eq_refl)
    as [Hblend _].
  destruct Hblend as (r & Hr & Hrows); [lia|cbn; lia|cbn; lia|].
  exists r. split; [exact Hr|].
  apply (Hrows 0 0%nat); [lia|cbn; lia].
Defined.

(** The same blend, evaluated: the window of two frames stands between the
    first frame of A and nothing of B. *)
Example blend_sample_rows :
  exists r, blend_pose_sequences sample_a sample_b 2 = Ok r /\
            map (fun row => row !! 0%nat) (rows r)
            = [Some 0%float; Some (lerp (alpha 2 0) 2 10); Some (lerp (alpha 2 1) 4 12)].
Proof. eexists. split; vm_compute; reflexivity. Qed.

End BlendClaims.

(** * Facts about binary64 comparison *)

Module FloatFacts.

Lemma SFcompare_refl (s : spec_float) : s <> S754_nan -> SFcompare s s = Some Eq.
Proof.
  destruct s as [| | |sg m e]; cbn; try done.
  - by destruct s.
  - intros _. rewrite Z.compare_refl, Pos.compare_cont_refl. by destruct sg.
Qed.

Lemma is_nan_Prim2SF (x : float) : is_nan x = true <-> Prim2SF x = S754_nan.
Proof.
  unfold is_nan. rewrite FloatAxioms.eqb_spec. unfold SFeqb. split.
  - intros H. destruct (Prim2SF x) eqn:E; try done;
      rewrite SFcompare_refl in H by done; done.
  - by intros ->.
Qed.

Lemma not_nan_Prim2SF (x : float) : is_nan x = false <-> Prim2SF x <> S754_nan.
Proof.
  rewrite <- is_nan_Prim2SF. by destruct (is_nan x).
Qed.

Lemma ltb_leb (a b : float) : (a <? b)%float = true -> (a <=? b)%float = true.
Proof.
  rewrite FloatAxioms.ltb_spec, FloatAxioms.leb_spec. unfold SFltb, SFleb.
  by destruct (SFcompare _ _) as [[]|].
Qed.

Lemma ltb_irrefl (a : float) : (a <? a)%float = false.
Proof.
  rewrite FloatAxioms.ltb_spec. unfold SFltb.
  destruct (Prim2SF a) eqn:E; try done; by rewrite SFcompare_refl.
Qed.

Lemma leb_refl (a : float) : is_nan a = false -> (a <=? a)%float = true.
Proof.
  intros H%not_nan_Prim2SF. rewrite FloatAxioms.leb_spec. unfold SFleb.
  by rewrite SFcompare_refl.
Qed.

Lemma ltb_not_nan (a b : float) :
  (a <? b)%float = true -> is_nan a = false /\ is_nan b = false.
Proof.
  rewrite FloatAxioms.ltb_spec, !not_nan_Prim2SF. unfold SFltb.
  destruct (Prim2SF a), (Prim2SF b); cbn; done.
Qed.

End FloatFacts.

Module ConstraintFacts.
Import Constraints FloatFacts.

(** ** One clipped value *)

Lemma np_clip_nan (x lo hi : float) : is_nan x = true -> np_clip x lo hi = x.
Proof. intros H. unfold np_clip, np_min, np_max. by rewrite H, H. Qed.

(** What [np_clip] returns on a number, for a proper interval. *)
Lemma np_clip_cases (x lo hi : float) :
  is_nan x = false -> (lo <? hi)%float = true ->
  (np_clip x lo hi = x /\ (lo <? x)%float = true /\ (x <? hi)%float = true)
  \/ np_clip x lo hi = lo \/ np_clip x lo hi = hi.
Proof.
  intros Hx Hlh. destruct (ltb_not_nan _ _ Hlh) as [Hlo Hhi].
  unfold np_clip, np_min, np_max. rewrite Hx.
  destruct (lo <? x)%float eqn:H1.
  - rewrite Hx. destruct (x <? hi)%float eqn:H2; auto.
  - rewrite Hlo, Hlh. auto.
Qed.

Lemma np_clip_within (x lo hi : float) :
  is_nan x = false -> (lo <? hi)%float = true ->
  within (lo, hi) (np_clip x lo hi) = true.
Proof.
  intros Hx Hlh. destruct (ltb_not_nan _ _ Hlh) as [Hlo Hhi].
  unfold within. cbn [fst snd]. apply andb_true_iff.
  destruct (np_clip_cases x lo hi Hx Hlh) as [(-> & H1 & H2)|[->| ->]];
    auto using ltb_leb, leb_refl.
Qed.

Lemma np_clip_idempotent (x lo hi : float) :
  (lo <? hi)%float = true ->
  np_clip (np_clip x lo hi) lo hi = np_clip x lo hi.
Proof.
  intros Hlh. destruct (ltb_not_nan _ _ Hlh) as [Hlo Hhi].
  destruct (is_nan x) eqn:Hx; [by rewrite !(np_clip_nan x lo hi Hx)|].
  destruct (np_clip_cases x lo hi Hx Hlh) as [(-> & H1 & H2)|[->| ->]].
  - unfold np_clip, np_min, np_max. by rewrite Hx, H1, Hx, H2.
  - unfold np_clip, np_min, np_max. by rewrite Hlo, ltb_irrefl, Hlo, Hlh.
  - unfold np_clip, np_min, np_max. by rewrite Hhi, Hlh, Hhi, ltb_irrefl.
Qed.

(** ** The table and the layout *)

Lemma length_param_limits : length param_limits = 45%nat.
Proof. vm_compute. reflexivity. Qed.

(** Every interval of the table is proper: its lower bound is below its
    upper bound. *)
Lemma param_limits_proper :
  Forall (fun lim : float * float => (lim.1 <? lim.2)%float = true) param_limits.
Proof.
  apply Forall_forall. intros lim Hlim. apply list_elem_of_In in Hlim.
  revert lim Hlim. apply (proj1 (forallb_forall (fun lim => (lim.1 <? lim.2)%float) param_limits)).
  vm_compute. reflexivity.
Qed.

(** ** The whole frame *)

(** On a frame of 45 values the engine never raises and clips every entry
    against the interval of its index. *)
Lemma apply_constraints_clip_all (f : row) :
  length f = 45%nat -> _apply_anatomical_constraints_to_frame f = Ok (clip_all f).
Proof.
  intros Hf.
  do 45 (destruct f as [|? f]; [discriminate Hf|]).
  destruct f; [|discriminate Hf].
  vm_compute. reflexivity.
Qed.

Lemma length_clip_all (f : row) : length f = 45%nat -> length (clip_all f) = 45%nat.
Proof.
  intros Hf. unfold clip_all. rewrite length_zip_with, Hf, length_param_limits. done.
Qed.

Lemma clip_all_lookup (f : row) (j : nat) (x : float) (lim : float * float) :
  f !! j = Some x -> param_limits !! j = Some lim ->
  clip_all f !! j = Some (np_clip x lim.1 lim.2).
Proof.
  intros Hx Hl. unfold clip_all. rewrite lookup_zip_with, Hx.
  cbn [mbind option_bind]. rewrite Hl. reflexivity.
Qed.

Lemma zip_clip_idempotent (L : list (float * float)) (f : row) :
  Forall (fun lim : float * float => (lim.1 <? lim.2)%float = true) L ->
  zip_with (fun x lim => np_clip x lim.1 lim.2)
           (zip_with (fun x lim => np_clip x lim.1 lim.2) f L) L
  = zip_with (fun x lim => np_clip x lim.1 lim.2) f L.
Proof.
  intros HL. revert f.
  induction HL as [|lim L Hlim _ IH]; intros [|x f]; cbn [zip_with];
    [reflexivity..|].
  rewrite np_clip_idempotent by exact Hlim. rewrite IH. reflexivity.
Qed.

Lemma clip_all_idempotent (f : row) : clip_all (clip_all f) = clip_all f.
Proof. unfold clip_all. exact (zip_clip_idempotent param_limits f param_limits_proper). Qed.

(** The interval at parameter [start + d] is the one the table declares for
    the joint's limit name of degree of freedom [d]. *)
Lemma param_limits_layout finger joints joint_type start_idx end_idx keys d key :
  (finger, joints) ∈ finger_joint_mapping ->
  (joint_type, (start_idx, end_idx)) ∈ joints ->
  limit_keys finger joint_type = Some keys ->
  dof_key keys d = Some key ->
  (start_idx + d < 45)%nat /\
  exists lim, hand_joint_limits !! key = Some lim /\
              param_limits !! (start_idx + d)%nat = Some lim.
Proof.
  intros Hf Hj Hk Hd. unfold finger_joint_mapping in Hf.
  repeat (apply elem_of_cons in Hf as [Hf|Hf]); try (by apply elem_of_nil in Hf);
    injection Hf as -> ->;
    repeat (apply elem_of_cons in Hj as [Hj|Hj]); try (by apply elem_of_nil in Hj);
    injection Hj as -> -> ->;
    vm_compute in Hk; injection Hk as <-;
    (destruct d as [|[|[|d]]]; [| | |discriminate Hd]);
    cbn in Hd; injection Hd as <-;
    (split; [cbn; lia|]); eexists; split; vm_compute; reflexivity.
Qed.

End ConstraintFacts.

(** * The engine on a float32 frame *)

Module Constraint32Facts.
Import Constraints Evaluator Constraints32 FloatFacts ConstraintFacts.

#[local] Set Warnings "-inexact-float".

Lemma SFltb_not_nan (a b : spec_float) :
  SFltb a b = true -> isnan32 a = false /\ isnan32 b = false.
Proof. unfold SFltb. by destruct a, b. Qed.

Lemma SFltb_SFleb (a b : spec_float) : SFltb a b = true -> SFleb a b = true.
Proof. unfold SFltb, SFleb. by destruct (SFcompare a b) as [[]|]. Qed.

Lemma SFleb_refl (a : spec_float) : isnan32 a = false -> SFleb a a = true.
Proof.
  intros Ha. unfold SFleb. rewrite SFcompare_refl; [done|]. by destruct a.
Qed.

Lemma np_clip32_nan (x : spec_float) (lo hi : float) :
  isnan32 x = true -> np_clip32 x lo hi = x.
Proof. intros H. unfold np_clip32, np_min32, np_max32. by rewrite H, H. Qed.

(** What [np_clip32] returns on a number, for a proper interval. *)
Lemma np_clip32_cases (x : spec_float) (lo hi : float) :
  isnan32 x = false -> SFltb (to_float32 lo) (to_float32 hi) = true ->
  (np_clip32 x lo hi = x /\ SFltb (to_float32 lo) x = true /\ SFltb x (to_float32 hi) = true)
  \/ np_clip32 x lo hi = to_float32 lo \/ np_clip32 x lo hi = to_float32 hi.
Proof.
  intros Hx Hlh. destruct (SFltb_not_nan _ _ Hlh) as [Hlo Hhi].
  unfold np_clip32, np_min32, np_max32. rewrite Hx.
  destruct (SFltb (to_float32 lo) x) eqn:H1.
  - rewrite Hx. destruct (SFltb x (to_float32 hi)) eqn:H2; auto.
  - rewrite Hlo, Hlh. auto.
Qed.

Lemma np_clip32_within (x : spec_float) (lo hi : float) :
  isnan32 x = false -> SFltb (to_float32 lo) (to_float32 hi) = true ->
  within32 (lo, hi) (np_clip32 x lo hi) = true.
Proof.
  intros Hx Hlh. destruct (SFltb_not_nan _ _ Hlh) as [Hlo Hhi].
  unfold within32. cbn [fst snd]. apply andb_true_iff.
  destruct (np_clip32_cases x lo hi Hx Hlh) as [(-> & H1 & H2)|[->| ->]];
    auto using SFltb_SFleb, SFleb_refl.
Qed.

(** Rounded to float32, every interval of the table is still proper. *)
Lemma param_limits_proper32 :
  Forall (fun lim : float * float => SFltb (to_float32 lim.1) (to_float32 lim.2) = true)
         param_limits.
Proof.
  apply Forall_forall. intros lim Hlim. apply list_elem_of_In in Hlim.
  revert lim Hlim.
  apply (proj1 (forallb_forall
                  (fun lim : float * float => SFltb (to_float32 lim.1) (to_float32 lim.2))
                  param_limits)).
  vm_compute. reflexivity.
Qed.

(** ** The engine at a dtype *)

Section Dtype.
Variable V : Type.
Variable clip : V -> float -> float -> V.

(** On a frame of 45 values the engine never raises and clips every entry
    against the interval of its index, whatever the dtype. *)
Lemma apply_constraints_at_clip_all (f : list V) :
  length f = 45%nat ->
  ConstraintsAt._apply_anatomical_constraints_to_frame V clip f
  = Ok (ConstraintsAt.clip_all V clip f).
Proof.
  intros Hf.
  do 45 (destruct f as [|? f]; [discriminate Hf|]).
  destruct f; [|discriminate Hf].
  vm_compute. reflexivity.
Qed.

End Dtype.

(** At float64 the engine at a dtype is the engine on values. *)
Lemma apply_constraints_at_float64 (f : row) :
  ConstraintsAt._apply_anatomical_constraints_to_frame float np_clip f
  = Constraints._apply_anatomical_constraints_to_frame f.
Proof. reflexivity. Qed.

Lemma apply_constraints32_clip_all (f : tensor) :
  length f = 45%nat ->
  Constraints32._apply_anatomical_constraints_to_frame f = Ok (clip_all32 f).
Proof. apply apply_constraints_at_clip_all. Qed.

Lemma length_clip_all32 (f : tensor) : length f = 45%nat -> length (clip_all32 f) = 45%nat.
Proof.
  intros Hf. unfold clip_all32, ConstraintsAt.clip_all.
  rewrite length_zip_with, Hf, length_param_limits. done.
Qed.

Lemma clip_all32_lookup (f : tensor) (j : nat) (x : spec_float) (lim : float * float) :
  f !! j = Some x -> param_limits !! j = Some lim ->
  clip_all32 f !! j = Some (np_clip32 x lim.1 lim.2).
Proof.
  intros Hx Hl. unfold clip_all32, ConstraintsAt.clip_all. rewrite lookup_zip_with, Hx.
  cbn [mbind option_bind]. rewrite Hl. reflexivity.
Qed.

End Constraint32Facts.

Module ConstraintClaims.
Import Evaluator Constraints32 Constraints FloatFacts ConstraintFacts Constraint32Facts.

#[local] Set Warnings "-inexact-float".

(** The joint layout partitions the 45 parameters: its sub-ranges, in order,
    are contiguous and cover every index once. *)
Lemma layout_partitions_frame :
  concat (map (fun finger : string * list (string * (nat * nat)) =>
    concat (map (fun joint : string * (nat * nat) =>
      seq joint.2.1 (joint.2.2 - joint.2.1)) finger.2)) finger_joint_mapping)
  = seq 0 45.
Proof. reflexivity. Qed.


(** C4, as stated, fails in two ways.  On a float64 frame that holds a NaN
    the engine returns the NaN, which lies in no interval.  On a float32
    frame a value above its interval is replaced by the upper bound rounded
    to float32, and for the flexion of a finger's MCP joint that is
    13170115 * 2^-23, above the bound 1.57 of the table. *)
Lemma constraints_limits_counterexample :
  (length nan_frame = 45%nat /\
   exists (g : row) (v : float) (lim : float * float),
     Constraints._apply_anatomical_constraints_to_frame nan_frame = Ok g /\
     ("thumb", [("cmc", (0, 3)); ("mcp", (3, 6)); ("ip", (6, 9))]%nat) ∈ finger_joint_mapping /\
     limit_keys "thumb" "cmc"
       = Some ("thumb_cmc_flexion", "thumb_cmc_abduction", "thumb_cmc_twist") /\
     hand_joint_limits !! "thumb_cmc_flexion" = Some lim /\
     g !! 0%nat = Some v /\
     within lim v = false)
  /\
  (length wide_frame32 = 45%nat /\
   exists (g : tensor) (v : spec_float) (lim : float * float),
     Constraints32._apply_anatomical_constraints_to_frame wide_frame32 = Ok g /\
     ("index", [("mcp", (9, 12)); ("pip", (12, 15)); ("dip", (15, 18))]%nat)
       ∈ finger_joint_mapping /\
     limit_keys "index" "mcp" = Some ("mcp_flexion", "mcp_abduction", "mcp_twist") /\
     hand_joint_limits !! "mcp_flexion" = Some lim /\
     g !! 9%nat = Some v /\
     v = S754_finite false 13170115 (-23) /\
     within lim (widen v) = false).
Proof.
  split.
  - split; [reflexivity|].
    exists nan_frame, nan, (-0.5, 0.9)%float.
    split; [vm_compute; reflexivity|].
    split; [apply list_elem_of_here|].
    repeat split; vm_compute; reflexivity.
  - split; [reflexivity|].
    exists (clip_all32 wide_frame32), (S754_finite false 13170115 (-23)), (0, 1.57)%float.
    split; [by apply apply_constraints32_clip_all|].
    split; [apply list_elem_of_further, list_elem_of_here|].
    repeat split; vm_compute; reflexivity.
Qed.

(** C4 (amended): on every float64 frame of 45 values the engine returns a
    frame of 45 values without raising, and for each of the 15 joints of the
    layout and each of its 3 degrees of freedom, the output value is within
    the closed interval the table declares for that joint type and degree of
    freedom whenever the input value is not NaN (an infinite input lands on
    a bound); a NaN input value is returned as it is.  On every float32
    frame of 45 values the same holds with both bounds of the interval
    rounded to float32: the engine returns 45 values without raising, an
    output whose input is not NaN lies between the rounded bounds, and a NaN
    is returned as it is. *)
Theorem constraints_within_limits (f : row) (f32 : tensor) :
  length f = 45%nat -> length f32 = 45%nat ->
  (exists g,
     Constraints._apply_anatomical_constraints_to_frame f = Ok g /\ length g = 45%nat /\
     forall finger joints joint_type start_idx end_idx keys d key,
       (finger, joints) ∈ finger_joint_mapping ->
       (joint_type, (start_idx, end_idx)) ∈ joints ->
       limit_keys finger joint_type = Some keys ->
       dof_key keys d = Some key ->
       exists (lim : float * float) (x v : float),
         hand_joint_limits !! key = Some lim /\
         f !! (start_idx + d)%nat = Some x /\
         g !! (start_idx + d)%nat = Some v /\
         (is_nan x = false -> within lim v = true) /\
         (is_nan x = true -> v = x))
  /\
  (exists g,
     Constraints32._apply_anatomical_constraints_to_frame f32 = Ok g /\
     length g = 45%nat /\
     forall finger joints joint_type start_idx end_idx keys d key,
       (finger, joints) ∈ finger_joint_mapping ->
       (joint_type, (start_idx, end_idx)) ∈ joints ->
       limit_keys finger joint_type = Some keys ->
       dof_key keys d = Some key ->
       exists (lim : float * float) (x v : spec_float),
         hand_joint_limits !! key = Some lim /\
         f32 !! (start_idx + d)%nat = Some x /\
         g !! (start_idx + d)%nat = Some v /\
         (isnan32 x = false -> within32 lim v = true) /\
         (isnan32 x = true -> v = x)).
Proof.
  intros Hf Hf32. split.
  - exists (clip_all f).
    split; [by apply apply_constraints_clip_all|].
    split; [by apply length_clip_all|].
    intros finger joints joint_type start_idx end_idx keys d key Hfin Hj Hk Hd.
    destruct (param_limits_layout _ _ _ _ _ _ _ _ Hfin Hj Hk Hd) as (Hlt & lim & Hlim & Hpl).
    destruct (lookup_lt_is_Some_2 f (start_idx + d)) as [x Hx]; [lia|].
    exists lim, x, (np_clip x lim.1 lim.2).
    split; [exact Hlim|]. split; [exact Hx|].
    split; [by apply clip_all_lookup|].
    pose proof param_limits_proper as Hprop.
    rewrite Forall_lookup in Hprop. specialize (Hprop _ _ Hpl).
    destruct lim as [lo hi]. cbn [fst snd] in *. split.
    + intros Hnan. by apply np_clip_within.
    + intros Hnan. by apply np_clip_nan.
  - exists (clip_all32 f32).
    split; [by apply apply_constraints32_clip_all|].
    split; [by apply length_clip_all32|].
    intros finger joints joint_type start_idx end_idx keys d key Hfin Hj Hk Hd.
    destruct (param_limits_layout _ _ _ _ _ _ _ _ Hfin Hj Hk Hd) as (Hlt & lim & Hlim & Hpl).
    destruct (lookup_lt_is_Some_2 f32 (start_idx + d)) as [x Hx]; [lia|].
    exists lim, x, (np_clip32 x lim.1 lim.2).
    split; [exact Hlim|]. split; [exact Hx|].
    split; [by apply clip_all32_lookup|].
    pose proof param_limits_proper32 as Hprop.
    rewrite Forall_lookup in Hprop. specialize (Hprop _ _ Hpl).
    destruct lim as [lo hi]. cbn [fst snd] in *. split.
    + intros Hnan. by apply np_clip32_within.
    + intros Hnan. by apply np_clip32_nan.
Qed.

Lemma constraints_within_limits_witness :
  (exists g,
     Constraints._apply_anatomical_constraints_to_frame wide_frame = Ok g /\
     length g = 45%nat /\
     forall finger joints joint_type start_idx end_idx keys d key,
       (finger, joints) ∈ finger_joint_mapping ->
       (joint_type, (start_idx, end_idx)) ∈ joints ->
       limit_keys finger joint_type = Some keys ->
       dof_key keys d = Some key ->
       exists (lim : float * float) (x v : float),
         hand_joint_limits !! key = Some lim /\
         wide_frame !! (start_idx + d)%nat = Some x /\
         g !! (start_idx + d)%nat = Some v /\
         (is_nan x = false -> within lim v = true) /\
         (is_nan x = true -> v = x))
  /\
  (exists g,
     Constraints32._apply_anatomical_constraints_to_frame wide_frame32 = Ok g /\
     length g = 45%nat /\
     forall finger joints joint_type start_idx end_idx keys d key,
       (finger, joints) ∈ finger_joint_mapping ->
       (joint_type, (start_idx, end_idx)) ∈ joints ->
       limit_keys finger joint_type = Some keys ->
       dof_key keys d = Some key ->
       exists (lim : float * float) (x v : spec_float),
         hand_joint_limits !! key = Some lim /\
         wide_frame32 !! (start_idx + d)%nat = Some x /\
         g !! (start_idx + d)%nat = Some v /\
         (isnan32 x = false -> within32 lim v = true) /\
         (isnan32 x = true -> v = x)).
Proof. exact (constraints_within_limits wide_frame wide_frame32 eq_refl eq_refl). Defined.

(** C5: on every frame of 45 values, applying the engine to its own output
    returns that output again. *)
Theorem constraints_idempotent (f : row) :
  length f = 45%nat ->
  exists g, _apply_anatomical_constraints_to_frame f = Ok g /\
            _apply_anatomical_constraints_to_frame g = Ok g.
Proof.
  intros Hf. exists (clip_all f). split; [by apply apply_constraints_clip_all|].
  rewrite apply_constraints_clip_all by (by apply length_clip_all).
  by rewrite clip_all_idempotent.
Qed.

Lemma constraints_idempotent_witness :
  exists g, _apply_anatomical_constraints_to_frame wide_frame = Ok g /\
            _apply_anatomical_constraints_to_frame g = Ok g.
Proof. exact (constraints_idempotent wide_frame eq_refl). Defined.

End ConstraintClaims.

(** * The engine on the store against the engine on values *)

Module StoreFacts.
Import Constraints.

Section Simulation.

(** The store before the call, and the buffer [np.copy] allocates. *)
Variables (h : Store.heap) (p : nat).

Local Abbreviation simulates := (Store.simulates h p).

Lemma contents_view (pose : row) (s e : nat) :
  Store.contents (<[p := pose]> h) (Store.view (Store.Arr p 0 (length pose)) s e)
  = take (Nat.min e (length pose) - s) (drop s pose).
Proof. unfold Store.contents, Store.view. cbn. by rewrite lookup_insert_eq. Qed.

Lemma simulates_ret (n : nat) : simulates n (mret tt) Ok.
Proof. intros pose Hn. done. Qed.

Lemma simulates_bind (n : nat) (m1 m2 : Store.St unit) (f1 f2 : row -> result row) :
  simulates n m1 f1 -> simulates n m2 f2 ->
  simulates n (_ ← m1; m2) (fun pose => q ← f1 pose; f2 q).
Proof.
  intros H1 H2 pose Hn. specialize (H1 pose Hn).
  unfold mbind, Store.st_bind, result_bind.
  destruct (f1 pose) as [q|e].
  - destruct H1 as [-> Hq]. apply (H2 q Hq).
  - destruct H1 as (q & -> & Hq). by exists q.
Qed.

Lemma simulates_ext (n : nat) (m : Store.St unit) (f g : row -> result row) :
  (forall pose, f pose = g pose) -> simulates n m f -> simulates n m g.
Proof. intros Hfg Hs pose Hn. rewrite <- Hfg. by apply Hs. Qed.

Lemma simulates_for {A} (n : nat) (body : A -> Store.St unit)
    (f : row -> A -> result row) (l : list A) :
  (forall a, simulates n (body a) (fun pose => f pose a)) ->
  simulates n (Store.st_for body l) (fun pose => for_fold f pose l).
Proof.
  intros Hbody. induction l as [|a l IH]; [apply simulates_ret|].
  cbn [Store.st_for for_fold]. by apply simulates_bind.
Qed.

Lemma simulates_clip_param (n : nat) (s e d : nat) (key : string) :
  simulates n (Store.clip_param (Store.view (Store.Arr p 0 n) s e) d key)
              (clip_param s e d key).
Proof.
  intros pose Hn. subst n.
  set (jp := Store.view (Store.Arr p 0 (length pose)) s e).
  unfold clip_param, view_index.
  destruct (Nat.ltb_spec (s + d) (Nat.min e (length pose))) as [Hlt|Hge].
  - destruct (lookup_lt_is_Some_2 pose (s + d)) as [x Hx]; [lia|].
    assert (Store.get jp d (<[p := pose]> h) = (Ok x, <[p := pose]> h)) as Hget.
    { unfold Store.get, jp. rewrite contents_view, lookup_take_lt, lookup_drop by lia.
      by rewrite Hx. }
    cbn [mbind result_bind]. rewrite Hx.
    unfold Store.clip_param, mbind, Store.st_bind. rewrite Hget.
    unfold Store.st_lift. destruct (limit_of key) as [lim|ex]; [|by exists pose].
    unfold Store.set, jp, Store.view. cbn [Store.len Store.off Store.buf result_bind].
    rewrite (proj2 (Nat.ltb_lt d _)) by lia.
    rewrite alter_insert_eq, length_insert. done.
  - assert (Store.get jp d (<[p := pose]> h) = (Raise IndexError, <[p := pose]> h)) as Hget.
    { unfold Store.get, jp. by rewrite contents_view, lookup_take_ge by lia. }
    cbn [mbind result_bind]. exists pose.
    unfold Store.clip_param, mbind, Store.st_bind. by rewrite Hget.
Qed.

Lemma write_all_same (dst : Store.arr) (c pose : row) (d : nat) :
  Store.buf dst = p ->
  (forall i x, c !! i = Some x -> pose !! (Store.off dst + d + i)%nat = Some x) ->
  Store.write_all dst d c (<[p := pose]> h) = <[p := pose]> h.
Proof.
  intros Hbuf. revert d. induction c as [|v c IH]; intros d Hc; [done|].
  cbn [Store.write_all]. rewrite Hbuf, alter_insert_eq.
  rewrite list_insert_id.
  - apply IH. intros i x Hi. specialize (Hc (S i) x Hi).
    by replace (Store.off dst + S d + i)%nat with (Store.off dst + d + S i)%nat by lia.
  - specialize (Hc 0%nat v eq_refl). by rewrite Nat.add_0_r in Hc.
Qed.

(** Copying a window onto itself changes nothing. *)
Lemma simulates_assign_self (n : nat) (s e : nat) :
  simulates n (Store.assign (Store.view (Store.Arr p 0 n) s e)
                            (Store.view (Store.Arr p 0 n) s e)) Ok.
Proof.
  intros pose Hn. subst n. split; [|done].
  unfold Store.assign. rewrite Nat.eqb_refl, contents_view. f_equal.
  apply write_all_same; [done|].
  intros i x Hi. cbn [Store.view Store.off].
  apply lookup_take_Some in Hi as [Hi _]. rewrite lookup_drop in Hi.
  by rewrite Nat.add_0_r.
Qed.

Lemma simulates_constrain_joint (n : nat) (finger_name : string)
    (joint : string * (nat * nat)) :
  simulates n (Store.constrain_joint finger_name (Store.Arr p 0 n) joint)
              (fun pose => constrain_joint finger_name pose joint).
Proof.
  destruct joint as [joint_type [s e]].
  unfold Store.constrain_joint, constrain_joint.
  destruct (limit_keys finger_name joint_type) as [[[k0 k1] k2]|].
  - apply (simulates_ext n _
      (fun pose => q ← (q ← clip_param s e 0 k0 pose;
                        q ← clip_param s e 1 k1 q;
                        clip_param s e 2 k2 q); Ok q)).
    + intros pose. unfold mbind, result_bind.
      destruct (clip_param s e 0 k0 pose) as [q0|]; [|done].
      destruct (clip_param s e 1 k1 q0) as [q1|]; [|done].
      by destruct (clip_param s e 2 k2 q1).
    + apply simulates_bind; [|apply simulates_assign_self].
      apply simulates_bind; [apply simulates_clip_param|].
      apply simulates_bind; apply simulates_clip_param.
  - apply (simulates_ext n _ (fun pose => q ← Ok pose; Ok q)); [done|].
    apply simulates_bind; [apply simulates_ret|apply simulates_assign_self].
Qed.

Lemma simulates_fingers (n : nat) :
  simulates n
    (Store.st_for (fun finger : string * list (string * (nat * nat)) =>
        Store.st_for (Store.constrain_joint finger.1 (Store.Arr p 0 n)) finger.2)
      finger_joint_mapping)
    _apply_anatomical_constraints_to_frame.
Proof.
  unfold _apply_anatomical_constraints_to_frame.
  apply (simulates_for n _ constrain_finger). intros [finger_name joints].
  unfold constrain_finger. cbn [fst snd].
  apply (simulates_for n _ (constrain_joint finger_name)).
  apply simulates_constrain_joint.
Qed.

End Simulation.


Lemma apply_constraints_run (h : Store.heap) (a : Store.arr) :
  match _apply_anatomical_constraints_to_frame (Store.contents h a) with
  | Ok q =>
      Store._apply_anatomical_constraints_to_frame a h
      = (Ok (Store.fresh_array h a), <[fresh (dom h) := q]> h)
      /\ length q = length (Store.contents h a)
  | Raise e =>
      exists q, Store._apply_anatomical_constraints_to_frame a h
                = (Raise e, <[fresh (dom h) := q]> h)
  end.
Proof.
  pose proof (simulates_fingers h (fresh (dom h))
                (length (Store.contents h a)) (Store.contents h a) eq_refl) as Hsim.
  destruct (_apply_anatomical_constraints_to_frame (Store.contents h a)) as [q|e].
  - destruct Hsim as [Hrun Hq]. split; [|exact Hq].
    unfold Store._apply_anatomical_constraints_to_frame, mbind, Store.st_bind, Store.np_copy.
    by rewrite Hrun.
  - destruct Hsim as (q & Hrun & _). exists q.
    unfold Store._apply_anatomical_constraints_to_frame, mbind, Store.st_bind, Store.np_copy.
    by rewrite Hrun.
Qed.

(** C9: run on any store and any input array, the engine leaves every
    buffer the store already held as it was, so the values the input frame
    shows are the same after the call as before it, also when it raises;
    what it returns is an array on a buffer the store did not hold before,
    and the values of that array are the engine's result on the input's
    values. *)
Theorem apply_constraints_pure (h : Store.heap) (a : Store.arr) :
  exists r h',
    Store._apply_anatomical_constraints_to_frame a h = (r, h') /\
    (forall b buffer, h !! b = Some buffer -> h' !! b = Some buffer) /\
    (is_Some (h !! Store.buf a) -> Store.contents h' a = Store.contents h a) /\
    match r with
    | Ok res =>
        h !! Store.buf res = None /\
        _apply_anatomical_constraints_to_frame (Store.contents h a)
        = Ok (Store.contents h' res)
    | Raise e =>
        _apply_anatomical_constraints_to_frame (Store.contents h a) = Raise e
    end.
Proof.
  assert (h !! fresh (dom h) = None) as Hp by apply not_elem_of_dom, is_fresh.
  assert (forall q b buffer, h !! b = Some buffer ->
            <[fresh (dom h) := q]> h !! b = Some buffer) as Hframe.
  { intros q b buffer Hb. rewrite lookup_insert_ne; [done|]. congruence. }
  assert (forall q, is_Some (h !! Store.buf a) ->
            Store.contents (<[fresh (dom h) := q]> h) a = Store.contents h a) as Hinput.
  { intros q [buffer Hb]. unfold Store.contents. by rewrite (Hframe q _ _ Hb), Hb. }
  pose proof (apply_constraints_run h a) as Hrun.
  destruct (_apply_anatomical_constraints_to_frame (Store.contents h a)) as [q|e].
  - destruct Hrun as [Hrun Hq].
    exists (Ok (Store.fresh_array h a)), (<[fresh (dom h) := q]> h).
    split; [exact Hrun|]. split; [apply Hframe|]. split; [apply Hinput|].
    split; [exact Hp|]. f_equal.
    unfold Store.contents, Store.fresh_array. cbn [Store.buf Store.off Store.len].
    rewrite lookup_insert_eq. cbn [default]. rewrite drop_0, <- Hq.
    symmetry. apply take_ge. lia.
  - destruct Hrun as (q & Hrun).
    exists (Raise e), (<[fresh (dom h) := q]> h).
    split; [exact Hrun|]. split; [apply Hframe|]. split; [apply Hinput|]. done.
Qed.

End StoreFacts.

(** * The temporal smoother *)

Lemma for_fold_preserves {A S} (P : S -> Prop) (f : S -> A -> result S) (l : list A) :
  (forall s a s', P s -> f s a = Ok s' -> P s') ->
  forall s s', P s -> for_fold f s l = Ok s' -> P s'.
Proof.
  intros Hf. induction l as [|a l IH]; intros s s' Hs; cbn.
  - by intros [= <-].
  - destruct (f s a) as [s1|e] eqn:E; [|done]. cbn. apply IH. by eapply Hf.
Qed.

Lemma for_fold_total {A S} (P : S -> Prop) (f : S -> A -> result S) (l : list A) :
  (forall s a, P s -> exists s', f s a = Ok s' /\ P s') ->
  forall s, P s -> exists s', for_fold f s l = Ok s' /\ P s'.
Proof.
  intros Hf. induction l as [|a l IH]; intros s Hs; cbn; [by exists s|].
  destruct (Hf s a Hs) as (s1 & -> & Hs1). cbn. by apply IH.
Qed.

Module SmootherFacts.
Import Constraints Smoother ConstraintFacts.


Lemma set_col_shape (a b a' : ndarray) (i : nat) (c : row) :
  same_shape a b -> set_col b i c = Ok a' -> same_shape a a'.
Proof.
  intros (Hwf & Hn & Hd). unfold set_col.
  destruct (Nat.eqb_spec (length c) (nrows b)) as [Hc|_].
  - intros [= <-]. unfold same_shape, nrows, wf_ndarray in *. cbn [rows ncols].
    split; [|split; [rewrite length_zip_with; lia|done]].
    apply Forall_forall. intros r Hr.
    apply elem_of_lookup_zip_with in Hr as (j & r0 & x & -> & Hr0 & _).
    rewrite length_insert. exact (Forall_lookup_1 _ _ _ _ Hwf Hr0).
  - destruct c as [|x [|]]; try done. intros [= <-].
    unfold same_shape, nrows, wf_ndarray in *. cbn [rows ncols].
    split; [|split; [by rewrite length_map|done]].
    apply Forall_forall. intros r Hr.
    apply list_elem_of_fmap in Hr as (r0 & -> & Hr0).
    rewrite length_insert. rewrite Forall_forall in Hwf. by apply Hwf.
Qed.

Section WithFilter.
Variable gaussian_filter1d : row -> float -> result row.

(** Whatever the filter returns, a smoothing that returns keeps the shape. *)
Lemma smooth_shape (a a' : ndarray) (sigma : float) :
  wf_ndarray a -> smooth gaussian_filter1d a sigma = Ok a' -> same_shape a a'.
Proof.
  intros Hwf. unfold smooth. destruct (1 <? nrows a)%nat.
  - apply (for_fold_preserves (same_shape a)); [|done].
    intros b i b' Hb. destruct (gaussian_filter1d _ _) as [c|]; [|done].
    cbn. by apply set_col_shape.
  - by intros [= <-].
Qed.

Lemma length_get_col (a : ndarray) (i : nat) : length (get_col a i) = nrows a.
Proof. unfold get_col. by rewrite length_map. Qed.

(** With a filter that returns as many samples as it is given, the smoothing
    returns. *)
Lemma smooth_total (a : ndarray) (sigma : float) :
  wf_ndarray a ->
  (forall c, exists c', gaussian_filter1d c sigma = Ok c' /\ length c' = length c) ->
  exists a', smooth gaussian_filter1d a sigma = Ok a' /\ same_shape a a'.
Proof.
  intros Hwf Hfilter. unfold smooth. destruct (1 <? nrows a)%nat; [|by exists a].
  apply (for_fold_total (same_shape a)); [|done].
  intros b i Hb. destruct (Hfilter (get_col b i)) as (c & -> & Hc). cbn.
  rewrite length_get_col in Hc. unfold set_col.
  rewrite (proj2 (Nat.eqb_eq _ _) Hc).
  eexists. split; [done|]. eapply set_col_shape; [exact Hb|].
  unfold set_col. by rewrite (proj2 (Nat.eqb_eq _ _) Hc).
Qed.

(** On frames of 45 values the constraint pass clips every frame. *)
Lemma constrain_frames_clip (sm : ndarray) :
  wf_ndarray sm -> ncols sm = 45%nat ->
  constrain_frames sm = Ok (NDArray 45 (map clip_all (rows sm))).
Proof.
  intros Hwf Hd. unfold constrain_frames.
  rewrite (for_each_ext _ clip_all).
  - cbn. by rewrite Hd.
  - intros r Hr. unfold wf_ndarray in Hwf.
    rewrite Forall_forall in Hwf. specialize (Hwf r Hr).
    rewrite apply_constraints_clip_all by congruence. cbn.
    by rewrite length_clip_all, Hd by congruence.
Qed.

(** What a processing that returns has computed: every frame is the clipping
    of a smoothed frame of 45 values. *)
Lemma process_hand_pose_clip (a b : ndarray) (sigma : float) :
  wf_ndarray a -> ncols a = 45%nat ->
  _process_hand_pose_data gaussian_filter1d a sigma = Ok b ->
  exists sm, same_shape a sm /\ b = NDArray 45 (map clip_all (rows sm)).
Proof.
  intros Hwf Hd. unfold _process_hand_pose_data.
  destruct (smooth gaussian_filter1d a sigma) as [sm|] eqn:Hsm; [|done].
  apply smooth_shape in Hsm as Hshape; [|done]. cbn.
  destruct Hshape as (Hwf' & Hn' & Hd').
  rewrite constrain_frames_clip by congruence. intros [= <-].
  by exists sm.
Qed.

End WithFilter.


Lemma wf_two_frames : wf_ndarray two_frames.
Proof. repeat first [apply Forall_cons_2 | apply Forall_nil_2]; reflexivity. Defined.

Lemma sample_filter_length (sigma : float) (c : row) :
  exists c', sample_filter c sigma = Ok c' /\ length c' = length c.
Proof.
  eexists. split; [reflexivity|].
  unfold correlate3_nearest. by rewrite length_map, length_seq.
Defined.

(** C8: on a sequence of fewer than two frames the smoothing step is the
    identity, whatever the filter; and for [sigma > 0] and at least two
    frames of 45 channels, with a filter that returns as many samples as it
    is given, the smoothing step returns a sequence with the same number of
    frames and the same 45 channels. *)
Theorem smoother_keeps_shape (gaussian_filter1d : row -> float -> result row)
    (a : ndarray) (sigma : float) :
  ((nrows a < 2)%nat -> smooth gaussian_filter1d a sigma = Ok a)
  /\
  (wf_ndarray a -> ncols a = 45%nat -> (2 <= nrows a)%nat ->
   (0 <? sigma)%float = true ->
   (forall s c, (0 <? s)%float = true ->
      exists c', gaussian_filter1d c s = Ok c' /\ length c' = length c) ->
   exists a', smooth gaussian_filter1d a sigma = Ok a' /\
              wf_ndarray a' /\ nrows a' = nrows a /\ ncols a' = 45%nat).
Proof.
  split.
  - intros Hn. unfold smooth. by rewrite (proj2 (Nat.ltb_ge 1 (nrows a))) by lia.
  - intros Hwf Hd Hn Hsigma Hfilter.
    destruct (smooth_total gaussian_filter1d a sigma Hwf) as (a' & Ha' & Hw & Hr & Hc).
    + intros c. by apply Hfilter.
    + exists a'. repeat split; try done. congruence.
Qed.

Lemma smoother_keeps_shape_witness :
  smooth sample_filter (NDArray 45 [replicate 45 1%float]) 0.5 =
    Ok (NDArray 45 [replicate 45 1%float])
  /\
  exists a', smooth sample_filter two_frames 0.5 = Ok a' /\
             wf_ndarray a' /\ nrows a' = nrows two_frames /\ ncols a' = 45%nat.
Proof.
  split.
  - apply (smoother_keeps_shape sample_filter (NDArray 45 [replicate 45 1%float]) 0.5).
    cbn. lia.
  - apply (smoother_keeps_shape sample_filter two_frames 0.5);
      [exact wf_two_frames | reflexivity | cbn; lia | reflexivity |].
    intros s c _. apply sample_filter_length.
Defined.

End SmootherFacts.

(** * Rounding to binary32 *)

Module Float32Facts.
Import Evaluator.

Lemma digits2_pos_log2 (m : positive) : Zpos (digits2_pos m) = Z.log2 (Zpos m) + 1.
Proof.
  assert (forall p, digits2_pos p = Pos.size p) as Hsize
    by (induction p; cbn; congruence).
  rewrite Hsize. destruct m; cbn; lia.
Qed.

Lemma Zdigits2_nonneg (m : Z) : 0 <= m -> 0 <= Zdigits2 m.
Proof. destruct m; cbn; lia. Qed.

Lemma Zdigits2_mono (a b : Z) : 0 <= a <= b -> Zdigits2 a <= Zdigits2 b.
Proof.
  intros [Ha Hab]. destruct a as [|a|a]; [|destruct b as [|b|b]; try lia|lia].
  - apply Zdigits2_nonneg. lia.
  - unfold Zdigits2. rewrite !digits2_pos_log2.
    apply Z.add_le_mono_r, Z.log2_le_mono, Hab.
Qed.

Lemma Zdigits2_succ (a : Z) : 0 <= a -> Zdigits2 (a + 1) <= Zdigits2 a + 1.
Proof.
  intros Ha. destruct a as [|a|a]; [vm_compute; discriminate| |lia].
  replace (Zpos a + 1) with (Zpos (a + 1)) by lia. unfold Zdigits2.
  rewrite !digits2_pos_log2.
  replace (Zpos (a + 1)) with (Z.succ (Zpos a)) by lia.
  apply Z.add_le_mono_r. exact (Z.log2_succ_le (Zpos a)).
Qed.

Lemma digits2_pos_shift (m k : positive) :
  Zpos (digits2_pos (Pos.iter xO m k)) = Zpos (digits2_pos m) + Zpos k.
Proof.
  induction k as [|k IH] using Pos.peano_ind.
  - cbn. lia.
  - rewrite Pos.iter_succ. cbn [digits2_pos]. lia.
Qed.

(** One right shift keeps a mantissa between 0 and what it was. *)
Lemma shr_1_bounds (mrs : shr_record) (M : Z) :
  0 <= shr_m mrs <= M -> 0 <= shr_m (shr_1 mrs) <= M.
Proof.
  destruct mrs as [m r s]. cbn [shr_m]. intros Hm.
  destruct m as [|[p|p|]|p]; cbn; lia.
Qed.

Lemma iter_pos_invariant {A} (P : A -> Prop) (f : A -> A) (n : positive) (x : A) :
  (forall y, P y -> P (f y)) -> P x -> P (SpecFloat.iter_pos f n x).
Proof.
  intros Hf. revert x. induction n as [n IH|n IH|]; intros x Hx; cbn; auto.
Qed.

Section Format.
Variables prec emax : Z.

(** The shift to the format's exponent keeps the mantissa between 0 and what
    it was, and yields the larger of the exponent given and the format's. *)
Lemma shr_fexp_bounds (m e : Z) (l : location) (mrs : shr_record) (e' : Z) :
  0 <= m -> shr_fexp prec emax m e l = (mrs, e') ->
  0 <= shr_m mrs <= m /\ e' = Z.max e (fexp prec emax (Zdigits2 m + e)).
Proof.
  intros Hm. unfold shr_fexp, shr.
  assert (shr_m (shr_record_of_loc m l) = m) as Hrec by (by destruct l as [|[]]).
  destruct (fexp prec emax (Zdigits2 m + e) - e) as [|n|n] eqn:Hn.
  - intros [= <- <-]. rewrite Hrec. lia.
  - intros [= <- <-]. split; [|lia].
    apply (iter_pos_invariant (fun y => 0 <= shr_m y <= m)).
    + intros y. apply shr_1_bounds.
    + rewrite Hrec. lia.
  - intros [= <- <-]. rewrite Hrec. lia.
Qed.

Lemma round_nearest_even_bounds (m : Z) (l : location) :
  m <= round_nearest_even m l <= m + 1.
Proof. destruct l as [|[]]; cbn; try lia. destruct (Z.even m); lia. Qed.

(** A rounding is finite as soon as the exponent it settles on is within the
    format. *)
Lemma binary_round_aux_finite (sx : bool) (mx ex : Z) (lx : location) :
  0 <= mx ->
  Z.max (Z.max ex (fexp prec emax (Zdigits2 mx + ex)))
        (fexp prec emax (Zdigits2 mx + 1 + Z.max ex (fexp prec emax (Zdigits2 mx + ex))))
    <= emax - prec ->
  isfinite32 (binary_round_aux prec emax sx mx ex lx) = true.
Proof.
  intros Hmx Hexp. unfold binary_round_aux.
  destruct (shr_fexp prec emax mx ex lx) as [mrs' e'] eqn:H1.
  apply shr_fexp_bounds in H1 as [Hm' He']; [|done].
  pose proof (round_nearest_even_bounds (shr_m mrs') (loc_of_shr_record mrs')) as Hr.
  set (m1 := round_nearest_even (shr_m mrs') (loc_of_shr_record mrs')) in *.
  destruct (shr_fexp prec emax m1 e' loc_Exact) as [mrs'' e''] eqn:H2.
  apply shr_fexp_bounds in H2 as [Hm'' He'']; [|lia].
  destruct (shr_m mrs'') as [|m|m] eqn:Hm; [done| |lia].
  assert (Zdigits2 m1 <= Zdigits2 mx + 1) as Hd.
  { etransitivity; [apply (Zdigits2_mono m1 (mx + 1)); lia|].
    by apply Zdigits2_succ. }
  assert (e'' <= emax - prec) as Hle.
  { unfold fexp in *. lia. }
  by rewrite (proj2 (Z.leb_le _ _) Hle).
Qed.

End Format.

(** A binary64 value with a mantissa of at most 53 digits and an exponent of
    at most -52 (a value below 2) rounds to a finite binary32 value. *)
Lemma binary_round32_finite (s : bool) (m : positive) (e : Z) :
  Zpos (digits2_pos m) <= 53 -> e <= -52 ->
  isfinite32 (binary_round f32_prec f32_emax s m e) = true.
Proof.
  intros Hd He. unfold binary_round, shl_align.
  set (f := fexp f32_prec f32_emax (Zpos (digits2_pos m) + e)).
  assert (f = Z.max (Zpos (digits2_pos m) + e - 24) (-149)) as Hf by reflexivity.
  destruct (f - e) as [|k|k] eqn:Hk.
  - apply binary_round_aux_finite; [lia|].
    cbn [Zdigits2]. fold f. unfold fexp, emin, f32_prec, f32_emax. lia.
  - apply binary_round_aux_finite; [lia|].
    cbn [Zdigits2]. fold f. unfold fexp, emin, f32_prec, f32_emax. lia.
  - apply binary_round_aux_finite; [lia|].
    cbn [Zdigits2]. rewrite digits2_pos_shift.
    unfold fexp, emin, f32_prec, f32_emax. lia.
Qed.

End Float32Facts.

(** * The evaluator *)

Module EvaluatorFacts.
Import Constraints Smoother Evaluator FloatFacts ConstraintFacts SmootherFacts Float32Facts.

(** ** Hand values at evaluation time *)


Lemma to_float32_nan (x : float) : is_nan x = true -> to_float32 x = S754_nan.
Proof. intros H%is_nan_Prim2SF. unfold to_float32. by rewrite H. Qed.

Lemma valid_digits (m : positive) (e : Z) :
  bounded prec emax m e = true -> Zpos (digits2_pos m) <= 53.
Proof.
  unfold bounded, canonical_mantissa, fexp, emin, prec, emax.
  intros [H _]%andb_true_iff. apply Z.eqb_eq in H. lia.
Qed.

(** A value strictly between two small values rounds to a finite binary32
    value. *)
Lemma to_float32_between (x lo hi : float) :
  small64 lo = true -> small64 hi = true ->
  (lo <? x)%float = true -> (x <? hi)%float = true ->
  isfinite32 (to_float32 x) = true.
Proof.
  unfold small64, to_float32. rewrite !FloatAxioms.ltb_spec. unfold SFltb.
  pose proof (Prim2SF_valid x) as Hvalid.
  destruct (Prim2SF x) as [s|s| |s m e]; try done.
  - intros _ _ Hlo Hhi. destruct s.
    + destruct (Prim2SF lo) as [| [] | |]; cbn in Hlo; done.
    + destruct (Prim2SF hi) as [| [] | |]; cbn in Hhi; done.
  - cbn in Hvalid. apply valid_digits in Hvalid.
    intros Hslo Hshi Hlo Hhi. apply binary_round32_finite; [done|].
    destruct s.
    + destruct (Prim2SF lo) as [| | |sl ml el]; cbn in Hlo; try done.
      apply Z.leb_le in Hslo. destruct sl; [|done].
      destruct (Z.compare_spec el e); try done; lia.
    + destruct (Prim2SF hi) as [| | |sh mh eh]; cbn in Hhi; try done.
      apply Z.leb_le in Hshi. destruct sh; [done|].
      destruct (Z.compare_spec e eh); try done; lia.
Qed.

(** The bounds of the table are small and round to finite binary32 values. *)
Lemma param_limits_small_bounds : forallb small_bounds param_limits = true.
Proof. vm_compute. reflexivity. Qed.

Lemma param_limits_small (lim : float * float) :
  lim ∈ param_limits ->
  small64 lim.1 = true /\ small64 lim.2 = true /\
  isfinite32 (to_float32 lim.1) = true /\ isfinite32 (to_float32 lim.2) = true.
Proof.
  intros Hlim%list_elem_of_In.
  pose proof (proj1 (forallb_forall small_bounds param_limits)
                param_limits_small_bounds lim Hlim) as H.
  unfold small_bounds in H.
  apply andb_prop in H as [H H4]. apply andb_prop in H as [H H3].
  apply andb_prop in H as [H1 H2]. exact (conj H1 (conj H2 (conj H3 H4))).
Qed.

(** A clipped value, as a binary32 value, is NaN or finite. *)
Lemma clipped_not_inf (x : float) (lim : float * float) :
  lim ∈ param_limits -> not_inf32 (to_float32 (np_clip x lim.1 lim.2)) = true.
Proof.
  intros Hlim.
  pose proof param_limits_proper as Hproper. rewrite Forall_forall in Hproper.
  destruct (param_limits_small _ Hlim) as (Hs1 & Hs2 & Hf1 & Hf2).
  specialize (Hproper _ Hlim). cbv beta in Hproper.
  destruct (is_nan x) eqn:Hx.
  - rewrite np_clip_nan by done. by rewrite to_float32_nan.
  - assert (isfinite32 (to_float32 (np_clip x lim.1 lim.2)) = true) as Hfin.
    { destruct (np_clip_cases x lim.1 lim.2 Hx Hproper) as [(-> & H1 & H2)|[->| ->]];
        [exact (to_float32_between x lim.1 lim.2 Hs1 Hs2 H1 H2)|exact Hf1|exact Hf2]. }
    revert Hfin. generalize (to_float32 (np_clip x lim.1 lim.2)). by intros [].
Qed.

Lemma clip_all_not_inf (f : row) : Forall (fun x => not_inf32 x = true) (map to_float32 (clip_all f)).
Proof.
  apply Forall_forall. intros y Hy.
  apply list_elem_of_fmap in Hy as (v & -> & Hv).
  unfold clip_all in Hv. apply elem_of_lookup_zip_with in Hv as (j & x & lim & -> & _ & Hlim).
  apply clipped_not_inf. by eapply list_elem_of_lookup_2.
Qed.

(** ** The NaN check *)

Lemma nan_to_num_zero_nonfinite (x : spec_float) :
  not_inf32 x = true -> nan_to_num x = zero_nonfinite x.
Proof. by destruct x as [| | |]. Qed.

Lemma zero_nonfinite_id (x : spec_float) :
  not_inf32 x = true -> isnan32 x = false -> zero_nonfinite x = x.
Proof. by destruct x. Qed.

Lemma zero_nonfinite_finite (x : spec_float) : isfinite32 (zero_nonfinite x) = true.
Proof. by destruct x. Qed.

Lemma map_nan_to_num (t : tensor) :
  Forall (fun x => not_inf32 x = true) t -> map nan_to_num t = map zero_nonfinite t.
Proof.
  induction 1 as [|x t Hx _ IH]; [done|]. cbn. by rewrite IH, nan_to_num_zero_nonfinite.
Qed.

Lemma map_zero_nonfinite_id (t : tensor) :
  Forall (fun x => not_inf32 x = true) t -> existsb isnan32 t = false ->
  map zero_nonfinite t = t.
Proof.
  induction 1 as [|x t Hx _ IH]; [done|]. cbn.
  intros [H1 H2]%orb_false_iff. by rewrite IH, zero_nonfinite_id.
Qed.

(** With no infinity among the hand values, the check replaces exactly the
    non-finite entries by zero. *)
Lemma sanitize_hands_zero_nonfinite (i : nat) (lhp rhp : tensor) :
  Forall (fun x => not_inf32 x = true) lhp ->
  Forall (fun x => not_inf32 x = true) rhp ->
  exists warn, sanitize_hands i lhp rhp
               = (warn, (map zero_nonfinite lhp, map zero_nonfinite rhp)).
Proof.
  intros Hl Hr. unfold sanitize_hands.
  destruct (existsb isnan32 lhp) eqn:El; [|destruct (existsb isnan32 rhp) eqn:Er]; cbn [orb].
  - exists [WarnNaN i]. by rewrite !map_nan_to_num.
  - exists [WarnNaN i]. by rewrite !map_nan_to_num.
  - exists []. by rewrite !map_zero_nonfinite_id.
Qed.

End EvaluatorFacts.

Module PrepareFacts.
Import Constraints Smoother Evaluator FloatFacts ConstraintFacts SmootherFacts EvaluatorFacts.

Lemma length_py_slice_nat {A} (a b : nat) (l : list A) :
  length (py_slice (Some (Z.of_nat a)) (Some (Z.of_nat b)) l)
  = (Nat.min b (length l) - a)%nat.
Proof.
  unfold py_slice, py_bound.
  rewrite !(proj2 (Z.ltb_ge _ 0)) by lia.
  rewrite length_take, length_drop. lia.
Qed.

Lemma slice_cols_wf (a b d : nat) (frames : list row) :
  Forall (fun r => length r = d) frames ->
  wf_ndarray (slice_cols a b (NDArray d frames)).
Proof.
  intros H. unfold wf_ndarray, slice_cols. cbn [rows ncols].
  apply Forall_forall. intros r Hr.
  apply list_elem_of_fmap in Hr as (r0 & -> & Hr0).
  rewrite Forall_forall in H. by rewrite length_py_slice_nat, (H r0 Hr0).
Qed.

Lemma np_stack_uniform (d : nat) (r : row) (l : list row) :
  Forall (fun r' => length r' = d) (r :: l) ->
  np_stack (r :: l) = Ok (NDArray d (r :: l)).
Proof.
  intros H. unfold np_stack.
  assert (length r = d) as Hr by (by inversion H).
  rewrite (proj2 (forallb_forall _ _)); [by rewrite Hr|].
  intros r' Hr'. apply Nat.eqb_eq. rewrite Hr.
  rewrite Forall_forall in H. apply H. by apply list_elem_of_In.
Qed.

Lemma np_stack_rows (l : list row) (a : ndarray) : np_stack l = Ok a -> rows a = l /\ l <> [].
Proof.
  unfold np_stack. destruct l as [|r l]; [done|].
  destruct (forallb _ _); [|done]. by intros [= <-].
Qed.

Section WithFilter.
Variable gaussian_filter1d : row -> float -> result row.


(** The tensors a processed hand yields: one row of 45 values per frame,
    none of them an infinity. *)
Lemma processed_hand_rows (raw b : ndarray) (sigma : float) :
  wf_ndarray raw -> ncols raw = 45%nat ->
  _process_hand_pose_data gaussian_filter1d raw sigma = Ok b ->
  length (torch_tensor b) = nrows raw /\
  Forall (fun t : tensor => length t = 45%nat /\ Forall (fun x => not_inf32 x = true) t)
         (torch_tensor b).
Proof.
  intros Hwf Hd Hb.
  destruct (process_hand_pose_clip _ _ _ _ Hwf Hd Hb) as (sm & (Hwf' & Hn & Hd') & ->).
  unfold torch_tensor. cbn [rows]. split; [by rewrite !length_map|].
  apply Forall_forall. intros t Ht.
  apply list_elem_of_fmap in Ht as (r' & -> & Hr').
  apply list_elem_of_fmap in Hr' as (r & -> & Hr).
  split; [|apply clip_all_not_inf].
  rewrite length_map. apply length_clip_all.
  unfold wf_ndarray in Hwf'. rewrite Forall_forall in Hwf'. rewrite (Hwf' r Hr). congruence.
Qed.

(** What a preparation of frames of 156 values returns. *)
Lemma prepare_shapes (frames : list row) N go bp lh rh :
  Forall (fun r => length r = 156%nat) frames ->
  prepare gaussian_filter1d (SmplxArray frames) = Ok (N, go, bp, lh, rh) ->
  length go = N /\ length bp = N /\ length lh = N /\ length rh = N /\
  Forall (fun t : tensor => length t = 3%nat) go /\
  Forall (fun t : tensor => length t = 45%nat /\ Forall (fun x => not_inf32 x = true) t) lh /\
  Forall (fun t : tensor => length t = 45%nat /\ Forall (fun x => not_inf32 x = true) t) rh.
Proof.
  intros Hframes. unfold prepare. destruct frames as [|r l]; cbv beta iota; [done|].
  rewrite (np_stack_uniform 156) by done. cbn [mbind result_bind].
  set (a := NDArray 156 (r :: l)).
  destruct (_process_hand_pose_data _ (slice_cols 66 111 a) _) as [lb|] eqn:Hl;
    cbn [mbind result_bind]; [|done].
  destruct (_process_hand_pose_data _ (slice_cols 111 156 a) _) as [rb|] eqn:Hr;
    cbn [mbind result_bind]; [|done].
  intros [= <- <- <- <- <-].
  apply processed_hand_rows in Hl as [Hl1 Hl2];
    [|by apply slice_cols_wf|reflexivity].
  apply processed_hand_rows in Hr as [Hr1 Hr2];
    [|by apply slice_cols_wf|reflexivity].
  unfold nrows, slice_cols in *. cbn [rows] in *.
  rewrite length_map in Hl1, Hr1.
  repeat split; try done; try (unfold torch_tensor; cbn [rows]; by rewrite !length_map).
  apply Forall_forall. intros t Ht. unfold torch_tensor in Ht. cbn [rows] in Ht.
  apply list_elem_of_fmap in Ht as (r1 & -> & Hr1').
  apply list_elem_of_fmap in Hr1' as (r0 & -> & Hr0).
  rewrite length_map, length_py_slice_nat.
  rewrite Forall_forall in Hframes. by rewrite (Hframes r0 Hr0).
Qed.

End WithFilter.

End PrepareFacts.

Module LoopFacts.
Import Constraints Smoother Evaluator EvaluatorFacts PrepareFacts.

Section WithCollaborators.
Variable gaussian_filter1d : row -> float -> result row.
Variables Output Image : Type.
Variable smplx_model : model_args -> result Output.
Variable renderer : option (Output -> result Image).

(** ** One frame *)



Lemma evaluate_frame_calls (i j : nat) (go bp lhp rhp : tensor) (args : model_args) :
  ModelCall j args ∈ (evaluate_frame Output smplx_model i go bp lhp rhp).1 -> j = i.
Proof.
  unfold evaluate_frame. destruct (smplx_model _); cbn [fst]; intros H;
    repeat (apply elem_of_cons in H as [H|H]);
    try congruence; by apply elem_of_nil in H.
Qed.

(** The model calls of frame [i] carry the index [i]. *)
Lemma frame_output_calls go bp lh rh (i j : nat) (args : model_args) :
  ModelCall j args ∈ (frame_output Output smplx_model go bp lh rh i).1 -> j = i.
Proof.
  unfold frame_output.
  destruct (_ ≫= _) as [[[[gov bpv] lhp] rhp]|e]; [|by intros ?%elem_of_nil].
  unfold sanitize_hands. destruct (_ || _).
  - destruct (evaluate_frame _ _ _ _ _ _ _) as [evs out] eqn:E. cbn [fst].
    intros [H|H]%elem_of_app; [apply list_elem_of_singleton in H; done|].
    eapply evaluate_frame_calls. by rewrite E.
  - destruct (evaluate_frame _ _ _ _ _ _ _) as [evs out] eqn:E. cbn [fst app].
    intros H. eapply evaluate_frame_calls. by rewrite E.
Qed.


(** ** The frame loop *)


(** A loop that runs to its end has one image more per frame. *)
Lemma frame_loop_length go bp lh rh (idx : list nat) (frames fs : list Image) evs :
  frame_loop Output Image smplx_model renderer go bp lh rh idx frames = (evs, Ok (inl fs)) ->
  length fs = (length frames + length idx)%nat.
Proof.
  revert frames evs. induction idx as [|i idx IH]; intros frames evs; cbn [frame_loop].
  - intros [= _ <-]. cbn. lia.
  - destruct (frame_output _ _ _ _ _ _ i) as [evs0 [output|e]]; [|done].
    destruct renderer as [render|]; [|done].
    destruct (render output) as [color|e]; [|done].
    destruct (frame_loop _ _ _ _ _ _ _ _ idx (frames ++ [color])) as [evs1 r] eqn:E.
    intros [= _ ->]. apply IH in E. rewrite E, length_app. cbn. lia.
Qed.


End WithCollaborators.

End LoopFacts.

Module EvaluatorClaims.
Import Constraints Smoother Evaluator EvaluatorFacts PrepareFacts LoopFacts.

#[local] Set Warnings "-inexact-float".




(** The run on that frame: a warning, one model call whose right hand ends
    with a zero where the NaN was, and the rendering. *)
Example nan_hand_run :
  exists args,
    (render_animation sample_filter nat nat sample_model sample_renderer
       (SmplxArray nan_hand_frames) None 15).1
    = [WarnNaN 0; ModelCall 0 args; Rendered 0] /\
    last (right_hand_pose args) = Some (S754_zero false).
Proof. eexists. split; vm_compute; reflexivity. Qed.





(** A run of two frames without a renderer: frame 0 alone is evaluated and
    its raw output returned. *)
Example fallback_run :
  exists args,
    render_animation sample_filter nat nat sample_model None
      (SmplxArray nan_orient_frames) (Some "out.mp4") 15
    = ([ModelCall 0 args; NoRenderer], Ok (RawOutput 63%nat)).
Proof. eexists. vm_compute. reflexivity. Qed.

End EvaluatorClaims.

(** * The transcript filter *)

Module TranscriptFacts.
Import Transcript.

#[local] Set Warnings "-clear-no-such-hyp".

Lemma filter_all {A} (P : A -> Prop) `{!forall x, Decision (P x)} (l : list A) :
  (forall x, P x) -> filter P l = l.
Proof.
  intros HP. induction l as [|x l IH]; [done|].
  by rewrite filter_cons_True, IH.
Qed.

Lemma elem_of_first_occurrences (l : list pystr) (w : pystr) :
  w ∈ first_occurrences l <-> w ∈ l.
Proof.
  induction l as [|v l IH]; [done|]. cbn [first_occurrences].
  rewrite !elem_of_cons, list_elem_of_filter, IH.
  destruct (decide (w = v)); naive_solver.
Qed.

Lemma NoDup_first_occurrences (l : list pystr) : NoDup (first_occurrences l).
Proof.
  induction l as [|v l IH]; [constructor|]. cbn [first_occurrences].
  apply NoDup_cons. split; [|by apply NoDup_filter].
  rewrite list_elem_of_filter. naive_solver.
Qed.

Section WithDataset.
Variable word_to_pkl : gmap string string.

Local Abbreviation in_dataset := (fun w : pystr => key_of w ∈ dataset_words word_to_pkl).

(** The inner loop from an accumulator: the accumulator, then the first
    occurrences of the dataset words not yet in it. *)
Lemma visit_words_from (acc : list pystr) (ws : list pystr) :
  foldl (visit_word word_to_pkl) acc ws
  = acc ++ filter (fun w => w ∉ acc)
             (first_occurrences
                (filter in_dataset (map (py_strip is_punctuation) ws))).
Proof.
  revert acc. induction ws as [|w ws IH]; intros acc.
  - cbn. by rewrite app_nil_r.
  - cbn [foldl map].
    set (c := py_strip is_punctuation w).
    set (rest := first_occurrences (filter in_dataset (map (py_strip is_punctuation) ws))).
    destruct (decide (in_dataset c)) as [Hin|Hout].
    + rewrite (filter_cons_True in_dataset) by done. cbn [first_occurrences]. fold rest.
      destruct (decide (c ∈ acc)) as [Hacc|Hacc].
      * assert (visit_word word_to_pkl acc w = acc) as ->.
        { unfold visit_word. fold c.
          by rewrite (bool_decide_eq_true_2 _ Hin), (bool_decide_eq_true_2 _ Hacc). }
        rewrite IH. fold rest.
        rewrite filter_cons_False by (intros Hnot; exact (Hnot Hacc)). f_equal.
        rewrite list_filter_filter. apply list_filter_iff. intros v. naive_solver.
      * assert (visit_word word_to_pkl acc w = acc ++ [c]) as ->.
        { unfold visit_word. fold c.
          by rewrite (bool_decide_eq_true_2 _ Hin), (bool_decide_eq_false_2 _ Hacc). }
        rewrite IH. fold rest.
        rewrite filter_cons_True by done. rewrite <- app_assoc. cbn [app]. do 2 f_equal.
        rewrite list_filter_filter. apply list_filter_iff. intros v.
        rewrite elem_of_app, list_elem_of_singleton. naive_solver.
    + rewrite (filter_cons_False in_dataset) by done. fold rest.
      assert (visit_word word_to_pkl acc w = acc) as ->.
      { unfold visit_word. fold c. by rewrite (bool_decide_eq_false_2 _ Hout). }
      by rewrite IH.
Qed.

Lemma visit_entries_from (acc : list pystr) (transcript : list entry) :
  foldl (visit_entry word_to_pkl) acc transcript
  = foldl (visit_word word_to_pkl) acc
          (concat (map (fun e => py_split (py_lower (text e))) transcript)).
Proof.
  revert acc. induction transcript as [|e t IH]; intros acc; [done|].
  cbn [foldl map concat]. by rewrite foldl_app, IH.
Qed.

Lemma map_concat_tokens (transcript : list entry) :
  map (py_strip is_punctuation)
      (concat (map (fun e => py_split (py_lower (text e))) transcript))
  = cleaned_tokens transcript.
Proof.
  unfold cleaned_tokens. induction transcript as [|e t IH]; [done|].
  cbn [map concat]. by rewrite map_app, IH.
Qed.

(** The loop computes the first occurrences of the dataset words among the
    cleaned tokens. *)
Lemma transcript_to_words_spec (transcript : list entry) :
  transcript_to_words word_to_pkl transcript
  = first_occurrences (filter in_dataset (cleaned_tokens transcript)).
Proof.
  unfold transcript_to_words.
  rewrite visit_entries_from, visit_words_from, map_concat_tokens. cbn [app].
  apply filter_all. intros w. by intros ?%elem_of_nil.
Qed.

End WithDataset.

(** C10: the words [transcript_to_words] returns are the tokens of the
    transcript, lower-cased and stripped of surrounding punctuation, that are
    dataset words, each at its first occurrence and once only; a token that
    is no dataset word is dropped, every dataset word among the tokens is
    kept, and the lookup [word_to_pkl[word]] of a returned word succeeds. *)
Theorem transcript_words_resolvable (word_to_pkl : gmap string string)
    (transcript : list entry) :
  let words := transcript_to_words word_to_pkl transcript in
  words = first_occurrences
            (filter (fun w => key_of w ∈ dataset_words word_to_pkl)
                    (cleaned_tokens transcript))
  /\ NoDup words
  /\ (forall w, w ∈ words <->
        w ∈ cleaned_tokens transcript /\ key_of w ∈ dataset_words word_to_pkl)
  /\ (forall w, w ∈ words -> exists f, pkl_of word_to_pkl w = Ok f).
Proof.
  cbv zeta. rewrite transcript_to_words_spec.
  split; [done|]. split; [apply NoDup_first_occurrences|].
  assert (forall w, w ∈ first_occurrences
                      (filter (fun w => key_of w ∈ dataset_words word_to_pkl)
                              (cleaned_tokens transcript)) <->
                    w ∈ cleaned_tokens transcript /\ key_of w ∈ dataset_words word_to_pkl)
    as Hmem.
  { intros w. rewrite elem_of_first_occurrences, list_elem_of_filter. naive_solver. }
  split; [exact Hmem|].
  intros w [_ Hw]%Hmem. unfold dataset_words in Hw.
  apply elem_of_dom in Hw as [f Hf]. exists f. unfold pkl_of. by rewrite Hf.
Qed.


Example sample_transcript_words :
  map key_of (transcript_to_words sample_dataset sample_transcript)
  = ["hello"; "world"; "april"].
Proof. vm_compute. reflexivity. Qed.

End TranscriptFacts.

(** * Further properties of the blend *)

Module BlendMoreFacts.
Import Blend BlendFacts.

Lemma np_add_error_kind (r1 r2 : row) :
  (exists r, np_add r1 r2 = Ok r) \/ (exists msg, np_add r1 r2 = Raise (ValueError msg)).
Proof.
  unfold np_add. destruct (Nat.eqb _ _); [by left; eexists|].
  destruct r1 as [|x [|]]; destruct r2 as [|y [|]];
    first [by left; eexists | by right; eexists].
Qed.

Lemma for_each_error_kind {A B} (f : A -> result B) (l : list A) :
  (forall a, a ∈ l ->
     (exists b, f a = Ok b) \/ (exists msg, f a = Raise (ValueError msg))) ->
  (exists bs, for_each f l = Ok bs) \/ (exists msg, for_each f l = Raise (ValueError msg)).
Proof.
  induction l as [|a l IH]; intros Hf; [by left; eexists|]. cbn [for_each].
  destruct (Hf a) as [[b ->]|[msg ->]]; [by left| |by right; eexists].
  cbn [mbind result_bind].
  destruct IH as [[bs ->]|[msg ->]]; [intros; apply Hf; by right|by left; eexists|].
  by right; eexists.
Qed.

Lemma np_vstack_pair_mismatch (a b : ndarray) :
  ncols a <> ncols b -> exists msg, np_vstack [a; b] = Raise (ValueError msg).
Proof.
  intros Hd. unfold np_vstack. cbn [np_vstack_from].
  rewrite Nat.eqb_refl. rewrite (proj2 (Nat.eqb_neq (ncols b) (ncols a))) by congruence.
  by eexists.
Qed.

(** X1: sequences of different frame widths are rejected: whatever the blend
    width, the call raises a [ValueError]. *)
Theorem blend_rejects_width_mismatch (seq_a seq_b : ndarray) (k : Z) :
  ncols seq_a <> ncols seq_b ->
  exists msg, blend_pose_sequences seq_a seq_b k = Raise (ValueError msg).
Proof.
  intros Hd. unfold blend_pose_sequences.
  destruct (_ || _ || _) eqn:Hc; [by apply np_vstack_pair_mismatch|].
  apply orb_false_iff in Hc as [Hc Hb]. apply orb_false_iff in Hc as [H0 Ha].
  apply Z.eqb_neq in H0. apply Z.ltb_ge in Ha, Hb. unfold nrows in *.
  destruct (for_each_error_kind (current_blend seq_a seq_b k) (py_range k))
    as [[bs ->]|[msg ->]]; [|cbn [mbind result_bind]|by eexists].
  - intros i Hi%elem_of_py_range. unfold current_blend.
    destruct (lookup_lt_is_Some_2 (rows seq_a)
                (length (rows seq_a) - Z.to_nat k + Z.to_nat i)) as [ra Hra]; [lia|].
    destruct (lookup_lt_is_Some_2 (rows seq_b) (Z.to_nat i)) as [rb Hrb]; [lia|].
    rewrite (py_index_back _ k i ra) by (done || lia).
    rewrite (py_index_front _ i rb) by (done || lia).
    cbn [mbind result_bind]. apply np_add_error_kind.
  - destruct bs as [|r bs]; [by apply np_vstack_pair_mismatch|].
    destruct (np_array (r :: bs)) as [w|e] eqn:Hw.
    + cbn [mbind result_bind]. unfold np_vstack, slice_rows. cbn [np_vstack_from ncols].
      rewrite Nat.eqb_refl. destruct (Nat.eqb (ncols w) (ncols seq_a)); [|by eexists].
      rewrite (proj2 (Nat.eqb_neq (ncols seq_b) (ncols seq_a))) by congruence.
      by eexists.
    + cbn [mbind result_bind]. unfold np_array in Hw.
      destruct (forallb _ _); [done|]. injection Hw as <-. by eexists.
Qed.

Lemma blend_rejects_width_mismatch_witness :
  exists msg,
    blend_pose_sequences sample_a (NDArray 1 [[1%float]; [2%float]]) 2
    = Raise (ValueError msg).
Proof. apply blend_rejects_width_mismatch. cbn. lia. Defined.

(** X2: with a usable blend width, the result has the frame width of its
    inputs, every frame of A before the window and every frame of B after
    the first [k] is returned as it is, in order: row [i] of the result is
    row [i] of A for [i < N1 - k], and row [N1 - k + i] of the result is row
    [i] of B for [k <= i < N2]. *)
Theorem blend_keeps_outer_frames (seq_a seq_b : ndarray) (k : Z) :
  wf_ndarray seq_a -> wf_ndarray seq_b -> ncols seq_a = ncols seq_b ->
  0 < k -> k <= Z.of_nat (nrows seq_a) -> k <= Z.of_nat (nrows seq_b) ->
  exists r, blend_pose_sequences seq_a seq_b k = Ok r /\
    wf_ndarray r /\ ncols r = ncols seq_a /\
    (forall i, (i < nrows seq_a - Z.to_nat k)%nat -> rows r !! i = rows seq_a !! i) /\
    (forall i, (Z.to_nat k <= i < nrows seq_b)%nat ->
       rows r !! (nrows seq_a - Z.to_nat k + i)%nat = rows seq_b !! i).
Proof.
  intros Ha Hb Hd Hk Hka Hkb.
  rewrite (blend_pose_sequences_blended seq_a seq_b k (ncols seq_a)) by (done || lia).
  eexists. split; [done|]. unfold nrows in *. cbn [rows ncols]. repeat split.
  - unfold wf_ndarray. cbn [rows ncols]. repeat apply Forall_app_2.
    + by apply Forall_take.
    + apply (blend_window_rows seq_a seq_b k (ncols seq_a)); done || lia.
    + apply Forall_drop. unfold wf_ndarray in Hb. by rewrite Hd.
  - intros i Hi. rewrite lookup_app_l by (rewrite length_take; lia).
    by rewrite lookup_take_lt.
  - intros i Hi. rewrite lookup_app_r by (rewrite length_take; lia).
    rewrite length_take.
    rewrite lookup_app_r by (rewrite length_blend_window; lia).
    rewrite length_blend_window, lookup_drop. f_equal. lia.
Qed.

Lemma blend_keeps_outer_frames_witness :
  exists r, blend_pose_sequences sample_a sample_b 1 = Ok r /\
    wf_ndarray r /\ ncols r = ncols sample_a /\
    (forall i, (i < nrows sample_a - Z.to_nat 1)%nat -> rows r !! i = rows sample_a !! i) /\
    (forall i, (Z.to_nat 1 <= i < nrows sample_b)%nat ->
       rows r !! (nrows sample_a - Z.to_nat 1 + i)%nat = rows sample_b !! i).
Proof.
  apply (blend_keeps_outer_frames sample_a sample_b 1
           BlendClaims.wf_sample_a BlendClaims.wf_sample_b eq_refl); cbn; lia.
Defined.

(** X3: a negative blend width blends nothing. The loop body never runs,
    the list of blended frames is empty, and the call does what it does for
    the width 0: it returns [np.vstack([seq_a, seq_b])], the concatenation
    of A and B when their frame widths agree. *)
Theorem blend_negative_width (seq_a seq_b : ndarray) (k : Z) :
  k < 0 ->
  blend_pose_sequences seq_a seq_b k = np_vstack [seq_a; seq_b] /\
  blend_pose_sequences seq_a seq_b k = blend_pose_sequences seq_a seq_b 0 /\
  (ncols seq_a = ncols seq_b ->
   blend_pose_sequences seq_a seq_b k
   = Ok (NDArray (ncols seq_a) (rows seq_a ++ rows seq_b))).
Proof.
  intros Hk.
  assert (Hrun : blend_pose_sequences seq_a seq_b k = np_vstack [seq_a; seq_b]).
  { unfold blend_pose_sequences.
    rewrite (proj2 (Z.eqb_neq k 0)) by lia.
    rewrite (proj2 (Z.ltb_ge (Z.of_nat (nrows seq_a)) k)) by lia.
    rewrite (proj2 (Z.ltb_ge (Z.of_nat (nrows seq_b)) k)) by lia.
    cbn [orb]. unfold py_range.
    replace (Z.to_nat k) with 0%nat by lia. reflexivity. }
  split; [exact Hrun|]. split; [by rewrite Hrun|].
  intros Hd. apply blend_pose_sequences_plain; [done|lia].
Qed.

Lemma blend_negative_width_witness :
  blend_pose_sequences sample_a sample_b (-3) = np_vstack [sample_a; sample_b] /\
  blend_pose_sequences sample_a sample_b (-3) = blend_pose_sequences sample_a sample_b 0 /\
  (ncols sample_a = ncols sample_b ->
   blend_pose_sequences sample_a sample_b (-3)
   = Ok (NDArray (ncols sample_a) (rows sample_a ++ rows sample_b))).
Proof. apply blend_negative_width. lia. Defined.

End BlendMoreFacts.

(** * Further properties of the constraint engine *)

Module FloatOrder.
Import FloatFacts.

Lemma lex_pos_lt (e1 e2 : Z) (m1 m2 : positive) :
  match (e1 ?= e2)%Z with
  | Eq => PosDef.Pos.compare_cont Eq m1 m2
  | Lt => Lt
  | Gt => Gt
  end = Lt <-> e1 < e2 \/ (e1 = e2 /\ (m1 < m2)%positive).
Proof.
  change (PosDef.Pos.compare_cont Eq m1 m2) with (Pos.compare m1 m2).
  destruct (Z.compare_spec e1 e2); destruct (Pos.compare_spec m1 m2);
    split; intros; try discriminate; try lia; auto.
Qed.

Lemma lex_neg_lt (e1 e2 : Z) (m1 m2 : positive) :
  match (e1 ?= e2)%Z with
  | Eq => CompOpp (PosDef.Pos.compare_cont Eq m1 m2)
  | Lt => Gt
  | Gt => Lt
  end = Lt <-> e2 < e1 \/ (e1 = e2 /\ (m2 < m1)%positive).
Proof.
  change (PosDef.Pos.compare_cont Eq m1 m2) with (Pos.compare m1 m2).
  destruct (Z.compare_spec e1 e2); destruct (Pos.compare_spec m1 m2); cbn [CompOpp];
    split; intros; try discriminate; try lia; auto.
Qed.

Lemma SFltb_trans (a b c : spec_float) :
  SFltb a b = true -> SFltb b c = true -> SFltb a c = true.
Proof.
  unfold SFltb.
  destruct a as [sa|sa| |sa ma ea], b as [sb|sb| |sb mb eb], c as [sc|sc| |sc mc ec];
    cbn [SFcompare];
    try discriminate;
    try (destruct sa, sb, sc; (discriminate || reflexivity || idtac); fail).
  destruct sa, sb, sc; try (discriminate || reflexivity).
  - destruct (match (ea ?= eb)%Z with Eq => _ | Lt => Gt | Gt => Lt end) eqn:H1;
      try discriminate.
    destruct (match (eb ?= ec)%Z with Eq => _ | Lt => Gt | Gt => Lt end) eqn:H2;
      try discriminate.
    intros _ _. apply lex_neg_lt in H1, H2.
    assert (H3 : ec < ea \/ (ea = ec /\ (mc < ma)%positive)) by lia.
    apply lex_neg_lt in H3. by rewrite H3.
  - destruct (match (ea ?= eb)%Z with Eq => _ | Lt => Lt | Gt => Gt end) eqn:H1;
      try discriminate.
    destruct (match (eb ?= ec)%Z with Eq => _ | Lt => Lt | Gt => Gt end) eqn:H2;
      try discriminate.
    intros _ _. apply lex_pos_lt in H1, H2.
    assert (H3 : ea < ec \/ (ea = ec /\ (ma < mc)%positive)) by lia.
    apply lex_pos_lt in H3. by rewrite H3.
Qed.

Lemma ltb_trans (a b c : float) :
  (a <? b)%float = true -> (b <? c)%float = true -> (a <? c)%float = true.
Proof. rewrite !FloatAxioms.ltb_spec. apply SFltb_trans. Qed.

Lemma SFltb_asym (a b : spec_float) : SFltb a b = true -> SFltb b a = false.
Proof.
  intros H. destruct (SFltb b a) eqn:H'; [|done].
  pose proof (SFltb_trans _ _ _ H H') as Hr. unfold SFltb in Hr.
  destruct a; try done; by rewrite SFcompare_refl in Hr.
Qed.

Lemma ltb_asym (a b : float) : (a <? b)%float = true -> (b <? a)%float = false.
Proof. rewrite !FloatAxioms.ltb_spec. apply SFltb_asym. Qed.

End FloatOrder.

Module ConstraintsMoreFacts.
Import Evaluator Constraints32 Constraints ConstraintsMore FloatFacts FloatOrder
  ConstraintFacts Constraint32Facts.

#[local] Set Warnings "-inexact-float".

Lemma np_clip_below (x lo hi : float) :
  (lo <? hi)%float = true -> (x <? lo)%float = true -> np_clip x lo hi = lo.
Proof.
  intros Hlh Hx. destruct (ltb_not_nan _ _ Hlh) as [Hlo Hhi].
  destruct (ltb_not_nan _ _ Hx) as [Hnx _].
  unfold np_clip, np_min, np_max. by rewrite Hnx, (ltb_asym _ _ Hx), Hlo, Hlh.
Qed.

Lemma np_clip_above (x lo hi : float) :
  (lo <? hi)%float = true -> (hi <? x)%float = true -> np_clip x lo hi = hi.
Proof.
  intros Hlh Hx. destruct (ltb_not_nan _ _ Hlh) as [Hlo Hhi].
  destruct (ltb_not_nan _ _ Hx) as [_ Hnx].
  unfold np_clip, np_min, np_max.
  by rewrite Hnx, (ltb_trans _ _ _ Hlh Hx), Hnx, (ltb_asym _ _ Hx).
Qed.

Lemma np_clip_inside (x lo hi : float) :
  (lo <? x)%float = true -> (x <? hi)%float = true -> np_clip x lo hi = x.
Proof.
  intros H1 H2. destruct (ltb_not_nan _ _ H1) as [_ Hnx].
  unfold np_clip, np_min, np_max. by rewrite Hnx, H1, Hnx, H2.
Qed.

(** A value in a NaN-free comparison with small bounds is no infinity. *)
Lemma small64_not_inf (y : float) : Evaluator.small64 y = true -> is_inf64 y = false.
Proof. unfold Evaluator.small64, is_inf64. by destruct (Prim2SF y). Qed.

Lemma between_not_inf (x lo hi : float) :
  (lo <? x)%float = true -> (x <? hi)%float = true -> is_inf64 x = false.
Proof.
  unfold is_inf64. rewrite !FloatAxioms.ltb_spec. unfold SFltb.
  destruct (Prim2SF x) as [s|s| |s m e]; try done.
  intros Hlo Hhi. destruct s.
  - destruct (Prim2SF lo) as [| [] | |]; cbn in Hlo; done.
  - destruct (Prim2SF hi) as [| [] | |]; cbn in Hhi; done.
Qed.

Lemma nan_not_inf (x : float) : is_nan x = true -> is_inf64 x = false.
Proof. intros H%is_nan_Prim2SF. unfold is_inf64. by rewrite H. Qed.

Lemma apply_constraints_short (f : row) :
  (length f < 45)%nat ->
  _apply_anatomical_constraints_to_frame f = Raise IndexError.
Proof.
  intros Hf.
  do 45 (destruct f as [|? f]; [vm_compute; reflexivity|]).
  cbn [length] in Hf. lia.
Qed.

(** X4: a frame with fewer than 45 values is not accepted: the engine raises
    [IndexError] (at the first parameter the frame does not have). *)
Theorem constraints_short_frame (f : row) :
  (length f < 45)%nat ->
  _apply_anatomical_constraints_to_frame f = Raise IndexError.
Proof.
  intros Hf.
  do 45 (destruct f as [|? f]; [vm_compute; reflexivity|]).
  cbn [length] in Hf. lia.
Qed.

Lemma constraints_short_frame_witness :
  _apply_anatomical_constraints_to_frame (replicate 44 0%float) = Raise IndexError.
Proof. apply constraints_short_frame. cbn. lia. Defined.

(** X5: on a frame longer than 45 values the engine does not raise: it
    clips the first 45 values and returns the remaining ones as they are. *)
Theorem constraints_long_frame (f rest : row) :
  length f = 45%nat ->
  _apply_anatomical_constraints_to_frame (f ++ rest) = Ok (clip_all f ++ rest).
Proof.
  intros Hf.
  do 45 (destruct f as [|? f]; [discriminate Hf|]).
  destruct f; [|discriminate Hf].
  vm_compute. reflexivity.
Qed.

Lemma constraints_long_frame_witness :
  _apply_anatomical_constraints_to_frame (wide_frame ++ [7%float; nan])
  = Ok (clip_all wide_frame ++ [7%float; nan]).
Proof. apply constraints_long_frame. reflexivity. Defined.

Lemma np_clip32_inside (x : spec_float) (lo hi : float) :
  SFltb (to_float32 lo) x = true -> SFltb x (to_float32 hi) = true ->
  np_clip32 x lo hi = x.
Proof.
  intros H1 H2. destruct (SFltb_not_nan _ _ H1) as [_ Hnx].
  unfold np_clip32, np_min32, np_max32. by rewrite Hnx, H1, Hnx, H2.
Qed.

Lemma np_clip32_below (x : spec_float) (lo hi : float) :
  SFltb (to_float32 lo) (to_float32 hi) = true -> SFltb x (to_float32 lo) = true ->
  np_clip32 x lo hi = to_float32 lo.
Proof.
  intros Hlh Hx. destruct (SFltb_not_nan _ _ Hlh) as [Hlo Hhi].
  destruct (SFltb_not_nan _ _ Hx) as [Hnx _].
  unfold np_clip32, np_min32, np_max32.
  by rewrite Hnx, (SFltb_asym _ _ Hx), Hlo, Hlh.
Qed.

Lemma np_clip32_above (x : spec_float) (lo hi : float) :
  SFltb (to_float32 lo) (to_float32 hi) = true -> SFltb (to_float32 hi) x = true ->
  np_clip32 x lo hi = to_float32 hi.
Proof.
  intros Hlh Hx. destruct (SFltb_not_nan _ _ Hlh) as [Hlo Hhi].
  destruct (SFltb_not_nan _ _ Hx) as [_ Hnx].
  unfold np_clip32, np_min32, np_max32.
  by rewrite Hnx, (SFltb_trans _ _ _ Hlh Hx), Hnx, (SFltb_asym _ _ Hx).
Qed.

(** X6: clipping saturates and changes nothing else.  On a float64 frame of
    45 values, for every joint of the layout and each of its degrees of
    freedom, with [lo, hi] the interval of the table: an input strictly
    inside the interval is returned as it is, an input below [lo] becomes
    [lo], and an input above [hi] becomes [hi].  On a float32 frame the same
    holds with the bounds rounded to float32: what is stored for an input
    below is [lo] rounded to float32, and for an input above, [hi] rounded
    to float32. *)
Theorem constraints_saturate (f : row) (f32 : tensor) :
  length f = 45%nat -> length f32 = 45%nat ->
  (exists g, Constraints._apply_anatomical_constraints_to_frame f = Ok g /\
     forall finger joints joint_type start_idx end_idx keys d key,
       (finger, joints) ∈ finger_joint_mapping ->
       (joint_type, (start_idx, end_idx)) ∈ joints ->
       limit_keys finger joint_type = Some keys ->
       dof_key keys d = Some key ->
       exists (lo hi x v : float),
         hand_joint_limits !! key = Some (lo, hi) /\
         f !! (start_idx + d)%nat = Some x /\
         g !! (start_idx + d)%nat = Some v /\
         ((lo <? x)%float = true -> (x <? hi)%float = true -> v = x) /\
         ((x <? lo)%float = true -> v = lo) /\
         ((hi <? x)%float = true -> v = hi))
  /\
  (exists g, Constraints32._apply_anatomical_constraints_to_frame f32 = Ok g /\
     forall finger joints joint_type start_idx end_idx keys d key,
       (finger, joints) ∈ finger_joint_mapping ->
       (joint_type, (start_idx, end_idx)) ∈ joints ->
       limit_keys finger joint_type = Some keys ->
       dof_key keys d = Some key ->
       exists (lo hi : float) (x v : spec_float),
         hand_joint_limits !! key = Some (lo, hi) /\
         f32 !! (start_idx + d)%nat = Some x /\
         g !! (start_idx + d)%nat = Some v /\
         (SFltb (to_float32 lo) x = true -> SFltb x (to_float32 hi) = true -> v = x) /\
         (SFltb x (to_float32 lo) = true -> v = to_float32 lo) /\
         (SFltb (to_float32 hi) x = true -> v = to_float32 hi)).
Proof.
  intros Hf Hf32. split.
  - exists (clip_all f).
    split; [by apply apply_constraints_clip_all|].
    intros finger joints joint_type start_idx end_idx keys d key Hfin Hj Hk Hd.
    destruct (param_limits_layout _ _ _ _ _ _ _ _ Hfin Hj Hk Hd) as (Hlt & lim & Hlim & Hpl).
    destruct (lookup_lt_is_Some_2 f (start_idx + d)) as [x Hx]; [lia|].
    pose proof param_limits_proper as Hprop.
    rewrite Forall_lookup in Hprop. specialize (Hprop _ _ Hpl).
    destruct lim as [lo hi]. cbn [fst snd] in Hprop.
    exists lo, hi, x, (np_clip x lo hi).
    split; [exact Hlim|]. split; [exact Hx|].
    split; [exact (clip_all_lookup f _ x (lo, hi) Hx Hpl)|].
    split; [|split].
    + apply np_clip_inside.
    + by apply np_clip_below.
    + by apply np_clip_above.
  - exists (clip_all32 f32).
    split; [by apply apply_constraints32_clip_all|].
    intros finger joints joint_type start_idx end_idx keys d key Hfin Hj Hk Hd.
    destruct (param_limits_layout _ _ _ _ _ _ _ _ Hfin Hj Hk Hd) as (Hlt & lim & Hlim & Hpl).
    destruct (lookup_lt_is_Some_2 f32 (start_idx + d)) as [x Hx]; [lia|].
    pose proof param_limits_proper32 as Hprop.
    rewrite Forall_lookup in Hprop. specialize (Hprop _ _ Hpl).
    destruct lim as [lo hi]. cbn [fst snd] in Hprop.
    exists lo, hi, x, (np_clip32 x lo hi).
    split; [exact Hlim|]. split; [exact Hx|].
    split; [exact (clip_all32_lookup f32 _ x (lo, hi) Hx Hpl)|].
    split; [|split].
    + apply np_clip32_inside.
    + by apply np_clip32_below.
    + by apply np_clip32_above.
Qed.

Lemma constraints_saturate_witness :
  (exists g, Constraints._apply_anatomical_constraints_to_frame inner_frame = Ok g /\
     forall finger joints joint_type start_idx end_idx keys d key,
       (finger, joints) ∈ finger_joint_mapping ->
       (joint_type, (start_idx, end_idx)) ∈ joints ->
       limit_keys finger joint_type = Some keys ->
       dof_key keys d = Some key ->
       exists (lo hi x v : float),
         hand_joint_limits !! key = Some (lo, hi) /\
         inner_frame !! (start_idx + d)%nat = Some x /\
         g !! (start_idx + d)%nat = Some v /\
         ((lo <? x)%float = true -> (x <? hi)%float = true -> v = x) /\
         ((x <? lo)%float = true -> v = lo) /\
         ((hi <? x)%float = true -> v = hi))
  /\
  (exists g, Constraints32._apply_anatomical_constraints_to_frame wide_frame32 = Ok g /\
     forall finger joints joint_type start_idx end_idx keys d key,
       (finger, joints) ∈ finger_joint_mapping ->
       (joint_type, (start_idx, end_idx)) ∈ joints ->
       limit_keys finger joint_type = Some keys ->
       dof_key keys d = Some key ->
       exists (lo hi : float) (x v : spec_float),
         hand_joint_limits !! key = Some (lo, hi) /\
         wide_frame32 !! (start_idx + d)%nat = Some x /\
         g !! (start_idx + d)%nat = Some v /\
         (SFltb (to_float32 lo) x = true -> SFltb x (to_float32 hi) = true -> v = x) /\
         (SFltb x (to_float32 lo) = true -> v = to_float32 lo) /\
         (SFltb (to_float32 hi) x = true -> v = to_float32 hi)).
Proof. exact (constraints_saturate inner_frame wide_frame32 eq_refl eq_refl). Defined.

(** X7: the engine never returns an infinity: on a frame of 45 values every
    output value is a finite number or a NaN, whatever the input holds. *)
Theorem constraints_no_infinity (f : row) :
  length f = 45%nat ->
  exists g, _apply_anatomical_constraints_to_frame f = Ok g /\
    forall v, v ∈ g -> is_inf64 v = false.
Proof.
  intros Hf. exists (clip_all f).
  split; [by apply apply_constraints_clip_all|].
  intros v Hv. unfold clip_all in Hv.
  apply elem_of_lookup_zip_with in Hv as (j & x & lim & -> & _ & Hl).
  apply list_elem_of_lookup_2 in Hl.
  pose proof param_limits_proper as Hproper. rewrite Forall_forall in Hproper.
  specialize (Hproper _ Hl). cbv beta in Hproper.
  destruct (EvaluatorFacts.param_limits_small _ Hl) as (Hs1 & Hs2 & _).
  destruct (is_nan x) eqn:Hx.
  - rewrite np_clip_nan by done. by apply nan_not_inf.
  - destruct (np_clip_cases x lim.1 lim.2 Hx Hproper) as [(-> & H1 & H2)|[->| ->]].
    + by apply (between_not_inf x lim.1 lim.2).
    + by apply small64_not_inf.
    + by apply small64_not_inf.
Qed.

Lemma constraints_no_infinity_witness :
  exists g, _apply_anatomical_constraints_to_frame (replicate 45 infinity) = Ok g /\
    forall v, v ∈ g -> is_inf64 v = false.
Proof. apply constraints_no_infinity. reflexivity. Defined.

End ConstraintsMoreFacts.

(** * Further properties of the smoother *)

Module SmootherMoreFacts.
Import Constraints Smoother SmootherMore FloatFacts ConstraintFacts SmootherFacts.

(** ** Columns *)

Lemma get_insert_col_same (i : nat) (rs : list row) (c : row) :
  Forall (fun r : row => (i < length r)%nat) rs -> length c = length rs ->
  map (fun r : row => default 0%float (r !! i))
      (zip_with (fun (r : row) x => <[i := x]> r) rs c) = c.
Proof.
  intros Hrs. revert c.
  induction Hrs as [|r rs Hr _ IH]; intros [|x c] Hc; try done.
  cbn [zip_with map]. rewrite list_lookup_insert_eq by done. cbn [default].
  f_equal. apply IH. by injection Hc.
Qed.

Lemma get_insert_col_other (i j : nat) (rs : list row) (c : row) :
  i <> j -> length c = length rs ->
  map (fun r : row => default 0%float (r !! j))
      (zip_with (fun (r : row) x => <[i := x]> r) rs c)
  = map (fun r : row => default 0%float (r !! j)) rs.
Proof.
  intros Hij. revert c.
  induction rs as [|r rs IH]; intros [|x c] Hc; try done.
  cbn [zip_with map]. rewrite list_lookup_insert_ne by done.
  f_equal. apply IH. by injection Hc.
Qed.

Lemma set_col_full (b : ndarray) (i : nat) (c : row) :
  length c = nrows b ->
  set_col b i c
  = Ok (NDArray (ncols b) (zip_with (fun (r : row) x => <[i := x]> r) (rows b) c)).
Proof. intros Hc. unfold set_col. by rewrite (proj2 (Nat.eqb_eq _ _) Hc). Qed.

Section WithFilter.
Variable gaussian_filter1d : row -> float -> result row.
Variable sigma : float.
Hypothesis filter_length :
  forall c, exists c', gaussian_filter1d c sigma = Ok c' /\ length c' = length c.

Lemma smooth_columns_from (a : ndarray) (n s : nat) (b : ndarray) :
  (s + n <= ncols a)%nat -> columns_done gaussian_filter1d sigma a s b ->
  exists b',
    for_fold (fun sm i => c ← gaussian_filter1d (get_col sm i) sigma; set_col sm i c)
             b (seq s n) = Ok b'
    /\ columns_done gaussian_filter1d sigma a (s + n) b'.
Proof using filter_length.
  revert s b. induction n as [|n IH]; intros s b Hs Hb.
  - exists b. split; [done|]. by rewrite Nat.add_0_r.
  - cbn [seq for_fold].
    destruct Hb as ((Hwf & Hn & Hd) & Hlow & Hhigh).
    destruct (filter_length (get_col b s)) as (c & Hc & Hlen).
    rewrite Hc. cbn [mbind result_bind].
    rewrite length_get_col in Hlen. rewrite set_col_full by done.
    replace (s + S n)%nat with (S s + n)%nat by lia. apply IH; [lia|].
    split; [|split].
    + apply (set_col_shape a b _ s c); [done|by apply set_col_full].
    + intros i Hi. unfold get_col at 2. cbn [rows].
      destruct (decide (i = s)) as [->|Hne].
      * rewrite get_insert_col_same; [by rewrite <- (Hhigh s) by lia|  |done].
        unfold wf_ndarray in Hwf. eapply Forall_impl; [exact Hwf|].
        intros r Hr. cbn beta in Hr. lia.
      * rewrite get_insert_col_other by done. apply Hlow. lia.
    + intros i Hi. unfold get_col at 1. cbn [rows].
      rewrite get_insert_col_other by (done || lia). apply Hhigh. lia.
Qed.

End WithFilter.

(** X8: the channels are smoothed independently, each from the input: with
    at least two frames and a filter that returns as many samples as it is
    given, column [i] of the smoothed sequence is the filter's result on
    column [i] of the input, for every channel [i]. *)
Theorem smooth_per_channel (gaussian_filter1d : row -> float -> result row)
    (a : ndarray) (sigma : float) :
  wf_ndarray a -> (2 <= nrows a)%nat ->
  (forall c, exists c', gaussian_filter1d c sigma = Ok c' /\ length c' = length c) ->
  exists a', smooth gaussian_filter1d a sigma = Ok a' /\
    forall i, (i < ncols a)%nat ->
      gaussian_filter1d (get_col a i) sigma = Ok (get_col a' i).
Proof.
  intros Hwf Hn Hfilter. unfold smooth.
  rewrite (proj2 (Nat.ltb_lt 1 (nrows a))) by lia.
  destruct (smooth_columns_from gaussian_filter1d sigma Hfilter a (ncols a) 0 a)
    as (a' & Ha' & _ & Hlow & _); [done| |].
  - split; [done|]. split; [intros; lia|done].
  - exists a'. split; [exact Ha'|]. intros i Hi. by apply Hlow.
Qed.

Lemma smooth_per_channel_witness :
  exists a', smooth sample_filter two_frames 0.5 = Ok a' /\
    forall i, (i < ncols two_frames)%nat ->
      sample_filter (get_col two_frames i) 0.5 = Ok (get_col a' i).
Proof.
  apply (smooth_per_channel sample_filter two_frames 0.5 wf_two_frames).
  - cbn. lia.
  - intros c. apply sample_filter_length.
Defined.

(** X9: a sequence of fewer than two frames of 45 values is only clipped:
    the filter is not consulted, the call returns whatever the filter would
    do, and an empty sequence gives an empty sequence. *)
Theorem process_short_sequence (gaussian_filter1d : row -> float -> result row)
    (a : ndarray) (sigma : float) :
  wf_ndarray a -> ncols a = 45%nat -> (nrows a < 2)%nat ->
  _process_hand_pose_data gaussian_filter1d a sigma
  = Ok (NDArray 45 (map clip_all (rows a))).
Proof.
  intros Hwf Hd Hn. unfold _process_hand_pose_data, smooth.
  rewrite (proj2 (Nat.ltb_ge 1 (nrows a))) by lia. cbn [mbind result_bind].
  by apply constrain_frames_clip.
Qed.

Lemma process_short_sequence_witness :
  _process_hand_pose_data (fun _ _ => Raise IndexError) (NDArray 45 []) 0.5
  = Ok (NDArray 45 (map clip_all (rows (NDArray 45 [])))).
Proof.
  apply process_short_sequence; [apply Forall_nil_2|reflexivity|cbn; lia].
Defined.

(** X10: on a float64 array of frames of 45 values, whatever the filter
    computes, a processing that returns gives as many frames of 45 values as
    it was given, and each value of each frame is a NaN or lies in the
    closed interval the table declares for its joint and degree of
    freedom.  (The arrays of this development are float64 arrays; an array
    of another dtype stores the bounds rounded to that dtype.) *)
Theorem process_within_limits (gaussian_filter1d : row -> float -> result row)
    (a b : ndarray) (sigma : float) :
  wf_ndarray a -> ncols a = 45%nat ->
  _process_hand_pose_data gaussian_filter1d a sigma = Ok b ->
  wf_ndarray b /\ nrows b = nrows a /\ ncols b = 45%nat /\
  forall r finger joints joint_type start_idx end_idx keys d key,
    r ∈ rows b ->
    (finger, joints) ∈ finger_joint_mapping ->
    (joint_type, (start_idx, end_idx)) ∈ joints ->
    limit_keys finger joint_type = Some keys ->
    dof_key keys d = Some key ->
    exists (lim : float * float) (v : float),
      hand_joint_limits !! key = Some lim /\
      r !! (start_idx + d)%nat = Some v /\
      (is_nan v = true \/ within lim v = true).
Proof.
  intros Hwf Hd Hrun.
  destruct (process_hand_pose_clip gaussian_filter1d a b sigma Hwf Hd Hrun)
    as (sm & (Hwf' & Hn' & Hd') & ->).
  unfold wf_ndarray, nrows in *. cbn [rows ncols].
  assert (Hlen : forall r, r ∈ rows sm -> length r = 45%nat).
  { intros r Hr. rewrite Forall_forall in Hwf'. rewrite (Hwf' r Hr). congruence. }
  split; [|split; [|split]].
  - apply Forall_forall. intros r (r0 & -> & Hr0)%list_elem_of_fmap.
    apply length_clip_all. by apply Hlen.
  - by rewrite length_map.
  - done.
  - intros r finger joints joint_type start_idx end_idx keys d key
      (r0 & -> & Hr0)%list_elem_of_fmap Hfin Hj Hk Hkey.
    destruct (param_limits_layout _ _ _ _ _ _ _ _ Hfin Hj Hk Hkey)
      as (Hlt & lim & Hlim & Hpl).
    specialize (Hlen r0 Hr0).
    destruct (lookup_lt_is_Some_2 r0 (start_idx + d)) as [x Hx]; [lia|].
    exists lim, (np_clip x lim.1 lim.2).
    split; [exact Hlim|]. split; [by apply clip_all_lookup|].
    pose proof param_limits_proper as Hprop.
    rewrite Forall_lookup in Hprop. specialize (Hprop _ _ Hpl).
    destruct lim as [lo hi]. cbn [fst snd] in *.
    destruct (is_nan x) eqn:Hnan.
    + left. by rewrite np_clip_nan.
    + right. by apply np_clip_within.
Qed.

Lemma process_within_limits_witness :
  exists b, _process_hand_pose_data sample_filter two_frames 0.5 = Ok b /\
  wf_ndarray b /\ nrows b = nrows two_frames /\ ncols b = 45%nat /\
  forall r finger joints joint_type start_idx end_idx keys d key,
    r ∈ rows b ->
    (finger, joints) ∈ finger_joint_mapping ->
    (joint_type, (start_idx, end_idx)) ∈ joints ->
    limit_keys finger joint_type = Some keys ->
    dof_key keys d = Some key ->
    exists (lim : float * float) (v : float),
      hand_joint_limits !! key = Some lim /\
      r !! (start_idx + d)%nat = Some v /\
      (is_nan v = true \/ within lim v = true).
Proof.
  destruct (_process_hand_pose_data sample_filter two_frames 0.5) as [b|e] eqn:E.
  - exists b. split; [reflexivity|].
    exact (process_within_limits sample_filter two_frames b 0.5 wf_two_frames eq_refl E).
  - vm_compute in E. discriminate E.
Defined.

End SmootherMoreFacts.

(** * Further properties of the evaluator *)

Module EvaluatorMoreFacts.
Import Constraints Smoother Evaluator FloatFacts ConstraintFacts SmootherFacts
  EvaluatorFacts PrepareFacts LoopFacts.

#[local] Set Warnings "-inexact-float".

(** ** The events of a run *)

Section WithCollaborators.
Variable gaussian_filter1d : row -> float -> result row.
Variables Output Image : Type.
Variable smplx_model : model_args -> result Output.
Variable renderer : option (Output -> result Image).

Lemma evaluate_frame_events (i : nat) (go bp lhp rhp : tensor) (e : event) :
  e ∈ (evaluate_frame Output smplx_model i go bp lhp rhp).1 ->
  (exists args, e = ModelCall i args) \/ (exists x, e = ModelFailed i x).
Proof.
  unfold evaluate_frame. destruct (smplx_model _); cbn [fst]; intros H;
    repeat (apply elem_of_cons in H as [->|H]);
    try (by apply elem_of_nil in H); eauto.
Qed.

(** The events of frame [i]: a warning, model calls and a model failure, all
    of them for frame [i]. *)
Lemma frame_output_events go bp lh rh (i : nat) (e : event) :
  e ∈ (frame_output Output smplx_model go bp lh rh i).1 ->
  e = WarnNaN i \/ (exists args, e = ModelCall i args) \/ (exists x, e = ModelFailed i x).
Proof.
  unfold frame_output.
  destruct (_ ≫= _) as [[[[gov bpv] lhp] rhp]|x]; [|by intros ?%elem_of_nil].
  unfold sanitize_hands. destruct (_ || _);
    destruct (evaluate_frame _ _ _ _ _ _ _) as [evs out] eqn:E; cbn [fst].
  - intros [H|H]%elem_of_app; [apply list_elem_of_singleton in H; auto|].
    right. eapply evaluate_frame_events. by rewrite E.
  - cbn [app]. intros H. right. eapply evaluate_frame_events. by rewrite E.
Qed.

(** The events of the loop: those of its frames, a mark per rendered frame,
    and the notice of the fallback. *)
Lemma frame_loop_events go bp lh rh (idx : list nat) (frames : list Image) (e : event) :
  e ∈ (frame_loop Output Image smplx_model renderer go bp lh rh idx frames).1 ->
  (exists i, i ∈ idx /\
     (e ∈ (frame_output Output smplx_model go bp lh rh i).1 \/ e = Rendered i))
  \/ e = NoRenderer.
Proof.
  revert frames. induction idx as [|i idx IH]; intros frames; cbn [frame_loop].
  - by intros ?%elem_of_nil.
  - destruct (frame_output _ _ _ _ _ _ i) as [evs [output|x]] eqn:E.
    + destruct renderer as [render|].
      * destruct (render output) as [color|x].
        -- specialize (IH (frames ++ [color])).
           destruct (frame_loop _ _ _ _ _ _ _ _ idx (frames ++ [color])) as [evs' r].
           cbn [fst] in *. intros [H|H]%elem_of_app.
           ++ left. exists i. split; [apply list_elem_of_here|left; by rewrite E].
           ++ apply elem_of_cons in H as [->|H].
              ** left. exists i. split; [apply list_elem_of_here|by right].
              ** destruct (IH H) as [(k & Hk & Hk') | ->]; [|by right].
                 left. exists k. split; [by apply list_elem_of_further|done].
        -- cbn [fst]. intros H. left. exists i. split; [apply list_elem_of_here|left; by rewrite E].
      * cbn [fst]. intros [H|H]%elem_of_app.
        -- left. exists i. split; [apply list_elem_of_here|left; by rewrite E].
        -- apply list_elem_of_singleton in H. by right.
    + cbn [fst]. intros H. left. exists i. split; [apply list_elem_of_here|left; by rewrite E].
Qed.

Lemma frame_loop_not_saved go bp lh rh (idx : list nat) (frames : list Image) p n f :
  Saved p n f ∉ (frame_loop Output Image smplx_model renderer go bp lh rh idx frames).1.
Proof.
  intros [(i & _ & [H|H])|H]%frame_loop_events; try done.
  apply frame_output_events in H as [H|[[? H]|[? H]]]; done.
Qed.

(** A model call in the loop's events was made by the frame it names. *)
Lemma frame_loop_calls go bp lh rh (idx : list nat) (frames : list Image) j args :
  ModelCall j args
    ∈ (frame_loop Output Image smplx_model renderer go bp lh rh idx frames).1 ->
  j ∈ idx /\ ModelCall j args ∈ (frame_output Output smplx_model go bp lh rh j).1.
Proof.
  intros [(i & Hi & [H|H])|H]%frame_loop_events; try done.
  pose proof (frame_output_calls Output smplx_model go bp lh rh i j args H) as ->.
  done.
Qed.

(** The events of a run are those of its loop, and a final [Saved]. *)
Lemma render_animation_events smplx_data save_path fps :
  match prepare gaussian_filter1d smplx_data with
  | Raise e =>
      render_animation gaussian_filter1d Output Image smplx_model renderer
        smplx_data save_path fps = ([], Raise e)
  | Ok (N, go, bp, lh, rh) =>
      exists evs r,
        frame_loop Output Image smplx_model renderer go bp lh rh (seq 0 N) [] = (evs, r) /\
        ((exists fs path,
            r = Ok (inl fs) /\ save_path = Some path /\ path <> EmptyString /\
            render_animation gaussian_filter1d Output Image smplx_model renderer
              smplx_data save_path fps
            = (evs ++ [Saved path (length fs) fps], Ok (Frames fs)))
         \/
         ((forall p n f,
             Saved p n f
               ∉ (render_animation gaussian_filter1d Output Image smplx_model renderer
                    smplx_data save_path fps).1) /\
          (render_animation gaussian_filter1d Output Image smplx_model renderer
             smplx_data save_path fps).1 = evs))
  end.
Proof.
  unfold render_animation.
  destruct (prepare gaussian_filter1d smplx_data) as [[[[[N go] bp] lh] rh]|e]; [|done].
  pose proof (frame_loop_not_saved go bp lh rh (seq 0 N) []) as Hns.
  destruct (frame_loop _ _ _ _ _ _ _ _ (seq 0 N) []) as [evs [[fs|o]|e]];
    cbn [fst] in Hns; exists evs; eexists; (split; [reflexivity|]);
    try (right; cbn [fst]; split; [intros p n f; apply Hns|done]).
  destruct save_path as [path|];
    [|right; cbn [fst]; split; [intros p n f; apply Hns|done]].
  destruct (String.eqb_spec path EmptyString) as [->|Hne].
  - right. cbn [fst]. split; [intros p n f; apply Hns|done].
  - left. by exists fs, path.
Qed.

End WithCollaborators.


(** ** The preparation *)

Section Preparation.
Variable gaussian_filter1d : row -> float -> result row.

Lemma process_total (a : ndarray) (sigma : float) :
  wf_ndarray a -> ncols a = 45%nat ->
  (forall c, exists c', gaussian_filter1d c sigma = Ok c' /\ length c' = length c) ->
  exists b, _process_hand_pose_data gaussian_filter1d a sigma = Ok b.
Proof.
  intros Hwf Hd Hfilter.
  destruct (smooth_total gaussian_filter1d a sigma Hwf Hfilter) as (sm & Hsm & Hw & Hn & Hc).
  unfold _process_hand_pose_data. rewrite Hsm. cbn [mbind result_bind].
  rewrite constrain_frames_clip by congruence. by eexists.
Qed.

(** A hand block of fewer than 45 columns is rejected by the constraint
    pass on its first frame. *)
Lemma process_narrow (a : ndarray) (sigma : float) :
  wf_ndarray a -> (ncols a < 45)%nat -> (0 < nrows a)%nat ->
  (forall c, exists c', gaussian_filter1d c sigma = Ok c' /\ length c' = length c) ->
  _process_hand_pose_data gaussian_filter1d a sigma = Raise IndexError.
Proof.
  intros Hwf Hd Hn Hfilter.
  destruct (smooth_total gaussian_filter1d a sigma Hwf Hfilter) as (sm & Hsm & Hw & Hr & Hc).
  unfold _process_hand_pose_data. rewrite Hsm. cbn [mbind result_bind].
  unfold constrain_frames, nrows, wf_ndarray in *.
  destruct (rows sm) as [|r rs]; [cbn in Hr; lia|].
  cbn [for_each].
  rewrite ConstraintsMoreFacts.apply_constraints_short; [done|].
  apply Forall_cons in Hw as [Hw _]. lia.
Qed.

(** The tensors of a preparation: global orientation and body pose are the
    frames' columns [0:3] and [3:66], rounded to binary32. *)
Lemma prepare_rows (frames : list row) N go bp lh rh :
  prepare gaussian_filter1d (SmplxArray frames) = Ok (N, go, bp, lh, rh) ->
  N = length frames /\
  go = map (fun r => map to_float32 (py_slice (Some 0) (Some 3) r)) frames /\
  bp = map (fun r => map to_float32 (py_slice (Some 3) (Some 66) r)) frames.
Proof.
  unfold prepare. destruct frames as [|r l]; cbv beta iota; [done|].
  destruct (np_stack (r :: l)) as [a|] eqn:Hs; cbn [mbind result_bind]; [|done].
  apply np_stack_rows in Hs as [Hs _].
  destruct (_process_hand_pose_data _ (slice_cols 66 111 a) _);
    cbn [mbind result_bind]; [|done].
  destruct (_process_hand_pose_data _ (slice_cols 111 156 a) _);
    cbn [mbind result_bind]; [|done].
  intros [= <- <- <- _ _]. unfold nrows, torch_tensor, slice_cols. cbn [rows].
  rewrite Hs, !map_map. done.
Qed.

Lemma prepare_total (frames : list row) :
  frames <> [] -> Forall (fun r => length r = 156%nat) frames ->
  (forall c, exists c', gaussian_filter1d c 0.3%float = Ok c' /\ length c' = length c) ->
  exists go bp lh rh,
    prepare gaussian_filter1d (SmplxArray frames) = Ok (length frames, go, bp, lh, rh).
Proof.
  intros Hne Hframes Hfilter. unfold prepare.
  destruct frames as [|r l]; [done|]. cbv beta iota.
  rewrite (np_stack_uniform 156) by done. cbn [mbind result_bind].
  set (a := NDArray 156 (r :: l)).
  destruct (process_total (slice_cols 66 111 a) 0.3%float) as [lb Hl];
    [by apply slice_cols_wf|reflexivity|done|].
  destruct (process_total (slice_cols 111 156 a) 0.3%float) as [rb Hr];
    [by apply slice_cols_wf|reflexivity|done|].
  rewrite Hl. cbn [mbind result_bind]. rewrite Hr. cbn [mbind result_bind].
  by eexists _, _, _, _.
Qed.

End Preparation.

(** ** The loop with a renderer and collaborators that do not raise *)

Section Total.
Variables Output Image : Type.
Variable smplx_model : model_args -> result Output.
Variable render : Output -> result Image.
Hypothesis model_total : forall args, exists o, smplx_model args = Ok o.
Hypothesis render_total : forall o, exists img, render o = Ok img.

Lemma frame_output_total go bp lh rh (i : nat) :
  (i < length go)%nat -> (i < length bp)%nat -> (i < length lh)%nat -> (i < length rh)%nat ->
  Forall (fun t : tensor => length t = 3%nat) go ->
  exists evs o,
    frame_output Output smplx_model go bp lh rh i = (evs, Ok o) /\
    forall j x, ModelFailed j x ∉ evs.
Proof using model_total.
  intros Hgo Hbp Hlh Hrh Hlen.
  destruct (lookup_lt_is_Some_2 go i Hgo) as [gov Hgov].
  destruct (lookup_lt_is_Some_2 bp i Hbp) as [bpv Hbpv].
  destruct (lookup_lt_is_Some_2 lh i Hlh) as [lhp Hlhp].
  destruct (lookup_lt_is_Some_2 rh i Hrh) as [rhp Hrhp].
  pose proof (Forall_lookup_1 _ _ _ _ Hlen Hgov) as Lg. cbv beta in Lg.
  destruct gov as [|g0 gt]; [done|].
  unfold frame_output, row_at, rotate_x.
  rewrite Hgov, Hbpv, Hlhp, Hrhp. cbn [mbind result_bind].
  destruct (sanitize_hands i lhp rhp) as [warn [lhp' rhp']] eqn:Hs.
  assert (Hwarn : forall j x, ModelFailed j x ∉ warn).
  { unfold sanitize_hands in Hs. destruct (_ || _); injection Hs as <- _ _;
      intros j x H; [by apply list_elem_of_singleton in H|by apply elem_of_nil in H]. }
  unfold evaluate_frame.
  destruct (model_total (ModelArgs bpv rhp' lhp'
              (SFadd f32_prec f32_emax g0 (to_float32 np_pi) :: gt) zero_betas))
    as [o Ho].
  rewrite Ho. eexists _, o. split; [reflexivity|].
  intros j x [H|H]%elem_of_app; [by eapply Hwarn|].
  by apply list_elem_of_singleton in H.
Qed.

Lemma frame_loop_total go bp lh rh (idx : list nat) (frames : list Image) :
  Forall (fun i => i < length go /\ i < length bp /\ i < length lh /\ i < length rh)%nat idx ->
  Forall (fun t : tensor => length t = 3%nat) go ->
  exists evs fs,
    frame_loop Output Image smplx_model (Some render) go bp lh rh idx frames
    = (evs, Ok (inl fs)) /\
    forall j x, ModelFailed j x ∉ evs.
Proof using model_total render_total.
  intros Hidx Hlen. revert frames.
  induction Hidx as [|i idx (Hgo & Hbp & Hlh & Hrh) _ IH]; intros frames; cbn [frame_loop].
  - eexists _, _. split; [reflexivity|]. by intros j x ?%elem_of_nil.
  - destruct (frame_output_total go bp lh rh i Hgo Hbp Hlh Hrh Hlen) as (evs & o & -> & Hev).
    destruct (render_total o) as [color ->].
    destruct (IH (frames ++ [color])) as (evs' & fs & -> & Hev').
    eexists _, _. split; [reflexivity|].
    intros j x [H|H]%elem_of_app; [by eapply Hev|].
    apply elem_of_cons in H as [H|H]; [done|by eapply Hev'].
Qed.

End Total.

(** ** The arguments of the model calls *)

Section Calls.
Variable Output : Type.
Variable smplx_model : model_args -> result Output.

Lemma zeros_like_finite (t : tensor) :
  length (zeros_like t) = length t /\
  Forall (fun x => isfinite32 x = true) (zeros_like t).
Proof.
  unfold zeros_like. split; [by rewrite length_map|].
  apply Forall_forall. by intros x (y & -> & _)%list_elem_of_fmap.
Qed.

Lemma zero_nonfinite_all_finite (t : tensor) :
  Forall (fun x => isfinite32 x = true) (map zero_nonfinite t).
Proof.
  apply Forall_forall. intros x (y & -> & _)%list_elem_of_fmap.
  apply zero_nonfinite_finite.
Qed.

(** Every model call of frame [i], the first one and the retry, carries the
    frame's body pose and rotated orientation, zero shape parameters, and
    hands of finite values. *)
Lemma frame_output_call_args go bp lh rh (i j : nat) g0 gt bpv lhp rhp args :
  go !! i = Some (g0 :: gt) -> bp !! i = Some bpv ->
  lh !! i = Some lhp -> rh !! i = Some rhp ->
  Forall (fun x => not_inf32 x = true) lhp ->
  Forall (fun x => not_inf32 x = true) rhp ->
  ModelCall j args ∈ (frame_output Output smplx_model go bp lh rh i).1 ->
  body_pose args = bpv /\
  global_orient args = SFadd f32_prec f32_emax g0 (to_float32 np_pi) :: gt /\
  betas args = zero_betas /\
  length (left_hand_pose args) = length lhp /\
  length (right_hand_pose args) = length rhp /\
  Forall (fun x => isfinite32 x = true) (left_hand_pose args ++ right_hand_pose args).
Proof.
  intros Hgo Hbp Hlh Hrh Hl Hr. unfold frame_output, row_at, rotate_x.
  rewrite Hgo, Hbp, Hlh, Hrh. cbn [mbind result_bind].
  destruct (sanitize_hands_zero_nonfinite i lhp rhp Hl Hr) as [warn Hs].
  assert (Hwarn : ModelCall j args ∉ warn).
  { unfold sanitize_hands in Hs. destruct (_ || _); injection Hs as <- _ _;
      intros H; [by apply list_elem_of_singleton in H|by apply elem_of_nil in H]. }
  rewrite Hs. unfold evaluate_frame.
  destruct (smplx_model _); cbn [fst]; intros [H|H]%elem_of_app; try done;
    repeat (apply elem_of_cons in H as [H|H]); try (by apply elem_of_nil in H);
    try discriminate H; injection H as _ ->; cbn [body_pose global_orient betas
      left_hand_pose right_hand_pose];
    repeat split; try done;
    first [ by unfold zeros_like; rewrite ?length_map
          | apply Forall_app_2;
            first [apply zero_nonfinite_all_finite | apply (proj2 (zeros_like_finite _))] ].
Qed.

End Calls.

(** ** Properties of a run *)

(** X11: on frames of 156 values, with a filter that keeps the number of
    samples, and a body model and a renderer that do not raise, a run with a
    save path returns one image per frame; its events show no model failure
    and end with the saving of all the images at the given rate. *)
Theorem render_complete
    (gaussian_filter1d : row -> float -> result row) (Output Image : Type)
    (smplx_model : model_args -> result Output) (render : Output -> result Image)
    (frames : list row) (path : string) (fps : nat) :
  frames <> [] -> Forall (fun r => length r = 156%nat) frames ->
  (forall c, exists c', gaussian_filter1d c 0.3%float = Ok c' /\ length c' = length c) ->
  (forall args, exists o, smplx_model args = Ok o) ->
  (forall o, exists img, render o = Ok img) ->
  path <> EmptyString ->
  exists evs fs,
    render_animation gaussian_filter1d Output Image smplx_model (Some render)
      (SmplxArray frames) (Some path) fps
    = (evs ++ [Saved path (length frames) fps], Ok (Frames fs)) /\
    length fs = length frames /\
    forall j x, ModelFailed j x ∉ evs.
Proof.
  intros Hne Hframes Hfilter Hmodel Hrender Hpath.
  destruct (prepare_total gaussian_filter1d frames Hne Hframes Hfilter)
    as (go & bp & lh & rh & Hprep).
  destruct (prepare_shapes _ _ _ _ _ _ _ Hframes Hprep)
    as (Lgo & Lbp & Llh & Lrh & Hgo & _ & _).
  destruct (frame_loop_total Output Image smplx_model render Hmodel Hrender
              go bp lh rh (seq 0 (length frames)) [])
    as (evs & fs & Hloop & Hev); [|done|].
  { apply Forall_forall. intros i Hi%elem_of_seq. lia. }
  exists evs, fs. unfold render_animation. rewrite Hprep, Hloop.
  apply frame_loop_length in Hloop. rewrite length_seq in Hloop. cbn [length] in Hloop.
  destruct (String.eqb_spec path EmptyString) as [->|_]; [done|].
  rewrite Hloop. done.
Qed.

Lemma render_complete_witness :
  exists evs fs,
    render_animation sample_filter nat nat (fun a => Ok (length (body_pose a)))
      (Some (fun o => Ok o)) (SmplxArray nan_orient_frames) (Some "out.mp4") 15
    = (evs ++ [Saved "out.mp4" (length nan_orient_frames) 15], Ok (Frames fs)) /\
    length fs = length nan_orient_frames /\
    forall j x, ModelFailed j x ∉ evs.
Proof.
  apply render_complete.
  - discriminate.
  - repeat first [apply Forall_cons_2 | apply Forall_nil_2]; reflexivity.
  - intros c. apply sample_filter_length.
  - intros args. by eexists.
  - intros o. by eexists.
  - discriminate.
Defined.

(** X12: a video is saved only by a run that has rendered every frame. If
    the events of a run show a [Saved], the run has returned its images, the
    save path is the non-empty path given, the saved images are all the
    images returned, the rate is the one given, and the [Saved] is the last
    event and the only one of its kind. *)
Theorem saved_only_on_success
    (gaussian_filter1d : row -> float -> result row) (Output Image : Type)
    (smplx_model : model_args -> result Output)
    (renderer : option (Output -> result Image))
    (smplx_data : smplx_entry) (save_path : option string) (fps : nat)
    (p : string) (n f : nat) :
  Saved p n f ∈ (render_animation gaussian_filter1d Output Image smplx_model renderer
                   smplx_data save_path fps).1 ->
  exists evs fs,
    render_animation gaussian_filter1d Output Image smplx_model renderer
      smplx_data save_path fps
    = (evs ++ [Saved p n f], Ok (Frames fs)) /\
    save_path = Some p /\ p <> EmptyString /\ n = length fs /\ f = fps /\
    forall p' n' f', Saved p' n' f' ∉ evs.
Proof.
  intros H.
  pose proof (render_animation_events gaussian_filter1d Output Image smplx_model renderer
                smplx_data save_path fps) as Hrun.
  destruct (prepare gaussian_filter1d smplx_data) as [[[[[N go] bp] lh] rh]|e].
  - destruct Hrun as (evs & r & Hloop & [(fs & path & -> & -> & Hpath & Hrun)|[Hns _]]);
      [|by apply Hns in H].
    assert (Hevs : forall p' n' f', Saved p' n' f' ∉ evs).
    { intros p' n' f'.
      pose proof (frame_loop_not_saved Output Image smplx_model renderer go bp lh rh
                    (seq 0 N) [] p' n' f') as Hn.
      by rewrite Hloop in Hn. }
    rewrite Hrun in H. cbn [fst] in H.
    apply elem_of_app in H as [H|H]; [by apply Hevs in H|].
    apply list_elem_of_singleton in H. injection H as -> -> ->.
    exists evs, fs. by rewrite Hrun.
  - rewrite Hrun in H. by apply elem_of_nil in H.
Qed.

Lemma saved_only_on_success_witness :
  exists evs fs,
    render_animation sample_filter nat nat sample_model sample_renderer
      (SmplxArray nan_hand_frames) (Some "out.mp4") 15
    = (evs ++ [Saved "out.mp4" 1 15], Ok (Frames fs)) /\
    Some "out.mp4" = Some "out.mp4" /\ "out.mp4" <> EmptyString /\
    1%nat = length fs /\ 15%nat = 15%nat /\
    forall p' n' f', Saved p' n' f' ∉ evs.
Proof.
  apply (saved_only_on_success sample_filter nat nat sample_model sample_renderer
           (SmplxArray nan_hand_frames) (Some "out.mp4") 15 "out.mp4" 1 15).
  vm_compute. repeat constructor.
Defined.

(** X13: frames of unequal lengths are rejected with a [ValueError] before
    any model call. *)
Theorem ragged_frames_rejected
    (gaussian_filter1d : row -> float -> result row) (Output Image : Type)
    (smplx_model : model_args -> result Output)
    (renderer : option (Output -> result Image))
    (r r' : row) (l : list row) (save_path : option string) (fps : nat) :
  r' ∈ l -> length r' <> length r ->
  render_animation gaussian_filter1d Output Image smplx_model renderer
    (SmplxArray (r :: l)) save_path fps
  = ([], Raise (ValueError "all input arrays must have the same shape")).
Proof.
  intros Hin Hlen. unfold render_animation, prepare, np_stack.
  destruct (forallb _ _) eqn:Hall; [|done].
  rewrite forallb_forall in Hall.
  specialize (Hall r'). rewrite Nat.eqb_eq in Hall. destruct Hlen. apply Hall.
  apply list_elem_of_In. by apply list_elem_of_further.
Qed.

Lemma ragged_frames_rejected_witness :
  render_animation sample_filter nat nat sample_model sample_renderer
    (SmplxArray (replicate 156 0%float :: [replicate 155 0%float])) None 15
  = ([], Raise (ValueError "all input arrays must have the same shape")).
Proof.
  apply (ragged_frames_rejected sample_filter nat nat sample_model sample_renderer
           (replicate 156 0%float) (replicate 155 0%float)).
  - apply list_elem_of_here.
  - cbn. lia.
Defined.

(** X14: frames that all have the same number of values, but fewer than 156,
    are rejected with an [IndexError] before any model call (with a filter
    that keeps the number of samples): a hand block then has fewer than 45
    columns. *)
Theorem narrow_frames_rejected
    (gaussian_filter1d : row -> float -> result row) (Output Image : Type)
    (smplx_model : model_args -> result Output)
    (renderer : option (Output -> result Image))
    (frames : list row) (d : nat) (save_path : option string) (fps : nat) :
  frames <> [] -> Forall (fun r => length r = d) frames -> (d < 156)%nat ->
  (forall c, exists c', gaussian_filter1d c 0.3%float = Ok c' /\ length c' = length c) ->
  render_animation gaussian_filter1d Output Image smplx_model renderer
    (SmplxArray frames) save_path fps
  = ([], Raise IndexError).
Proof.
  intros Hne Hframes Hd Hfilter. unfold render_animation, prepare.
  destruct frames as [|r l]; [done|]. cbv beta iota.
  rewrite (np_stack_uniform d) by done. cbn [mbind result_bind].
  set (a := NDArray d (r :: l)).
  destruct (decide (d < 111)%nat) as [Hlt|Hge].
  - rewrite (process_narrow gaussian_filter1d (slice_cols 66 111 a) 0.3%float);
      [done|by apply slice_cols_wf| | |done].
    + unfold slice_cols, a. cbn [ncols]. lia.
    + unfold nrows, slice_cols, a. cbn [rows length map]. lia.
  - destruct (process_total gaussian_filter1d (slice_cols 66 111 a) 0.3%float) as [lb ->];
      [by apply slice_cols_wf| |done|].
    { unfold slice_cols, a. cbn [ncols]. lia. }
    cbn [mbind result_bind].
    rewrite (process_narrow gaussian_filter1d (slice_cols 111 156 a) 0.3%float);
      [done|by apply slice_cols_wf| | |done].
    + unfold slice_cols, a. cbn [ncols]. lia.
    + unfold nrows, slice_cols, a. cbn [rows length map]. lia.
Qed.

Lemma narrow_frames_rejected_witness :
  render_animation sample_filter nat nat sample_model sample_renderer
    (SmplxArray [replicate 120 0%float; replicate 120 0%float]) None 15
  = ([], Raise IndexError).
Proof.
  apply (narrow_frames_rejected sample_filter nat nat sample_model sample_renderer _ 120).
  - discriminate.
  - repeat first [apply Forall_cons_2 | apply Forall_nil_2]; reflexivity.
  - lia.
  - intros c. apply sample_filter_length.
Defined.

(** X15: what the body model is called with. In a run on frames of 156
    values, every model call, the first one of a frame or its retry, is for
    a frame [j] of the input and carries that frame's values [3:66] as body
    pose and its values [0:3] as global orientation, rounded to binary32,
    with pi added to the first component; the shape parameters are ten
    zeros, and both hands have 45 values, all of them finite. *)
Theorem model_call_arguments
    (gaussian_filter1d : row -> float -> result row) (Output Image : Type)
    (smplx_model : model_args -> result Output)
    (renderer : option (Output -> result Image))
    (frames : list row) (save_path : option string) (fps : nat)
    (j : nat) (args : model_args) :
  Forall (fun r => length r = 156%nat) frames ->
  ModelCall j args ∈ (render_animation gaussian_filter1d Output Image smplx_model renderer
                        (SmplxArray frames) save_path fps).1 ->
  exists (r : row) (x y z : float),
    frames !! j = Some r /\
    py_slice (Some 0) (Some 3) r = [x; y; z] /\
    global_orient args
    = [SFadd f32_prec f32_emax (to_float32 x) (to_float32 np_pi);
       to_float32 y; to_float32 z] /\
    body_pose args = map to_float32 (py_slice (Some 3) (Some 66) r) /\
    betas args = replicate 10 (S754_zero false) /\
    length (left_hand_pose args) = 45%nat /\
    length (right_hand_pose args) = 45%nat /\
    Forall (fun v => isfinite32 v = true) (left_hand_pose args ++ right_hand_pose args).
Proof.
  intros Hframes H.
  pose proof (render_animation_events gaussian_filter1d Output Image smplx_model renderer
                (SmplxArray frames) save_path fps) as Hrun.
  destruct (prepare gaussian_filter1d (SmplxArray frames))
    as [[[[[N go] bp] lh] rh]|e] eqn:Hprep;
    [|rewrite Hrun in H; by apply elem_of_nil in H].
  destruct Hrun as (evs & res & Hloop & Hrun).
  assert (Hin : ModelCall j args ∈ evs).
  { destruct Hrun as [(fs & path & _ & _ & _ & Hrun)|[_ Hrun]]; rewrite Hrun in H.
    - cbn [fst] in H. apply elem_of_app in H as [H|H]; [done|].
      by apply list_elem_of_singleton in H.
    - done. }
  clear H Hrun.
  pose proof (frame_loop_calls Output Image smplx_model renderer go bp lh rh
                (seq 0 N) [] j args) as Hcalls.
  rewrite Hloop in Hcalls. destruct (Hcalls Hin) as [Hj Hcall].
  apply elem_of_seq in Hj.
  destruct (prepare_shapes _ _ _ _ _ _ _ Hframes Hprep)
    as (Lgo & Lbp & Llh & Lrh & Hgo & Hlh & Hrh).
  destruct (prepare_rows _ _ _ _ _ _ _ Hprep) as (HN & Hgov & Hbpv).
  destruct (lookup_lt_is_Some_2 frames j) as [r Hr]; [lia|].
  destruct (lookup_lt_is_Some_2 lh j) as [lhp Hlhp]; [lia|].
  destruct (lookup_lt_is_Some_2 rh j) as [rhp Hrhp]; [lia|].
  destruct (Forall_lookup_1 _ _ _ _ Hlh Hlhp) as [Ll Il].
  destruct (Forall_lookup_1 _ _ _ _ Hrh Hrhp) as [Lr Ir].
  assert (Hgoj : go !! j = Some (map to_float32 (py_slice (Some 0) (Some 3) r))).
  { rewrite Hgov, list_lookup_fmap, Hr. done. }
  assert (Hbpj : bp !! j = Some (map to_float32 (py_slice (Some 3) (Some 66) r))).
  { rewrite Hbpv, list_lookup_fmap, Hr. done. }
  assert (Hlen3 : length (py_slice (Some 0) (Some 3) r) = 3%nat).
  { pose proof (length_py_slice_nat 0 3 r) as Hs.
    rewrite (Forall_lookup_1 _ _ _ _ Hframes Hr) in Hs. exact Hs. }
  destruct (py_slice (Some 0) (Some 3) r) as [|x [|y [|z [|]]]] eqn:Hxyz; try done.
  cbn [map] in Hgoj.
  destruct (frame_output_call_args Output smplx_model go bp lh rh j j _ _ _ lhp rhp args
              Hgoj Hbpj Hlhp Hrhp Il Ir Hcall) as (Hb & Hg & Hz & HL & HR & Hfin).
  exists r, x, y, z. rewrite HL, HR. done.
Qed.

Lemma model_call_arguments_witness :
  exists args,
    (render_animation sample_filter nat nat sample_model sample_renderer
       (SmplxArray nan_hand_frames) None 15).1 !! 1%nat = Some (ModelCall 0 args) /\
    exists (r : row) (x y z : float),
      nan_hand_frames !! 0%nat = Some r /\
      py_slice (Some 0) (Some 3) r = [x; y; z] /\
      global_orient args
      = [SFadd f32_prec f32_emax (to_float32 x) (to_float32 np_pi);
         to_float32 y; to_float32 z] /\
      body_pose args = map to_float32 (py_slice (Some 3) (Some 66) r) /\
      betas args = replicate 10 (S754_zero false) /\
      length (left_hand_pose args) = 45%nat /\
      length (right_hand_pose args) = 45%nat /\
      Forall (fun v => isfinite32 v = true) (left_hand_pose args ++ right_hand_pose args).
Proof.
  assert (exists args,
    (render_animation sample_filter nat nat sample_model sample_renderer
       (SmplxArray nan_hand_frames) None 15).1 !! 1%nat = Some (ModelCall 0 args))
    as [args Hargs] by (eexists; vm_compute; reflexivity).
  exists args. split; [exact Hargs|].
  apply (model_call_arguments sample_filter nat nat sample_model sample_renderer
           nan_hand_frames None 15 0 args).
  - repeat first [apply Forall_cons_2 | apply Forall_nil_2]. reflexivity.
  - exact (list_elem_of_lookup_2 _ _ _ Hargs).
Defined.

End EvaluatorMoreFacts.

(** * Mirroring *)

Module MirrorFacts.
Import Evaluator Mirror.

(** Multiplying a binary32 value by [-1] flips its sign and nothing else. *)
Lemma SFmul_minus_one (x : spec_float) :
  valid32 x = true -> SFmul f32_prec f32_emax x minus_one32 = SFopp x.
Proof.
  destruct x as [s|s| |s m e];
    [intros _; destruct s; reflexivity..|reflexivity|].
  unfold valid32, SpecFloat.valid_binary, bounded, canonical_mantissa.
  intros [Hc He]%andb_true_iff. apply Z.eqb_eq in Hc.
  unfold SFmul, minus_one32, binary_round_aux, SFopp.
  rewrite (Pos.mul_comm m 8388608).
  change (8388608 * m)%positive with (Pos.iter xO m 23).
  unfold shr_fexp at 1.
  assert (Hd : Zdigits2 (Zpos (Pos.iter xO m 23)) = Zpos (digits2_pos m) + 23).
  { cbn [Zdigits2]. by rewrite Float32Facts.digits2_pos_shift. }
  rewrite Hd.
  replace (Zpos (digits2_pos m) + 23 + (e + -23)) with (Zpos (digits2_pos m) + e) by lia.
  rewrite Hc. replace (e - (e + -23)) with 23 by lia.
  cbn -[fexp Z.add Z.leb Z.sub].
  unfold shr_fexp. cbn [Zdigits2].
  replace (e + -23 + 23) with e by lia.
  rewrite Hc, Z.sub_diag. cbn [shr shr_m shr_record_of_loc].
  rewrite He. by destruct s.
Qed.

Lemma valid32_opp (x : spec_float) : valid32 x = true -> valid32 (SFopp x) = true.
Proof. by destruct x. Qed.

Lemma SFopp_involutive (x : spec_float) : SFopp (SFopp x) = x.
Proof. destruct x as [[]|[]| |[] m e]; reflexivity. Qed.

Lemma negate_from_lookup (start : nat) (t : tensor) (i : nat) (x : spec_float) :
  t !! i = Some x -> valid32 x = true ->
  negate_from start t !! i
  = Some (if (start <=? i)%nat && ((i - start) mod 3 =? 0)%nat then SFopp x else x).
Proof.
  intros Hx Hv. unfold negate_from. rewrite list_lookup_imap, Hx. cbn [fmap option_fmap option_map].
  destruct (_ && _); [by rewrite SFmul_minus_one|done].
Qed.

(** Which components a stride-3 slice selects. *)
Lemma stride3_selects (start i : nat) :
  (start < 3)%nat ->
  (start <=? i)%nat && ((i - start) mod 3 =? 0)%nat = (i mod 3 =? start)%nat.
Proof.
  intros Hs.
  pose proof (Nat.div_mod_eq i 3) as Hi.
  pose proof (Nat.mod_upper_bound i 3 ltac:(lia)) as Hr.
  destruct (Nat.leb_spec start i) as [Hle|Hlt]; cbn [andb].
  - pose proof (Nat.div_mod_eq (i - start) 3) as Hj.
    pose proof (Nat.mod_upper_bound (i - start) 3 ltac:(lia)) as Hq.
    destruct (Nat.eqb_spec ((i - start) mod 3) 0), (Nat.eqb_spec (i mod 3) start);
      try done; lia.
  - destruct (Nat.eqb_spec (i mod 3) start); [|done].
    rewrite (Nat.mod_small i 3) in * by lia. lia.
Qed.

(** Component [i] of the mirrored pose: kept when [i] is a multiple of 3,
    its sign flipped otherwise. *)
Lemma mirror_pose_lookup (pose : tensor) (i : nat) (x : spec_float) :
  pose !! i = Some x -> valid32 x = true ->
  mirror_pose pose !! i = Some (if (i mod 3 =? 0)%nat then x else SFopp x).
Proof.
  intros Hx Hv. unfold mirror_pose.
  pose proof (negate_from_lookup 1 pose i x Hx Hv) as H1.
  rewrite (stride3_selects 1 i) in H1 by lia.
  pose proof (Nat.mod_upper_bound i 3 ltac:(lia)) as Hr.
  destruct (Nat.eqb_spec (i mod 3) 1) as [Hm1|Hm1].
  - rewrite (negate_from_lookup 2 _ i (SFopp x) H1) by (by apply valid32_opp).
    rewrite (stride3_selects 2 i) by lia.
    destruct (Nat.eqb_spec (i mod 3) 2); [lia|].
    destruct (Nat.eqb_spec (i mod 3) 0); [lia|done].
  - rewrite (negate_from_lookup 2 _ i x H1) by done.
    rewrite (stride3_selects 2 i) by lia.
    destruct (Nat.eqb_spec (i mod 3) 2), (Nat.eqb_spec (i mod 3) 0); try done; lia.
Qed.

Lemma length_mirror_pose (pose : tensor) : length (mirror_pose pose) = length pose.
Proof. unfold mirror_pose, negate_from. by rewrite !length_imap. Qed.

(** X16: mirroring keeps the X component of every joint and flips the sign
    of its Y and Z components, and nothing else: the mirrored pose has the
    length of the pose, component [i] is the pose's when [i] is a multiple
    of 3 and its opposite otherwise (a NaN stays a NaN, zeros and infinities
    change sign). *)
Theorem mirror_pose_components (pose : tensor) :
  Forall (fun x => valid32 x = true) pose ->
  length (mirror_pose pose) = length pose /\
  forall i x, pose !! i = Some x ->
    mirror_pose pose !! i = Some (if (i mod 3 =? 0)%nat then x else SFopp x).
Proof.
  intros Hv. split; [apply length_mirror_pose|].
  intros i x Hx. apply mirror_pose_lookup; [done|].
  exact (Forall_lookup_1 _ _ _ _ Hv Hx).
Qed.

Lemma mirror_pose_components_witness :
  length (mirror_pose sample_pose) = length sample_pose /\
  forall i x, sample_pose !! i = Some x ->
    mirror_pose sample_pose !! i = Some (if (i mod 3 =? 0)%nat then x else SFopp x).
Proof.
  apply mirror_pose_components.
  repeat first [apply Forall_cons_2 | apply Forall_nil_2]; vm_compute; reflexivity.
Defined.

(** X17: mirroring twice gives the pose back. *)
Theorem mirror_pose_involutive (pose : tensor) :
  Forall (fun x => valid32 x = true) pose ->
  mirror_pose (mirror_pose pose) = pose.
Proof.
  intros Hv. apply list_eq. intros i.
  destruct (pose !! i) as [x|] eqn:Hx.
  - pose proof (Forall_lookup_1 _ _ _ _ Hv Hx) as Hvx. cbv beta in Hvx.
    rewrite (mirror_pose_lookup (mirror_pose pose) i
               (if (i mod 3 =? 0)%nat then x else SFopp x)).
    + destruct (i mod 3 =? 0)%nat; [done|by rewrite SFopp_involutive].
    + by apply mirror_pose_lookup.
    + destruct (i mod 3 =? 0)%nat; [done|by apply valid32_opp].
  - apply lookup_ge_None. rewrite !length_mirror_pose. by apply lookup_ge_None.
Qed.

Lemma mirror_pose_involutive_witness :
  mirror_pose (mirror_pose sample_pose) = sample_pose.
Proof.
  apply mirror_pose_involutive.
  repeat first [apply Forall_cons_2 | apply Forall_nil_2]; vm_compute; reflexivity.
Defined.

End MirrorFacts.

(** * The video identifier *)

Module VideoIdFacts.
Import Transcript VideoId.

Lemma group_at_Some (s g : pystr) :
  group_at s = Some g ->
  length g = 11%nat /\ forallb is_id_char g = true /\ exists post, s = g ++ post.
Proof.
  unfold group_at. destruct (_ && _) eqn:H; [|done]. intros [= <-].
  apply andb_prop in H as [H1 H2]. apply Nat.eqb_eq in H1.
  split; [done|]. split; [done|]. exists (drop 11 s). by rewrite take_drop.
Qed.

Lemma group_at_short (s : pystr) : (length s < 11)%nat -> group_at s = None.
Proof.
  intros H. unfold group_at.
  rewrite (proj2 (Nat.eqb_neq _ _)); [done|]. rewrite length_take. lia.
Qed.

Lemma match_at_Some (s g : pystr) :
  match_at s = Some g ->
  length g = 11%nat /\ forallb is_id_char g = true /\
  exists sep post, s = sep ++ g ++ post /\
    (sep = ["v"; "="]%char \/ sep = ["/"]%char).
Proof.
  unfold match_at. intros H.
  assert (Hcases : (exists rest, s = "v"%char :: "="%char :: rest /\ group_at rest = Some g)
                   \/ (exists rest, s = "/"%char :: rest /\ group_at rest = Some g)).
  { destruct s as [|c s]; [done|].
    destruct (decide (c = "/"%char)) as [->|Hc1]; [right; by eexists|].
    destruct (decide (c = "v"%char)) as [->|Hc2].
    - destruct s as [|c' s]; [done|].
      destruct (decide (c' = "="%char)) as [->|Hc3]; [left; by eexists|].
      destruct c' as [[] [] [] [] [] [] [] []]; done.
    - destruct c as [[] [] [] [] [] [] [] []]; done. }
  destruct Hcases as [(rest & -> & Hg)|(rest & -> & Hg)];
    apply group_at_Some in Hg as (Hl & Hc & post & ->);
    (split; [done|]); (split; [done|]).
  - exists ["v"; "="]%char, post. split; [done|by left].
  - exists ["/"]%char, post. split; [done|by right].
Qed.

Lemma match_at_short (s : pystr) : (length s <= 11)%nat -> match_at s = None.
Proof.
  intros H. destruct (match_at s) as [g|] eqn:Hm; [|done].
  apply match_at_Some in Hm as (Hl & _ & sep & post & -> & [-> | ->]);
    rewrite !length_app in H; cbn [length] in H; lia.
Qed.

Lemma re_search_Some (s g : pystr) :
  re_search s = Some g ->
  length g = 11%nat /\ forallb is_id_char g = true /\
  exists pre sep post, s = pre ++ sep ++ g ++ post /\
    (sep = ["v"; "="]%char \/ sep = ["/"]%char).
Proof.
  induction s as [|c s IH]; cbn [re_search].
  - destruct (match_at []) eqn:Hm; [|done]. intros [= ->].
    apply match_at_Some in Hm as (Hl & Hc & sep & post & Hs & Hsep).
    split; [done|]. split; [done|]. by exists [], sep, post.
  - destruct (match_at (c :: s)) eqn:Hm.
    + intros [= ->].
      apply match_at_Some in Hm as (Hl & Hc & sep & post & Hs & Hsep).
      split; [done|]. split; [done|]. by exists [], sep, post.
    + intros (Hl & Hc & pre & sep & post & -> & Hsep)%IH.
      split; [done|]. split; [done|]. by exists (c :: pre), sep, post.
Qed.

Lemma re_search_short (s : pystr) : (length s <= 11)%nat -> re_search s = None.
Proof.
  induction s as [|c s IH]; intros H; cbn [re_search].
  - by rewrite match_at_short.
  - rewrite match_at_short by done. apply IH. cbn [length] in H. lia.
Qed.

(** The search skips a prefix that has a match at none of its positions. *)
Lemma re_search_skip (pre s : pystr) :
  (forall k, (k < length pre)%nat -> match_at (drop k (pre ++ s)) = None) ->
  re_search (pre ++ s) = re_search s.
Proof.
  induction pre as [|c pre IH]; intros H; [done|].
  pose proof (H 0%nat ltac:(cbn; lia)) as H0. cbn [drop app] in H0.
  cbn [app re_search]. rewrite H0.
  apply IH. intros k Hk. apply (H (S k)). cbn. lia.
Qed.

Lemma group_at_bad (s : pystr) (i : nat) (c : ascii) :
  (i < 11)%nat -> s !! i = Some c -> is_id_char c = false -> group_at s = None.
Proof.
  intros Hi Hs Hc. unfold group_at.
  destruct (forallb is_id_char (take 11 s)) eqn:Hall; [|by rewrite andb_false_r].
  rewrite forallb_forall in Hall. rewrite Hall in Hc; [done|].
  apply list_elem_of_In, (list_elem_of_lookup_2 _ i). by rewrite lookup_take_lt.
Qed.

Lemma group_at_id (g post : pystr) :
  length g = 11%nat -> forallb is_id_char g = true -> group_at (g ++ post) = Some g.
Proof.
  intros Hl Hc. unfold group_at.
  rewrite take_app_length' by done. by rewrite Hl, Hc.
Qed.

(** No position of [pre] starts a match in [pre ++ s]: it holds neither
    [/] nor [v], or the 11 characters after it include one outside the
    class, whatever [s] is. *)
Ltac no_match_at :=
  lazy beta iota zeta delta [drop app list_ascii_of_string match_at];
  first
    [ reflexivity
    | eapply (group_at_bad _ 0); [lia|reflexivity|reflexivity]
    | eapply (group_at_bad _ 1); [lia|reflexivity|reflexivity]
    | eapply (group_at_bad _ 2); [lia|reflexivity|reflexivity]
    | eapply (group_at_bad _ 3); [lia|reflexivity|reflexivity]
    | eapply (group_at_bad _ 4); [lia|reflexivity|reflexivity]
    | eapply (group_at_bad _ 5); [lia|reflexivity|reflexivity]
    | eapply (group_at_bad _ 6); [lia|reflexivity|reflexivity]
    | eapply (group_at_bad _ 7); [lia|reflexivity|reflexivity]
    | eapply (group_at_bad _ 8); [lia|reflexivity|reflexivity]
    | eapply (group_at_bad _ 9); [lia|reflexivity|reflexivity]
    | eapply (group_at_bad _ 10); [lia|reflexivity|reflexivity] ].

Lemma watch_prefix_skipped (s : pystr) :
  re_search (list_ascii_of_string "https://www.youtube.com/watch?" ++ s) = re_search s.
Proof.
  apply re_search_skip. intros k Hk. cbn in Hk.
  do 30 (destruct k as [|k]; [no_match_at|]). lia.
Qed.

Lemma short_prefix_skipped (s : pystr) :
  re_search (list_ascii_of_string "https://youtu.be" ++ s) = re_search s.
Proof.
  apply re_search_skip. intros k Hk. cbn in Hk.
  do 16 (destruct k as [|k]; [no_match_at|]). lia.
Qed.

(** X18: whatever [extract_video_id] returns has 11 characters; when the
    value is not the whole input, it consists of characters of the class
    [[0-9A-Za-z_-]] and stands in the input right after a [v=] or a [/]. *)
Theorem video_id_shape (url v : pystr) :
  extract_video_id url = Ok v ->
  length v = 11%nat /\
  (v = url \/
   (forallb is_id_char v = true /\
    exists pre sep post, url = pre ++ sep ++ v ++ post /\
      (sep = ["v"; "="]%char \/ sep = ["/"]%char))).
Proof.
  unfold extract_video_id. destruct (re_search url) as [g|] eqn:Hs.
  - intros [= <-]. apply re_search_Some in Hs as (Hl & Hc & Hpos). auto.
  - destruct (Nat.eqb_spec (length url) 11) as [Hl|_]; [|done].
    intros [= <-]. auto.
Qed.

Lemma video_id_shape_witness :
  length sample_id = 11%nat /\
  (sample_id = watch_prefix ++ sample_id \/
   (forallb is_id_char sample_id = true /\
    exists pre sep post, watch_prefix ++ sample_id = pre ++ sep ++ sample_id ++ post /\
      (sep = ["v"; "="]%char \/ sep = ["/"]%char))).
Proof. apply video_id_shape. vm_compute. reflexivity. Defined.

(** X19: an input of exactly 11 characters is returned as it is, whatever
    its characters: the pattern needs at least 12 characters to match. *)
Theorem bare_video_id (url : pystr) :
  length url = 11%nat -> extract_video_id url = Ok url.
Proof.
  intros Hl. unfold extract_video_id.
  rewrite re_search_short by lia. by rewrite Hl.
Qed.

Lemma bare_video_id_witness :
  extract_video_id (list_ascii_of_string "not an id!?") = Ok (list_ascii_of_string "not an id!?").
Proof. apply bare_video_id. reflexivity. Defined.

(** X20: an input of fewer than 11 characters, the empty one included, is
    rejected with the [ValueError] of the function. *)
Theorem short_url_rejected (url : pystr) :
  (length url < 11)%nat ->
  extract_video_id url = Raise (ValueError "Invalid YouTube URL or video ID.").
Proof.
  intros Hl. unfold extract_video_id.
  rewrite re_search_short by lia.
  by rewrite (proj2 (Nat.eqb_neq (length url) 11)) by lia.
Qed.

Lemma short_url_rejected_witness :
  extract_video_id [] = Raise (ValueError "Invalid YouTube URL or video ID.").
Proof. apply short_url_rejected. cbn. lia. Defined.

(** X21: the two usual forms of a link give the identifier: for every
    identifier [v] of 11 characters of the class and every rest of the link,
    [https://www.youtube.com/watch?v=] followed by [v] and the rest, and
    [https://youtu.be/] followed by [v] and the rest, both give [v]. *)
Theorem usual_links (v rest : pystr) :
  length v = 11%nat -> forallb is_id_char v = true ->
  extract_video_id (watch_prefix ++ v ++ rest) = Ok v /\
  extract_video_id (short_prefix ++ v ++ rest) = Ok v.
Proof.
  intros Hl Hc. unfold extract_video_id. split.
  - change watch_prefix
      with (list_ascii_of_string "https://www.youtube.com/watch?" ++ ["v"; "="]%char).
    rewrite <- app_assoc, watch_prefix_skipped.
    cbn [app re_search match_at]. by rewrite group_at_id.
  - change short_prefix with (list_ascii_of_string "https://youtu.be" ++ ["/"]%char).
    rewrite <- app_assoc, short_prefix_skipped.
    cbn [app re_search match_at]. by rewrite group_at_id.
Qed.

Lemma usual_links_witness :
  extract_video_id (watch_prefix ++ sample_id ++ list_ascii_of_string "&t=42s") = Ok sample_id /\
  extract_video_id (short_prefix ++ sample_id ++ list_ascii_of_string "&t=42s") = Ok sample_id.
Proof. apply usual_links; reflexivity. Defined.

End VideoIdFacts.

(** * Further properties of the transcript words and the word table *)

Module TranscriptMoreFacts.
Import Transcript TranscriptFacts.

#[local] Set Warnings "-clear-no-such-hyp".

(** ** Tokens *)

Lemma split_from_chars (cur s : pystr) (tok : pystr) (c : ascii) :
  tok ∈ split_from cur s -> c ∈ tok ->
  c ∈ cur \/ (c ∈ s /\ is_space c = false).
Proof.
  revert cur. induction s as [|a s IH]; intros cur; cbn [split_from].
  - destruct cur as [|b cur]; [by intros ?%elem_of_nil|].
    intros ->%list_elem_of_singleton Hc. rewrite elem_of_reverse in Hc. by left.
  - destruct (is_space a) eqn:Ha.
    + destruct cur as [|b cur].
      * intros Htok Hc. destruct (IH [] Htok Hc) as [H|[H1 H2]];
          [by apply elem_of_nil in H|].
        right. split; [by apply list_elem_of_further|done].
      * intros [->|Htok]%elem_of_cons Hc.
        -- left. by apply elem_of_reverse.
        -- destruct (IH [] Htok Hc) as [H|[H1 H2]]; [by apply elem_of_nil in H|].
           right. split; [by apply list_elem_of_further|done].
    + intros Htok Hc. destruct (IH (a :: cur) Htok Hc) as [H|[H1 H2]].
      * apply elem_of_cons in H as [->|H]; [|by left].
        right. split; [apply list_elem_of_here|done].
      * right. split; [by apply list_elem_of_further|done].
Qed.

Lemma lower_char_not_upper (c : ascii) :
  ((65 <=? code (lower_char c)) && (code (lower_char c) <=? 90))%nat = false.
Proof. destruct c as [[] [] [] [] [] [] [] []]; vm_compute; reflexivity. Qed.

Lemma lstrip_drop (p : ascii -> bool) (s : pystr) : exists k, lstrip p s = drop k s.
Proof.
  induction s as [|c s [k IH]]; [by exists 0%nat|]. cbn [lstrip].
  destruct (p c); [by exists (S k)|by exists 0%nat].
Qed.

Lemma lstrip_head (p : ascii -> bool) (s : pystr) (c : ascii) :
  head (lstrip p s) = Some c -> p c = false.
Proof.
  induction s as [|a s IH]; [done|]. cbn [lstrip].
  destruct (p a) eqn:Ha; [done|]. by intros [= <-].
Qed.

Lemma elem_of_concat {A} (ls : list (list A)) (x : A) :
  x ∈ concat ls -> exists l, x ∈ l /\ l ∈ ls.
Proof.
  induction ls as [|l ls IH]; cbn [concat]; [by intros ?%elem_of_nil|].
  intros [H|H]%elem_of_app.
  - exists l. split; [done|apply list_elem_of_here].
  - destruct (IH H) as (l' & H1 & H2). exists l'. split; [done|by apply list_elem_of_further].
Qed.

Lemma elem_of_drop_1 {A} (k : nat) (l : list A) (x : A) : x ∈ drop k l -> x ∈ l.
Proof.
  revert l. induction k as [|k IH]; intros l; [by rewrite drop_0|].
  destruct l as [|a l]; [done|]. cbn [drop]. intros H.
  apply list_elem_of_further. by apply IH.
Qed.

Lemma last_drop {A} (k : nat) (l : list A) (x : A) :
  last (drop k l) = Some x -> last l = Some x.
Proof.
  revert l. induction k as [|k IH]; intros l; [by rewrite drop_0|].
  destruct l as [|a l]; [done|]. cbn [drop]. intros H.
  pose proof (IH _ H) as Hl. destruct l; [done|]. done.
Qed.

(** A stripped token is made of the token's characters and neither starts
    nor ends with a stripped character. *)
Lemma py_strip_ends (p : ascii -> bool) (s : pystr) :
  (forall c, c ∈ py_strip p s -> c ∈ s) /\
  (forall c, head (py_strip p s) = Some c -> p c = false) /\
  (forall c, last (py_strip p s) = Some c -> p c = false).
Proof.
  unfold py_strip.
  destruct (lstrip_drop p s) as [k Hk].
  destruct (lstrip_drop p (reverse (lstrip p s))) as [k' Hk'].
  split; [|split].
  - intros c Hc. rewrite elem_of_reverse, Hk', Hk in Hc.
    apply elem_of_drop_1 in Hc. rewrite elem_of_reverse in Hc.
    by apply elem_of_drop_1 in Hc.
  - intros c Hc. rewrite head_reverse in Hc. rewrite Hk' in Hc.
    apply last_drop in Hc. rewrite last_reverse in Hc. by apply lstrip_head in Hc.
  - intros c Hc. rewrite last_reverse in Hc. by apply lstrip_head in Hc.
Qed.

(** The cleaned tokens hold no white space and no upper-case letter. *)
Lemma cleaned_token_chars (transcript : list entry) (w : pystr) (c : ascii) :
  w ∈ cleaned_tokens transcript -> c ∈ w ->
  is_space c = false /\ ((65 <=? code c) && (code c <=? 90))%nat = false.
Proof.
  unfold cleaned_tokens. intros Hw Hc.
  apply elem_of_concat in Hw as (ws & Hw & Hws).
  apply list_elem_of_fmap in Hws as (e & -> & _).
  apply list_elem_of_fmap in Hw as (tok & -> & Htok).
  apply (proj1 (py_strip_ends is_punctuation tok)) in Hc.
  destruct (split_from_chars [] _ tok c Htok Hc) as [H|[H1 H2]];
    [by apply elem_of_nil in H|].
  split; [done|]. unfold py_lower in H1.
  apply list_elem_of_fmap in H1 as (c0 & -> & _). apply lower_char_not_upper.
Qed.

Section WithDataset.
Variable word_to_pkl : gmap string string.

Lemma elem_of_transcript_words (transcript : list entry) (w : pystr) :
  w ∈ transcript_to_words word_to_pkl transcript <->
  w ∈ cleaned_tokens transcript /\ key_of w ∈ dataset_words word_to_pkl.
Proof.
  rewrite transcript_to_words_spec, elem_of_first_occurrences, list_elem_of_filter.
  naive_solver.
Qed.

End WithDataset.

(** X22: the words of a transcript that grows. The words of [t1 ++ t2] are
    the words of [t1], in their order, followed by the words of [t2] that
    are not among them. *)
Theorem transcript_words_append (word_to_pkl : gmap string string)
    (t1 t2 : list entry) :
  transcript_to_words word_to_pkl (t1 ++ t2)
  = transcript_to_words word_to_pkl t1
    ++ filter (fun w => w ∉ transcript_to_words word_to_pkl t1)
              (transcript_to_words word_to_pkl t2).
Proof.
  unfold transcript_to_words at 1. rewrite foldl_app.
  fold (transcript_to_words word_to_pkl t1).
  rewrite visit_entries_from, visit_words_from, map_concat_tokens.
  by rewrite <- transcript_to_words_spec.
Qed.

(** X23: a returned word is normalised: it holds no white space and no
    upper-case letter, and it neither starts nor ends with a punctuation
    character. So a dataset word that is not of that form is never
    returned. *)
Theorem transcript_words_normalised (word_to_pkl : gmap string string)
    (transcript : list entry) (w : pystr) :
  w ∈ transcript_to_words word_to_pkl transcript ->
  (forall c, c ∈ w ->
     is_space c = false /\ ((65 <=? code c) && (code c <=? 90))%nat = false) /\
  (forall c, head w = Some c -> is_punctuation c = false) /\
  (forall c, last w = Some c -> is_punctuation c = false).
Proof.
  intros [Hw _]%elem_of_transcript_words.
  split; [intros c; by apply (cleaned_token_chars transcript)|].
  unfold cleaned_tokens in Hw.
  apply elem_of_concat in Hw as (ws & Hw & Hws).
  apply list_elem_of_fmap in Hws as (e & -> & _).
  apply list_elem_of_fmap in Hw as (tok & -> & _).
  apply py_strip_ends.
Qed.

Lemma transcript_words_normalised_witness :
  let w := list_ascii_of_string "april" in
  (forall c, c ∈ w ->
     is_space c = false /\ ((65 <=? code c) && (code c <=? 90))%nat = false) /\
  (forall c, head w = Some c -> is_punctuation c = false) /\
  (forall c, last w = Some c -> is_punctuation c = false).
Proof.
  apply (transcript_words_normalised sample_dataset sample_transcript).
  apply list_elem_of_In. vm_compute. auto.
Defined.

(** X24: no word is returned exactly when no cleaned token of the
    transcript is a dataset word (the case the endpoint answers with
    'No recognizable ASL words found in transcript.'). *)
Theorem transcript_words_empty (word_to_pkl : gmap string string)
    (transcript : list entry) :
  transcript_to_words word_to_pkl transcript = [] <->
  forall w, w ∈ cleaned_tokens transcript -> key_of w ∉ dataset_words word_to_pkl.
Proof.
  split.
  - intros He w Hw Hd.
    assert (w ∈ transcript_to_words word_to_pkl transcript) as Hin
      by (by apply elem_of_transcript_words).
    rewrite He in Hin. by apply elem_of_nil in Hin.
  - intros Hno. destruct (transcript_to_words word_to_pkl transcript) as [|w ws] eqn:He;
      [done|].
    assert (w ∈ transcript_to_words word_to_pkl transcript) as Hin
      by (rewrite He; apply list_elem_of_here).
    apply elem_of_transcript_words in Hin as [Hw Hd]. by destruct (Hno w Hw).
Qed.

End TranscriptMoreFacts.

(** * The word table *)

Module GlossMapFacts.
Import Transcript GlossMap TranscriptFacts.

Lemma invert_snoc (gloss_map : list (string * string)) (k v : string) :
  invert (gloss_map ++ [(k, v)]) = <[lower_key v := k]> (invert gloss_map).
Proof. unfold invert. by rewrite foldl_app. Qed.

(** What a lookup in the table finds: the file of the last item whose
    gloss lower-cases to the word. *)
Lemma invert_lookup (gloss_map : list (string * string)) (w f : string) :
  invert gloss_map !! w = Some f <->
  exists l1 v l2, gloss_map = l1 ++ (f, v) :: l2 /\ lower_key v = w /\
    forall kv, kv ∈ l2 -> lower_key kv.2 <> w.
Proof.
  induction gloss_map as [|[k v] l IH] using rev_ind.
  - split; [unfold invert; cbn [foldl]; by rewrite lookup_empty|].
    intros (l1 & v & l2 & H & _).
    by destruct l1.
  - rewrite invert_snoc. destruct (decide (lower_key v = w)) as [Hw|Hw].
    + rewrite Hw, lookup_insert_eq. split.
      * intros [= ->]. exists l, v, []. split; [done|]. split; [done|].
        by intros kv ?%elem_of_nil.
      * intros (l1 & v' & l2 & H & Hv' & Hl2).
        destruct l2 as [|kv l2 _] using rev_ind.
        -- apply app_inj_tail in H as [_ [= -> _]]. done.
        -- rewrite app_comm_cons, app_assoc in H.
           apply app_inj_tail in H as [_ <-].
           destruct (Hl2 (k, v)); [|done].
           apply elem_of_app. right. apply list_elem_of_here.
    + rewrite lookup_insert_ne by done. rewrite IH. split.
      * intros (l1 & v' & l2 & -> & Hv' & Hl2).
        exists l1, v', (l2 ++ [(k, v)]). split; [by rewrite <- app_assoc|].
        split; [done|]. intros kv [H|H]%elem_of_app; [by apply Hl2|].
        apply list_elem_of_singleton in H as ->. done.
      * intros (l1 & v' & l2 & H & Hv' & Hl2).
        destruct l2 as [|kv l2 _] using rev_ind.
        -- apply app_inj_tail in H as [_ [= _ ->]]. done.
        -- rewrite app_comm_cons, app_assoc in H.
           apply app_inj_tail in H as [-> <-].
           exists l1, v', l2. split; [done|]. split; [done|].
           intros kv Hkv. apply Hl2, elem_of_app. by left.
Qed.

(** X25: the table maps a word to a file of the gloss map whose gloss,
    lower-cased, is that word; and the words of the table are exactly the
    lower-cased glosses. *)
Theorem table_lookup_sound (gloss_map : list (string * string)) :
  (forall w f, invert gloss_map !! w = Some f ->
     exists v, (f, v) ∈ gloss_map /\ lower_key v = w) /\
  (forall w, w ∈ dataset_words (invert gloss_map) <->
     exists k v, (k, v) ∈ gloss_map /\ lower_key v = w).
Proof.
  split.
  - intros w f (l1 & v & l2 & -> & Hv & _)%invert_lookup.
    exists v. split; [|done]. apply elem_of_app. right. apply list_elem_of_here.
  - intros w. unfold dataset_words. rewrite elem_of_dom. split.
    + intros [f (l1 & v & l2 & -> & Hv & _)%invert_lookup].
      exists f, v. split; [|done]. apply elem_of_app. right. apply list_elem_of_here.
    + intros (k & v & Hin & Hv). revert Hin.
      induction gloss_map as [|[k' v'] l IH] using rev_ind;
        [by intros ?%elem_of_nil|].
      rewrite invert_snoc. intros [Hin|Hin]%elem_of_app.
      * destruct (decide (lower_key v' = w)) as [<-|Hne].
        -- rewrite lookup_insert_eq. by eexists.
        -- rewrite lookup_insert_ne by done. by apply IH.
      * apply list_elem_of_singleton in Hin as [= <- <-].
        rewrite Hv, lookup_insert_eq. by eexists.
Qed.

(** X26: of several files whose glosses lower-case to the same word, the
    last one in the gloss map is the one the table keeps: the others cannot
    be reached through the table. *)
Theorem table_last_wins (l1 l2 : list (string * string)) (k v : string) :
  (forall kv, kv ∈ l2 -> lower_key kv.2 <> lower_key v) ->
  invert (l1 ++ (k, v) :: l2) !! lower_key v = Some k.
Proof.
  induction l2 as [|[k' v'] l2 IH] using rev_ind; intros Hl2.
  - by rewrite invert_snoc, lookup_insert_eq.
  - rewrite app_comm_cons, app_assoc, invert_snoc.
    rewrite lookup_insert_ne.
    + apply IH. intros kv Hkv. apply Hl2, elem_of_app. by left.
    + apply (Hl2 (k', v')), elem_of_app. right. apply list_elem_of_here.
Qed.

Lemma table_last_wins_witness :
  invert ([("00001.pkl", "Hello"); ("00002.pkl", "world")] ++ ("00003.pkl", "HELLO") :: [])
    !! lower_key "HELLO"
  = Some "00003.pkl".
Proof. apply table_last_wins. by intros kv ?%elem_of_nil. Defined.

(** X27: from the transcript to the file. With the table built from a gloss
    map, every word returned for a transcript resolves to a file of the
    gloss map whose gloss, lower-cased, is that word. *)
Theorem transcript_word_file (gloss_map : list (string * string))
    (transcript : list entry) (w : pystr) :
  w ∈ transcript_to_words (invert gloss_map) transcript ->
  exists f v, pkl_of (invert gloss_map) w = Ok f /\
    (f, v) ∈ gloss_map /\ lower_key v = key_of w.
Proof.
  rewrite transcript_to_words_spec, elem_of_first_occurrences, list_elem_of_filter.
  intros [Hd _]. unfold dataset_words in Hd. apply elem_of_dom in Hd as [f Hf].
  apply invert_lookup in Hf as Hpos. destruct Hpos as (l1 & v & l2 & -> & Hv & _).
  exists f, v. unfold pkl_of. rewrite Hf. split; [done|]. split; [|done].
  apply elem_of_app. right. apply list_elem_of_here.
Qed.

Lemma transcript_word_file_witness :
  exists f v,
    pkl_of (invert sample_gloss_map) (list_ascii_of_string "hello") = Ok f /\
    (f, v) ∈ sample_gloss_map /\ lower_key v = key_of (list_ascii_of_string "hello").
Proof.
  apply (transcript_word_file sample_gloss_map sample_transcript).
  apply list_elem_of_In. vm_compute. auto.
Defined.

End GlossMapFacts.
